(** * php-dsl: the DSLConverter transpilation engine of [php_dsl.py]

    A shallow embedding of the class [DSLConverter] (the line classifier,
    the indentation tracker, the expression rewriter, the value converter
    and the driver [convert]) together with the properties of its
    specification.

    Conventions of the embedding.
    - A Python [str] is a [string]; a character is a code point below 256
      and the character classes ([str.isspace], [\w], [\s], [str.lower],
      [str.isdigit], the line boundaries of [str.splitlines]) are the ones
      Python uses on that range.
    - A Python [int] is a [Z]; [' ' * n] is the empty string for [n <= 0].
    - A Python exception is a value [Raise e] of the type [result].
    - The list [indent_stack] and the list [block_types] are kept with
      their Python top (the last element, the one [pop()] removes) at the
      head of the Rocq list. [php_lines] is kept in output order. *)

From Stdlib Require Import String Ascii List ZArith Lia Bool Arith.
Import ListNotations.
Open Scope string_scope.
Open Scope Z_scope.

(** ** Exceptions *)

Inductive exn : Type :=
| UnboundLocalError   (* a local variable read before assignment *)
| IndexError          (* list index out of range *)
| RecursionError.     (* maximum recursion depth exceeded *)

Inductive result (A : Type) : Type :=
| Ok (a : A)
| Raise (e : exn).
Arguments Ok {A} a.
Arguments Raise {A} e.

Definition bind {A B : Type} (r : result A) (k : A -> result B) : result B :=
  match r with
  | Ok a => k a
  | Raise e => Raise e
  end.

Notation "x <- c ;; k" := (bind c (fun x => k))
  (at level 61, c at next level, right associativity).

(** [[f(x) for x in l]] where [f] may raise: the first exception escapes. *)
Fixpoint mapM {A B : Type} (f : A -> result B) (l : list A) : result (list B) :=
  match l with
  | [] => Ok []
  | x :: l' => y <- f x ;; ys <- mapM f l' ;; Ok (y :: ys)
  end.

(** ** Python strings *)

Module Py.

Definition code (c : ascii) : nat := nat_of_ascii c.

(** The double quote, as a character and as a one-character text; the
    line feed. *)
Definition dquote : ascii := "034"%char.
Definition DQ : string := String dquote EmptyString.
Definition LF : string := String "010"%char EmptyString.

Definition in_range (lo hi : nat) (c : ascii) : bool :=
  andb (Nat.leb lo (code c)) (Nat.leb (code c) hi).

Definition is_upper_az (c : ascii) : bool := in_range 65 90 c.
Definition is_lower_az (c : ascii) : bool := in_range 97 122 c.
Definition is_digit09 (c : ascii) : bool := in_range 48 57 c.
Definition is_underscore (c : ascii) : bool := Nat.eqb (code c) 95.

(** [str.isspace] for one character: tab, LF, VT, FF, CR, FS, GS, RS, US,
    space, NEL (0x85) and NBSP (0xA0). *)
Definition isspace (c : ascii) : bool :=
  in_range 9 13 c || in_range 28 32 c || Nat.eqb (code c) 133 || Nat.eqb (code c) 160.

(** [str.isdigit] for one character: 0-9 and the superscripts 0xB2, 0xB3, 0xB9. *)
Definition isdigit_char (c : ascii) : bool :=
  is_digit09 c || Nat.eqb (code c) 178 || Nat.eqb (code c) 179 || Nat.eqb (code c) 185.

(** The class [\w] of [re] on [str] patterns: alphanumeric or underscore. *)
Definition is_word (c : ascii) : bool :=
  is_upper_az c || is_lower_az c || is_digit09 c || is_underscore c
  || Nat.eqb (code c) 170 || Nat.eqb (code c) 178 || Nat.eqb (code c) 179
  || Nat.eqb (code c) 181 || Nat.eqb (code c) 185 || Nat.eqb (code c) 186
  || in_range 188 190 c || in_range 192 214 c || in_range 216 246 c
  || in_range 248 255 c.

(** The line boundaries of [str.splitlines] (a CR LF pair is one boundary). *)
Definition is_linebreak (c : ascii) : bool :=
  in_range 10 13 c || in_range 28 30 c || Nat.eqb (code c) 133.

Definition lower_char (c : ascii) : ascii :=
  if is_upper_az c || (in_range 192 222 c && negb (Nat.eqb (code c) 215))
  then ascii_of_nat (code c + 32) else c.

Fixpoint rev_onto (s acc : string) : string :=
  match s with
  | EmptyString => acc
  | String c s' => rev_onto s' (String c acc)
  end.
Definition rev (s : string) : string := rev_onto s "".

Fixpoint map_chars (f : ascii -> ascii) (s : string) : string :=
  match s with
  | EmptyString => EmptyString
  | String c s' => String (f c) (map_chars f s')
  end.

Fixpoint forallb_chars (p : ascii -> bool) (s : string) : bool :=
  match s with
  | EmptyString => true
  | String c s' => p c && forallb_chars p s'
  end.

Fixpoint drop_while (p : ascii -> bool) (s : string) : string :=
  match s with
  | EmptyString => EmptyString
  | String c s' => if p c then drop_while p s' else s
  end.

Fixpoint drop (n : nat) (s : string) : string :=
  match n, s with
  | S n', String _ s' => drop n' s'
  | _, _ => s
  end.

Fixpoint take (n : nat) (s : string) : string :=
  match n, s with
  | S n', String c s' => String c (take n' s')
  | _, _ => EmptyString
  end.

(** [len(s)] *)
Definition len (s : string) : Z := Z.of_nat (String.length s).

(** [s.lower()], [s.isdigit()] *)
Definition lower (s : string) : string := map_chars lower_char s.
Definition isdigit (s : string) : bool :=
  match s with
  | EmptyString => false
  | _ => forallb_chars isdigit_char s
  end.

(** [s.lstrip()], [s.rstrip()], [s.strip()] and [s.strip(chars)] *)
Definition lstrip (s : string) : string := drop_while isspace s.
Definition rstrip (s : string) : string := rev (drop_while isspace (rev s)).
Definition strip (s : string) : string := lstrip (rstrip s).
Definition strip_char (c : ascii) (s : string) : string :=
  drop_while (Ascii.eqb c) (rev (drop_while (Ascii.eqb c) (rev s))).

(** [s.startswith(p)], [s.endswith(p)], [c in s] *)
Definition startswith (p s : string) : bool := String.prefix p s.
Definition endswith (p s : string) : bool := String.prefix (rev p) (rev s).
Fixpoint contains (c : ascii) (s : string) : bool :=
  match s with
  | EmptyString => false
  | String a s' => Ascii.eqb a c || contains c s'
  end.

(** [s[:-1]] *)
Definition drop_last (s : string) : string := rev (drop 1 (rev s)).

(** [sep.join(l)] and [' ' * n] *)
Definition join (sep : string) (l : list string) : string := String.concat sep l.
Fixpoint repeat_space (n : nat) : string :=
  match n with
  | O => EmptyString
  | S n' => String " " (repeat_space n')
  end.
Definition spaces (n : Z) : string := repeat_space (Z.to_nat n).

(** [s.split(sep)] for a non-empty separator: the occurrences are taken
    from left to right and do not overlap. [skip] counts the characters of
    a separator still to be passed over, [cur] is the current piece,
    reversed. *)
Fixpoint split_aux (sep : string) (skip : nat) (cur : string) (s : string)
  : list string :=
  match s with
  | EmptyString => [rev cur]
  | String c s' =>
      match skip with
      | S k => split_aux sep k cur s'
      | O =>
          if String.prefix sep s
          then rev cur :: split_aux sep (String.length sep - 1) "" s'
          else split_aux sep 0 (String c cur) s'
      end
  end.
Definition split (sep s : string) : list string := split_aux sep 0 "" s.

(** [s.split(c, 1)] for a one-character separator that occurs in [s]:
    the text before and the text after its first occurrence. *)
Fixpoint split1 (c : ascii) (s : string) : string * string :=
  match s with
  | EmptyString => (EmptyString, EmptyString)
  | String a s' =>
      if Ascii.eqb a c then (EmptyString, s')
      else let '(l, r) := split1 c s' in (String a l, r)
  end.

(** [s.rsplit(c, 1)] for a one-character separator that occurs in [s]. *)
Definition rsplit1 (c : ascii) (s : string) : string * string :=
  let '(r, l) := split1 c (rev s) in (rev l, rev r).

(** [s.replace(old, new)] for a non-empty [old]. *)
Fixpoint replace_aux (old new : string) (skip : nat) (s : string) : string :=
  match s with
  | EmptyString => EmptyString
  | String c s' =>
      match skip with
      | S k => replace_aux old new k s'
      | O =>
          if String.prefix old s
          then new ++ replace_aux old new (String.length old - 1) s'
          else String c (replace_aux old new 0 s')
      end
  end.
Definition replace (old new s : string) : string := replace_aux old new 0 s.

(** [s.splitlines()] *)
Fixpoint splitlines_aux (after_cr : bool) (cur : string) (s : string)
  : list string :=
  match s with
  | EmptyString =>
      match cur with
      | EmptyString => []
      | _ => [rev cur]
      end
  | String c s' =>
      if after_cr && Nat.eqb (code c) 10 then splitlines_aux false cur s'
      else if is_linebreak c
      then rev cur :: splitlines_aux (Nat.eqb (code c) 13) "" s'
      else splitlines_aux false (String c cur) s'
  end.
Definition splitlines (s : string) : list string := splitlines_aux false "" s.

End Py.

(** ** The regular expressions of the module [re]

    Every pattern of the program is a sequence of literal characters,
    character classes, repeated character classes (greedy [c+], [c*] and
    lazy [c+?], [c*?]), group parentheses, the anchors [^] and [$] and the
    word boundary [\b]. [rmatch] is the backtracking matcher of [re] on
    such sequences: alternatives are tried in the order [re] tries them and
    the first success is returned. *)

Module Re.

Inductive item : Type :=
| Chr (c : ascii)                       (* a literal character *)
| Cls (cs : ascii -> bool)              (* one character of a class *)
| Rep (greedy : bool) (min : nat) (cs : ascii -> bool)
                                        (* at least [min] characters of a class *)
| GOpen (n : nat)                       (* opening parenthesis of group [n] *)
| GClose (n : nat)                      (* closing parenthesis of group [n] *)
| Bol                                   (* ^ *)
| Eol                                   (* $ *)
| WordB.                                (* \b *)

Definition pattern : Type := list item.

(** The literal text [s] *)
Fixpoint lit (s : string) : pattern :=
  match s with
  | EmptyString => []
  | String c s' => Chr c :: lit s'
  end.

(** The classes of the patterns *)
Definition dot (c : ascii) : bool := negb (Nat.eqb (Py.code c) 10).       (* . *)
Definition space (c : ascii) : bool := Py.isspace c.                      (* \s *)
Definition word (c : ascii) : bool := Py.is_word c.                       (* \w *)
Definition not_rparen (c : ascii) : bool := negb (Ascii.eqb c ")").       (* [^)] *)
Definition alpha_ (c : ascii) : bool :=                                   (* [A-Za-z_] *)
  Py.is_upper_az c || Py.is_lower_az c || Py.is_underscore c.
Definition alnum_ (c : ascii) : bool :=                                   (* [A-Za-z0-9_] *)
  Py.is_upper_az c || Py.is_lower_az c || Py.is_digit09 c || Py.is_underscore c.
Definition upper_ (c : ascii) : bool :=                                   (* [A-Z_] *)
  Py.is_upper_az c || Py.is_underscore c.
Definition upnum_ (c : ascii) : bool :=                                   (* [A-Z0-9_] *)
  Py.is_upper_az c || Py.is_digit09 c || Py.is_underscore c.

(** The groups of a match: the text of group [n] is [group n caps]. *)
Definition captures : Type := list (nat * string).

Fixpoint lookup (n : nat) (l : captures) : option string :=
  match l with
  | [] => None
  | (k, v) :: l' => if Nat.eqb k n then Some v else lookup n l'
  end.

Definition group (n : nat) (caps : captures) : string :=
  match lookup n caps with
  | Some v => v
  | None => EmptyString
  end.

Definition is_word_opt (c : option ascii) : bool :=
  match c with
  | Some a => Py.is_word a
  | None => false
  end.

Definition head_char (s : string) : option ascii :=
  match s with
  | EmptyString => None
  | String a _ => Some a
  end.

Definition at_eol (s : string) : bool :=
  match s with
  | EmptyString => true
  | String a EmptyString => Nat.eqb (Py.code a) 10
  | _ => false
  end.

(** The result of a match: the groups and the text that remains after it. *)
Definition outcome : Type := option (captures * string).

(** A greedy repetition [cs{min,}] followed by the rest of the pattern [k]:
    [n] characters are already taken; the longest run is tried first. *)
Fixpoint greedy_loop (k : option ascii -> string -> outcome) (min : nat)
  (cs : ascii -> bool) (n : nat) (prev : option ascii) (s : string) : outcome :=
  match s with
  | String a s' =>
      if cs a then
        match greedy_loop k min cs (S n) (Some a) s' with
        | Some r => Some r
        | None => if Nat.leb min n then k prev s else None
        end
      else if Nat.leb min n then k prev s else None
  | EmptyString => if Nat.leb min n then k prev s else None
  end.

(** A lazy repetition [cs{min,}?] followed by [k]: the shortest run is
    tried first. *)
Fixpoint lazy_loop (k : option ascii -> string -> outcome) (min : nat)
  (cs : ascii -> bool) (n : nat) (prev : option ascii) (s : string) : outcome :=
  match (if Nat.leb min n then k prev s else None) with
  | Some r => Some r
  | None =>
      match s with
      | String a s' => if cs a then lazy_loop k min cs (S n) (Some a) s' else None
      | EmptyString => None
      end
  end.

(** [rmatch p prev s opens caps]: match [p] at the position whose
    preceding character is [prev] ([None] at the start of the text) and
    whose remaining text is [s]. [opens] holds, for each group already
    opened, the text that remained when it was opened. *)
Fixpoint rmatch (p : pattern) (prev : option ascii) (s : string)
  (opens caps : captures) {struct p} : outcome :=
  match p with
  | [] => Some (caps, s)
  | Chr c :: p' =>
      match s with
      | String a s' => if Ascii.eqb a c then rmatch p' (Some a) s' opens caps else None
      | EmptyString => None
      end
  | Cls cs :: p' =>
      match s with
      | String a s' => if cs a then rmatch p' (Some a) s' opens caps else None
      | EmptyString => None
      end
  | Rep true min cs :: p' =>
      greedy_loop (fun prev s => rmatch p' prev s opens caps) min cs O prev s
  | Rep false min cs :: p' =>
      lazy_loop (fun prev s => rmatch p' prev s opens caps) min cs O prev s
  | GOpen n :: p' => rmatch p' prev s ((n, s) :: opens) caps
  | GClose n :: p' =>
      match lookup n opens with
      | Some s0 =>
          rmatch p' prev s opens
            ((n, Py.take (String.length s0 - String.length s) s0) :: caps)
      | None => None
      end
  | Bol :: p' =>
      match prev with
      | None => rmatch p' prev s opens caps
      | Some _ => None
      end
  | Eol :: p' => if at_eol s then rmatch p' prev s opens caps else None
  | WordB :: p' =>
      if xorb (is_word_opt prev) (is_word_opt (head_char s))
      then rmatch p' prev s opens caps else None
  end.

(** [pattern.match(s)]: a match at the start of [s]; the groups. *)
Definition match_ (p : pattern) (s : string) : option captures :=
  match rmatch p None s [] [] with
  | Some (caps, _) => Some caps
  | None => None
  end.

(** [re.search(p, s)] as a truth value: a match at some position of [s]. *)
Fixpoint search_from (p : pattern) (prev : option ascii) (s : string) : bool :=
  match rmatch p prev s [] [] with
  | Some _ => true
  | None =>
      match s with
      | EmptyString => false
      | String a s' => search_from p (Some a) s'
      end
  end.
Definition search (p : pattern) (s : string) : bool := search_from p None s.

(** [re.sub(p, repl, s)] for a pattern that matches no empty text: the
    matches are taken from left to right and do not overlap; [repl]
    receives the groups and the matched text. [skip] counts the characters
    of a match still to be passed over. *)
Fixpoint sub_aux (p : pattern) (repl : captures -> string -> string)
  (skip : nat) (prev : option ascii) (s : string) : string :=
  match s with
  | EmptyString => EmptyString
  | String c s' =>
      match skip with
      | S k => sub_aux p repl k (Some c) s'
      | O =>
          match rmatch p prev s [] [] with
          | Some (caps, rest) =>
              let n := (String.length s - String.length rest)%nat in
              match n with
              | O => String c (sub_aux p repl O (Some c) s')
              | S k => repl caps (Py.take n s) ++ sub_aux p repl k (Some c) s'
              end
          | None => String c (sub_aux p repl O (Some c) s')
          end
      end
  end.
Definition sub (p : pattern) (repl : captures -> string -> string) (s : string)
  : string := sub_aux p repl O None s.

End Re.

(** ** The state of a [DSLConverter] *)

(** The tags of [block_types]. *)
Inductive block_kind : Type :=
| BFunction | BAnonFn | BWith | BIf | BElif | BElse
| BFor | BForeach | BDo | BWhile | BSwitch | BBlock.

(** The tags of [current_match_type]. *)
Inductive match_type : Type := MAssignment | MReturn.

(** An element of [match_cases]: the dictionary with the keys ['values']
    and ['result']. *)
Record match_case : Type := MkCase {
  case_values : list string;
  case_result : string
}.

(** The attributes that [__init__] sets. [block_handlers] is the constant
    table [handlers] below. A Python [set] of names is a list used through
    membership only; the dictionary [with_vars] is an association list whose
    first binding of a key is the current one. *)
Record DSLConverter : Type := MkConverter {
  block_types : list block_kind;
  known_vars : list string;
  known_constants : list string;
  indent_stack : list Z;
  do_while_pending : bool;
  switch_pending : bool;
  case_pending : bool;
  php_lines : list string;
  current_match_var : option string;
  match_cases : list match_case;
  in_function : bool;
  in_anon_fn : bool;
  with_vars : list (Z * (Z * string));
  current_match_type : option match_type;
  current_match_dest : option string
}.

Definition __init__ : DSLConverter :=
  {| block_types := [];
     known_vars := [];
     known_constants := [];
     indent_stack := [0];
     do_while_pending := false;
     switch_pending := false;
     case_pending := false;
     php_lines := [];
     current_match_var := None;
     match_cases := [];
     in_function := false;
     in_anon_fn := false;
     with_vars := [];
     current_match_type := None;
     current_match_dest := None |}.

(** Attribute assignments *)

Definition set_block_types (v : list block_kind) (s : DSLConverter) :=
  MkConverter v (known_vars s) (known_constants s) (indent_stack s)
    (do_while_pending s) (switch_pending s) (case_pending s) (php_lines s)
    (current_match_var s) (match_cases s) (in_function s) (in_anon_fn s)
    (with_vars s) (current_match_type s) (current_match_dest s).

Definition set_known_vars (v : list string) (s : DSLConverter) :=
  MkConverter (block_types s) v (known_constants s) (indent_stack s)
    (do_while_pending s) (switch_pending s) (case_pending s) (php_lines s)
    (current_match_var s) (match_cases s) (in_function s) (in_anon_fn s)
    (with_vars s) (current_match_type s) (current_match_dest s).

Definition set_known_constants (v : list string) (s : DSLConverter) :=
  MkConverter (block_types s) (known_vars s) v (indent_stack s)
    (do_while_pending s) (switch_pending s) (case_pending s) (php_lines s)
    (current_match_var s) (match_cases s) (in_function s) (in_anon_fn s)
    (with_vars s) (current_match_type s) (current_match_dest s).

Definition set_indent_stack (v : list Z) (s : DSLConverter) :=
  MkConverter (block_types s) (known_vars s) (known_constants s) v
    (do_while_pending s) (switch_pending s) (case_pending s) (php_lines s)
    (current_match_var s) (match_cases s) (in_function s) (in_anon_fn s)
    (with_vars s) (current_match_type s) (current_match_dest s).

Definition set_do_while_pending (v : bool) (s : DSLConverter) :=
  MkConverter (block_types s) (known_vars s) (known_constants s) (indent_stack s)
    v (switch_pending s) (case_pending s) (php_lines s)
    (current_match_var s) (match_cases s) (in_function s) (in_anon_fn s)
    (with_vars s) (current_match_type s) (current_match_dest s).

Definition set_switch_pending (v : bool) (s : DSLConverter) :=
  MkConverter (block_types s) (known_vars s) (known_constants s) (indent_stack s)
    (do_while_pending s) v (case_pending s) (php_lines s)
    (current_match_var s) (match_cases s) (in_function s) (in_anon_fn s)
    (with_vars s) (current_match_type s) (current_match_dest s).

Definition set_case_pending (v : bool) (s : DSLConverter) :=
  MkConverter (block_types s) (known_vars s) (known_constants s) (indent_stack s)
    (do_while_pending s) (switch_pending s) v (php_lines s)
    (current_match_var s) (match_cases s) (in_function s) (in_anon_fn s)
    (with_vars s) (current_match_type s) (current_match_dest s).

Definition set_php_lines (v : list string) (s : DSLConverter) :=
  MkConverter (block_types s) (known_vars s) (known_constants s) (indent_stack s)
    (do_while_pending s) (switch_pending s) (case_pending s) v
    (current_match_var s) (match_cases s) (in_function s) (in_anon_fn s)
    (with_vars s) (current_match_type s) (current_match_dest s).

Definition set_current_match_var (v : option string) (s : DSLConverter) :=
  MkConverter (block_types s) (known_vars s) (known_constants s) (indent_stack s)
    (do_while_pending s) (switch_pending s) (case_pending s) (php_lines s)
    v (match_cases s) (in_function s) (in_anon_fn s)
    (with_vars s) (current_match_type s) (current_match_dest s).

Definition set_match_cases (v : list match_case) (s : DSLConverter) :=
  MkConverter (block_types s) (known_vars s) (known_constants s) (indent_stack s)
    (do_while_pending s) (switch_pending s) (case_pending s) (php_lines s)
    (current_match_var s) v (in_function s) (in_anon_fn s)
    (with_vars s) (current_match_type s) (current_match_dest s).

Definition set_in_function (v : bool) (s : DSLConverter) :=
  MkConverter (block_types s) (known_vars s) (known_constants s) (indent_stack s)
    (do_while_pending s) (switch_pending s) (case_pending s) (php_lines s)
    (current_match_var s) (match_cases s) v (in_anon_fn s)
    (with_vars s) (current_match_type s) (current_match_dest s).

Definition set_in_anon_fn (v : bool) (s : DSLConverter) :=
  MkConverter (block_types s) (known_vars s) (known_constants s) (indent_stack s)
    (do_while_pending s) (switch_pending s) (case_pending s) (php_lines s)
    (current_match_var s) (match_cases s) (in_function s) v
    (with_vars s) (current_match_type s) (current_match_dest s).

Definition set_with_vars (v : list (Z * (Z * string))) (s : DSLConverter) :=
  MkConverter (block_types s) (known_vars s) (known_constants s) (indent_stack s)
    (do_while_pending s) (switch_pending s) (case_pending s) (php_lines s)
    (current_match_var s) (match_cases s) (in_function s) (in_anon_fn s)
    v (current_match_type s) (current_match_dest s).

Definition set_current_match_type (v : option match_type) (s : DSLConverter) :=
  MkConverter (block_types s) (known_vars s) (known_constants s) (indent_stack s)
    (do_while_pending s) (switch_pending s) (case_pending s) (php_lines s)
    (current_match_var s) (match_cases s) (in_function s) (in_anon_fn s)
    (with_vars s) v (current_match_dest s).

Definition set_current_match_dest (v : option string) (s : DSLConverter) :=
  MkConverter (block_types s) (known_vars s) (known_constants s) (indent_stack s)
    (do_while_pending s) (switch_pending s) (case_pending s) (php_lines s)
    (current_match_var s) (match_cases s) (in_function s) (in_anon_fn s)
    (with_vars s) (current_match_type s) v.

(** [self.php_lines.append(line)] *)
Definition emit (line : string) (self : DSLConverter) : DSLConverter :=
  set_php_lines (php_lines self ++ [line]) self.

(** [self.php_lines.extend(lines)] *)
Definition emit_all (lines : list string) (self : DSLConverter) : DSLConverter :=
  set_php_lines (php_lines self ++ lines) self.

(** [self.indent_stack.append(level); self.block_types.append(kind)] *)
Definition push_block (level : Z) (kind : block_kind) (self : DSLConverter)
  : DSLConverter :=
  set_block_types (kind :: block_types self)
    (set_indent_stack (level :: indent_stack self) self).

(** [name in names] *)
Definition mem (name : string) (names : list string) : bool :=
  existsb (String.eqb name) names.

(** [self.known_vars.add(name)], [self.known_constants.add(name)] *)
Definition add_var (name : string) (self : DSLConverter) : DSLConverter :=
  set_known_vars (name :: known_vars self) self.
Definition add_vars (names : list string) (self : DSLConverter) : DSLConverter :=
  fold_left (fun s n => add_var n s) names self.
Definition add_constant (name : string) (self : DSLConverter) : DSLConverter :=
  set_known_constants (name :: known_constants self) self.

(** [self.with_vars.get(level)] *)
Fixpoint with_vars_get (level : Z) (d : list (Z * (Z * string)))
  : option (Z * string) :=
  match d with
  | [] => None
  | (k, v) :: d' => if Z.eqb k level then Some v else with_vars_get level d'
  end.

(** The truth value of [self.current_match_var]: neither [None] nor empty. *)
Definition truthy (o : option string) : bool :=
  match o with
  | Some (String _ _) => true
  | _ => false
  end.

(** The text an f-string shows for an attribute that may be [None]. *)
Definition str_of (o : option string) : string :=
  match o with
  | Some s => s
  | None => "None"
  end.

(** ** The expression rewriter *)

Import Re.

Definition nonempty (s : string) : bool :=
  match s with
  | EmptyString => false
  | String _ _ => true
  end.

Definition snoc (s : string) (c : ascii) : string := s ++ String c "".

(** The literal segment [current] between double quotes, each double quote
    in it preceded by a backslash. *)
Definition quote_literal (current : string) : string :=
  Py.DQ ++ Py.replace Py.DQ ("\" ++ Py.DQ) current ++ Py.DQ.

(** The loop [for char in content] of [_convert_f_string]; [rv] is the
    method [_replace_vars]. The result is [(parts, current, in_placeholder)]
    after the last character. *)
Fixpoint f_string_loop (rv : string -> result string) (content : string)
  (parts : list string) (current : string) (in_placeholder : bool)
  : result (list string * string * bool) :=
  match content with
  | EmptyString => Ok (parts, current, in_placeholder)
  | String char rest =>
      if Ascii.eqb char "{" && negb in_placeholder then
        if nonempty current
        then f_string_loop rv rest (parts ++ [quote_literal current]) "" true
        else f_string_loop rv rest parts current true
      else if Ascii.eqb char "}" && in_placeholder then
        var_expr <- rv (Py.strip current) ;;
        f_string_loop rv rest (parts ++ [var_expr]) "" false
      else f_string_loop rv rest parts (snoc current char) in_placeholder
  end.

(** [_convert_f_string], with the method [_replace_vars] it calls as [rv]. *)
Definition _convert_f_string_with (rv : string -> result string) (s : string)
  : result string :=
  if Py.startswith ("f" ++ Py.DQ) s || Py.startswith "f'" s then
    let content := Py.drop_last (Py.drop 2 s) in
    st <- f_string_loop rv content [] "" false ;;
    let '(parts, current, in_placeholder) := st in
    parts <-
      (if nonempty current then
         if in_placeholder then
           var_expr <- rv (Py.strip current) ;; Ok (parts ++ [var_expr])%list
         else Ok (parts ++ [quote_literal current])%list
       else Ok parts) ;;
    if (1 <? Z.of_nat (length parts)) then Ok (Py.join " . " parts)
    else
      match parts with
      | p0 :: _ => Ok p0
      | [] => Raise IndexError
      end
  else Ok s.

(** [(\w+)\.split\s*\(([^)]+)\)], [(\w+)\.strip\s*\(\)] and
    [(\w+)\.append\s*\(([^)]+)\)] *)
Definition re_split : pattern :=
  ([GOpen 1; Rep true 1 word; GClose 1; Chr "."] ++ lit "split"
   ++ [Rep true 0 space; Chr "("; GOpen 2; Rep true 1 not_rparen; GClose 2; Chr ")"])%list.
Definition re_strip : pattern :=
  ([GOpen 1; Rep true 1 word; GClose 1; Chr "."] ++ lit "strip"
   ++ [Rep true 0 space; Chr "("; Chr ")"])%list.
Definition re_append : pattern :=
  ([GOpen 1; Rep true 1 word; GClose 1; Chr "."] ++ lit "append"
   ++ [Rep true 0 space; Chr "("; GOpen 2; Rep true 1 not_rparen; GClose 2; Chr ")"])%list.

(** [\b( [a-zA-Z_][a-zA-Z0-9_]* )\b] (in the comments of this file a
    pattern is written with a blank between a star and a closing
    parenthesis; the blank is not part of the pattern) *)
Definition re_identifier : pattern :=
  [WordB; GOpen 1; Cls alpha_; Rep true 0 alnum_; GClose 1; WordB].

(** The first six statements of [_replace_vars]: method calls and
    function names. *)
Definition rewrite_idioms (expr : string) : string :=
  let expr := Re.sub re_split
                (fun g _ => "explode(" ++ group 2 g ++ ", " ++ group 1 g ++ ")") expr in
  let expr := Re.sub re_strip (fun g _ => "trim(" ++ group 1 g ++ ")") expr in
  let expr := Re.sub re_append (fun g _ => group 1 g ++ "[] = " ++ group 2 g) expr in
  let expr := Py.replace "len(" "count(" expr in
  let expr := Py.replace "open(" "fopen(" expr in
  Py.replace "int(" "intval(" expr.

Definition is_quote (c : ascii) : bool := Ascii.eqb c Py.dquote || Ascii.eqb c "'".

(** The loop [for char in expr] of [_replace_vars] and the statement after
    it. [string_char] is [None] exactly when [in_string] is false. *)
Fixpoint split_quoted (expr : string) (parts : list string) (current : string)
  (string_char : option ascii) : list string :=
  match expr with
  | EmptyString => if nonempty current then parts ++ [current] else parts
  | String char rest =>
      match string_char with
      | Some q =>
          if is_quote char && Ascii.eqb q char
          then split_quoted rest (parts ++ [snoc current char]) "" None
          else split_quoted rest parts (snoc current char) string_char
      | None =>
          if is_quote char
          then split_quoted rest
                 (if nonempty current then parts ++ [current] else parts)
                 (String char "") (Some char)
          else split_quoted rest parts (snoc current char) None
      end
  end.

(** The [lambda m] that replaces an identifier. *)
Definition sigil (self : DSLConverter) (g : captures) (whole : string) : string :=
  let name := group 1 g in
  if mem name (known_vars self) && negb (mem name (known_constants self))
  then "$" ++ name
  else if mem name (known_constants self) then name
  else whole.

(** The six [replace] calls on a part that is no string literal. *)
Definition rewrite_keywords (part : string) : string :=
  let part := Py.replace "True" "true" part in
  let part := Py.replace "False" "false" part in
  let part := Py.replace "None" "null" part in
  let part := Py.replace " and " " && " part in
  let part := Py.replace " or " " || " part in
  Py.replace " not " " ! " part.

(** The body of the loop [for part in parts] of [_replace_vars]. *)
Definition rewrite_part (self : DSLConverter) (part : string) : string :=
  if (Py.startswith Py.DQ part && Py.endswith Py.DQ part)
     || (Py.startswith "'" part && Py.endswith "'" part)
  then part
  else rewrite_keywords (Re.sub re_identifier (sigil self) part).

(** [_replace_vars]. [depth] is the number of nested calls the interpreter
    still allows: an f-string inside a placeholder of an f-string makes
    [_replace_vars] call itself through [_convert_f_string], and the
    interpreter raises [RecursionError] when the calls nest too deep. *)
Fixpoint _replace_vars_at (depth : nat) (self : DSLConverter) (expr : string)
  : result string :=
  match depth with
  | O => Raise RecursionError
  | S depth' =>
      let expr := rewrite_idioms expr in
      if Py.startswith ("f" ++ Py.DQ) expr || Py.startswith "f'" expr
      then _convert_f_string_with (_replace_vars_at depth' self) expr
      else
        let expr := Py.replace ".." "." expr in
        let parts := split_quoted expr [] "" None in
        Ok (String.concat "" (map (rewrite_part self) parts))
  end.

(** The interpreter's default recursion limit. *)
Definition recursion_limit : nat := 1000.

Definition _replace_vars (self : DSLConverter) (expr : string) : result string :=
  _replace_vars_at recursion_limit self expr.

Definition _convert_f_string (self : DSLConverter) (s : string) : result string :=
  _convert_f_string_with (_replace_vars_at (pred recursion_limit) self) s.

(** ** The value converter *)

(** The loop [for p in parts] of the map-literal branch of
    [_convert_value]; [kv] is the list built so far. *)
Fixpoint map_entries (self : DSLConverter) (parts : list string) (kv : list string)
  : result (list string) :=
  match parts with
  | [] => Ok kv
  | p :: parts' =>
      if negb (Py.contains ":" p) then map_entries self parts' kv
      else
        let '(k, val) := Py.split1 ":" p in
        let key := Py.strip_char "'" (Py.strip_char Py.dquote (Py.strip k)) in
        v <- _replace_vars self (Py.strip val) ;;
        map_entries self parts' (kv ++ ["'" ++ key ++ "' => " ++ v])
  end.

Definition _convert_value (self : DSLConverter) (value : string) : result string :=
  let v := Py.strip value in
  if Py.startswith "[" v && Py.endswith "]" v then
    let parts := map Py.strip (Py.split "," (Py.drop_last (Py.drop 1 v))) in
    items <- mapM (_replace_vars self) parts ;;
    Ok ("[" ++ Py.join ", " items ++ "]")
  else if Py.startswith "{" v && Py.endswith "}" v then
    let parts := map Py.strip (Py.split "," (Py.drop_last (Py.drop 1 v))) in
    kv <- map_entries self parts [] ;;
    Ok ("[" ++ Py.join ", " kv ++ "]")
  else
    let low := Py.lower v in
    if String.eqb low "true" then Ok "true"
    else if String.eqb low "false" then Ok "false"
    else if Py.isdigit v then Ok v
    else _replace_vars self v.

(** ** The match accumulator and the block tracker *)

(** One line of the [match] expression for an element of [match_cases]. *)
Definition case_line (c : match_case) : string :=
  match case_values c with
  | [v] =>
      if String.eqb v "default"
      then "    " ++ "default => " ++ case_result c ++ ","
      else "    " ++ Py.join ", " (case_values c) ++ " => " ++ case_result c ++ ","
  | _ => "    " ++ Py.join ", " (case_values c) ++ " => " ++ case_result c ++ ","
  end.

Definition is_nil {A : Type} (l : list A) : bool :=
  match l with
  | [] => true
  | _ :: _ => false
  end.

Definition _finalize_match (self : DSLConverter) : DSLConverter :=
  if negb (truthy (current_match_var self)) || is_nil (match_cases self) then self
  else
    let indent := match indent_stack self with
                  | level :: _ => level
                  | [] => 0
                  end in
    let var := str_of (current_match_var self) in
    let expr_str :=
      if String.eqb (Py.lower var) "true" || String.eqb (Py.lower var) "false"
      then var else "$" ++ var in
    match current_match_type self with
    | None => self
    | Some t =>
        let first :=
          match t with
          | MAssignment =>
              "$" ++ str_of (current_match_dest self) ++ " = match (" ++ expr_str ++ ") {"
          | MReturn => "return match (" ++ expr_str ++ ") {"
          end in
        let lines := (first :: map case_line (match_cases self) ++ ["};"])%list in
        let self := emit_all (map (fun line => Py.spaces indent ++ line) lines) self in
        set_current_match_dest None
          (set_current_match_type None
             (set_match_cases [] (set_current_match_var None self)))
    end.

(** [if self.current_match_var: self._finalize_match()] *)
Definition finalize_if_open (self : DSLConverter) : DSLConverter :=
  if truthy (current_match_var self) then _finalize_match self else self.

(** [self.block_types.pop() if self.block_types else None] *)
Definition pop_block_type (self : DSLConverter) : option block_kind * DSLConverter :=
  match block_types self with
  | k :: rest => (Some k, set_block_types rest self)
  | [] => (None, self)
  end.

Definition is_do (k : option block_kind) : bool :=
  match k with
  | Some BDo => true
  | _ => false
  end.

(** The branches ['with'], ['anon_fn'], [case_pending], [switch_pending]
    and [else] of the closing chain; [_adjust_indent] and the end of
    [convert] have the same text for them. *)
Definition emit_closer (level : Z) (block_type : option block_kind)
  (self : DSLConverter) : DSLConverter :=
  match block_type with
  | Some BWith =>
      match with_vars_get level (with_vars self) with
      | Some (base_level, var_name) =>
          emit (Py.spaces base_level ++ "}")
            (emit (Py.spaces (base_level + 4) ++ "}")
               (emit (Py.spaces (base_level + 8) ++ "fclose($" ++ var_name ++ ");")
                  (emit (Py.spaces (base_level + 4) ++ "if (isset($" ++ var_name
                           ++ ") && is_resource($" ++ var_name ++ ")) {")
                     (emit (Py.spaces base_level ++ "} finally {") self))))
      | None => self
      end
  | Some BAnonFn => emit (Py.spaces level ++ "};") self
  | _ =>
      if case_pending self then
        emit (Py.spaces level ++ "}")
          (set_case_pending false (emit (Py.spaces level ++ "break;") self))
      else if switch_pending self then
        set_switch_pending false (emit (Py.spaces level ++ "}") self)
      else emit (Py.spaces level ++ "}") self
  end.

(** The loop of [_adjust_indent]; [stack] is [self.indent_stack]. *)
Fixpoint adjust_loop (stack : list Z) (indent : Z) (self : DSLConverter)
  : DSLConverter :=
  match stack with
  | [] => self
  | level :: rest =>
      if indent <? level then
        let self := set_indent_stack rest self in
        let '(block_type, self) := pop_block_type self in
        let self := finalize_if_open self in
        if is_do block_type && do_while_pending self
        then adjust_loop rest indent self
        else adjust_loop rest indent (emit_closer level block_type self)
      else self
  end.

Definition _adjust_indent (indent : Z) (self : DSLConverter) : DSLConverter :=
  adjust_loop (indent_stack self) indent self.

(** ** The actions of the line classifier *)

(** An action receives the groups of the match and the indentation of the
    line; it returns whether it handled the line. *)
Definition handler : Type :=
  captures -> Z -> DSLConverter -> result (bool * DSLConverter).

Definition done (self : DSLConverter) : result (bool * DSLConverter) :=
  Ok (true, self).

Definition _handle_import : handler := fun m indent self =>
  let filename := group 1 m in
  if Py.endswith ".ephp" filename then
    let php_file := Py.replace ".ephp" ".php" filename in
    done (emit (Py.spaces indent ++ "require_once " ++ Py.DQ ++ php_file ++ Py.DQ ++ ";") self)
  else
    done (emit (Py.spaces indent ++ "require_once " ++ Py.DQ ++ filename ++ Py.DQ ++ ";") self).

(** [return_type_map.get(t, t)] *)
Definition return_type_map_get (t : string) : string :=
  if String.eqb t "void" then "void"
  else if String.eqb t "int" then "int"
  else if String.eqb t "str" then "string"
  else if String.eqb t "bool" then "bool"
  else if String.eqb t "float" then "float"
  else t.

Definition list_to_array (t : string) : string :=
  if String.eqb t "list" then "array" else t.

(** The loop [for arg in args_str.split(',')] of [_handle_func]. *)
Fixpoint func_args (self : DSLConverter) (args : list string)
  (arg_parts arg_names : list string) : result (list string * list string) :=
  match args with
  | [] => Ok (arg_parts, arg_names)
  | arg :: rest =>
      let arg := Py.strip arg in
      if negb (nonempty arg) then func_args self rest arg_parts arg_names
      else if Py.contains "=" arg then
        let '(arg_name, default_val) := Py.split1 "=" arg in
        let arg_name := Py.strip arg_name in
        let default_val := Py.strip default_val in
        if Py.contains " " arg_name then
          let '(type_part, var_name) := Py.rsplit1 " " arg_name in
          let php_type := list_to_array (return_type_map_get type_part) in
          d <- _replace_vars self default_val ;;
          func_args self rest
            (arg_parts ++ [php_type ++ " $" ++ var_name ++ " = " ++ d])
            (arg_names ++ [var_name])
        else
          let arg_name := list_to_array arg_name in
          d <- _replace_vars self default_val ;;
          func_args self rest
            (arg_parts ++ ["$" ++ arg_name ++ " = " ++ d])
            (arg_names ++ [arg_name])
      else if Py.contains " " arg then
        let '(type_part, var_name) := Py.rsplit1 " " arg in
        let php_type := list_to_array (return_type_map_get type_part) in
        func_args self rest
          (arg_parts ++ [php_type ++ " $" ++ var_name]) (arg_names ++ [var_name])
      else
        let arg := list_to_array arg in
        func_args self rest (arg_parts ++ ["$" ++ arg]) (arg_names ++ [arg])
  end.

Definition _handle_func : handler := fun m indent self =>
  let name := group 1 m in
  let args_str := group 2 m in
  let return_type := group 3 m in
  let php_return_type := return_type_map_get return_type in
  r <- (if nonempty (Py.strip args_str)
        then func_args self (Py.split "," args_str) [] []
        else Ok ([], [])) ;;
  let '(arg_parts, arg_names) := r in
  let ph_args := Py.join ", " arg_parts in
  let self := emit (Py.spaces indent ++ "function " ++ name ++ "(" ++ ph_args
                      ++ "): " ++ php_return_type ++ " {") self in
  let self := push_block (indent + 4) BFunction self in
  done (add_vars arg_names self).

(** The loop [for arg in args.split(',')] of the two anonymous-function
    actions: the pair of [arg_parts] and [arg_names]. *)
Definition anon_arg (arg : string) : string * string :=
  let arg := Py.strip arg in
  if Py.contains " " arg then
    let '(type_part, arg_name) := Py.split1 " " arg in
    (type_part ++ " $" ++ arg_name, arg_name)
  else ("$" ++ arg, arg).

Definition anon_args (args : string) : list string * list string :=
  if nonempty (Py.strip args) then
    let l := map anon_arg (Py.split "," args) in
    (map fst l, map snd l)
  else ([], []).

Definition _handle_anon_fn_short : handler := fun m indent self =>
  let var_name := group 1 m in
  let args := group 2 m in
  let body := group 3 m in
  let '(arg_parts, arg_names) := anon_args args in
  let ph_args := Py.join ", " arg_parts in
  let body := if Py.startswith "return " body then Py.drop 7 body else body in
  let self := add_vars arg_names self in
  body <- _replace_vars self body ;;
  let self := emit (Py.spaces indent ++ "$" ++ var_name ++ " = fn(" ++ ph_args
                      ++ ") => " ++ body ++ ";") self in
  done (add_var var_name self).

Definition _handle_anon_fn_long : handler := fun m indent self =>
  let var_name := group 1 m in
  let args := group 2 m in
  let '(arg_parts, arg_names) := anon_args args in
  let ph_args := Py.join ", " arg_parts in
  let self := add_vars arg_names self in
  let self := emit (Py.spaces indent ++ "$" ++ var_name ++ " = function("
                      ++ ph_args ++ ") {") self in
  let self := push_block (indent + 4) BAnonFn self in
  done (add_var var_name self).

Definition _handle_with : handler := fun m indent self =>
  let expr := group 1 m in
  let var_name := group 2 m in
  php_expr <- _replace_vars self expr ;;
  let self := emit (Py.spaces indent ++ "$" ++ var_name ++ " = " ++ php_expr ++ ";") self in
  let self := emit (Py.spaces indent ++ "try {") self in
  let self := push_block (indent + 4) BWith self in
  let self := add_var var_name self in
  done (set_with_vars ((indent + 4, (indent, var_name)) :: with_vars self) self).

Definition _handle_match_assignment : handler := fun m indent self =>
  let var_name := group 1 m in
  let match_var := group 2 m in
  let self := set_current_match_dest (Some var_name) self in
  let self := set_current_match_type (Some MAssignment) self in
  let self := set_current_match_var (Some match_var) self in
  let self := set_match_cases [] self in
  done (add_var var_name self).

Definition _handle_match_return : handler := fun m indent self =>
  let match_var := group 1 m in
  let self := set_current_match_dest None self in
  let self := set_current_match_type (Some MReturn) self in
  let self := set_current_match_var (Some match_var) self in
  done (set_match_cases [] self).

(** The two nested loops of [_handle_case] over [values.split('or')] and
    [v.split('and')]. *)
Definition case_value_list (values : string) : list string :=
  flat_map (fun v => map Py.strip (Py.split "and" v)) (Py.split "or" values).

Definition _handle_case : handler := fun m indent self =>
  if negb (truthy (current_match_var self)) then Ok (false, self)
  else
    let values := group 1 m in
    let result := group 2 m in
    let value_list := case_value_list values in
    vs <- mapM (_replace_vars self) value_list ;;
    r <- _replace_vars self (Py.strip result) ;;
    done (set_match_cases (match_cases self ++ [MkCase vs r]) self).

Definition _handle_default : handler := fun m indent self =>
  if negb (truthy (current_match_var self)) then Ok (false, self)
  else
    let result := Py.strip (group 1 m) in
    r <- _replace_vars self result ;;
    done (set_match_cases (match_cases self ++ [MkCase ["default"] r]) self).

Definition _handle_input : handler := fun m indent self =>
  let var := group 1 m in
  let prompt := Py.strip_char "'" (Py.strip_char Py.dquote (Py.strip (group 2 m))) in
  let self := emit (Py.spaces indent ++ "$" ++ var ++ " = readline(" ++ Py.DQ
                      ++ prompt ++ Py.DQ ++ ");") self in
  done (add_var var self).

Definition _handle_ternary : handler := fun m indent self =>
  let var := group 1 m in
  let tv := group 2 m in
  let cond := group 3 m in
  let fv := group 4 m in
  let self := add_var var self in
  c <- _replace_vars self cond ;;
  t <- _replace_vars self tv ;;
  f <- _replace_vars self fv ;;
  done (emit (Py.spaces indent ++ "$" ++ var ++ " = (" ++ c ++ ") ? " ++ t
                ++ " : " ++ f ++ ";") self).

Definition _handle_constant : handler := fun m indent self =>
  let n := group 1 m in
  let v := group 2 m in
  php_v <- _replace_vars self v ;;
  let self := emit (Py.spaces indent ++ "define(" ++ Py.DQ ++ n ++ Py.DQ ++ ", "
                      ++ php_v ++ ");") self in
  done (add_constant n self).

Definition _handle_assignment : handler := fun m indent self =>
  let var := group 1 m in
  let val := group 2 m in
  let self := add_var var self in
  php_v <- _convert_value self val ;;
  done (emit (Py.spaces indent ++ "$" ++ var ++ " = " ++ php_v ++ ";") self).

Definition _handle_return : handler := fun m indent self =>
  r <- _replace_vars self (group 1 m) ;;
  done (emit (Py.spaces indent ++ "return " ++ r ++ ";") self).

Definition _handle_break : handler := fun m indent self =>
  done (emit (Py.spaces indent ++ "break;") self).

Definition _handle_continue : handler := fun m indent self =>
  done (emit (Py.spaces indent ++ "continue;") self).

Definition _handle_pass : handler := fun m indent self =>
  done (emit (Py.spaces indent ++ "// pass") self).

(** [\$[a-zA-Z_][a-zA-Z0-9_]*$] *)
Definition re_dollar_name : pattern :=
  [Chr "$"; Cls alpha_; Rep true 0 alnum_; Eol].

Definition _handle_print : handler := fun m indent self =>
  let content := group 1 m in
  let content :=
    if Re.search re_dollar_name content
    then "implode(" ++ Py.DQ ++ ", " ++ Py.DQ ++ ", " ++ content ++ ")"
    else content in
  r <- _replace_vars self content ;;
  done (emit (Py.spaces indent ++ "echo " ++ r ++ ";") self).

Definition _handle_if : handler := fun m indent self =>
  cond <- _replace_vars self (group 1 m) ;;
  let self := emit (Py.spaces indent ++ "if (" ++ cond ++ ") {") self in
  done (push_block (indent + 4) BIf self).

Definition _handle_elif : handler := fun m indent self =>
  cond <- _replace_vars self (group 1 m) ;;
  let self := emit (Py.spaces indent ++ "elseif (" ++ cond ++ ") {") self in
  done (push_block (indent + 4) BElif self).

Definition _handle_else : handler := fun m indent self =>
  let self := emit (Py.spaces indent ++ "else {") self in
  done (push_block (indent + 4) BElse self).

(** [args.split(',')] has at least one piece, so the first case of the
    match below is never taken. *)
Definition _handle_for_range : handler := fun m indent self =>
  let var := group 1 m in
  let args := group 2 m in
  let parts := map Py.strip (Py.split "," args) in
  let '(s, e, st) :=
    match parts with
    | [] => ("0", "", "1")
    | [p0] => ("0", p0, "1")
    | [p0; p1] => (p0, p1, "1")
    | p0 :: p1 :: p2 :: _ => (p0, p1, p2)
    end in
  s' <- _replace_vars self s ;;
  e' <- _replace_vars self e ;;
  st' <- _replace_vars self st ;;
  let for_line := "for ($" ++ var ++ " = " ++ s' ++ "; $" ++ var ++ " < " ++ e'
                    ++ "; $" ++ var ++ " += " ++ st' ++ ") {" in
  let self := emit (Py.spaces indent ++ for_line) self in
  let self := push_block (indent + 4) BFor self in
  done (add_var var self).

Definition _handle_foreach : handler := fun m indent self =>
  let var := group 1 m in
  let coll := group 2 m in
  let self := add_var var self in
  c <- _replace_vars self coll ;;
  let self := emit (Py.spaces indent ++ "foreach (" ++ c ++ " as $" ++ var ++ ") {") self in
  done (push_block (indent + 4) BForeach self).

Definition _handle_do : handler := fun m indent self =>
  let self := emit (Py.spaces indent ++ "do {") self in
  let self := push_block (indent + 4) BDo self in
  done (set_do_while_pending true self).

(** In the branch [if self.do_while_pending] the variable [lvl] is assigned
    only under [if self.indent_stack]; the next statement reads it. *)
Definition _handle_while : handler := fun m indent self =>
  let cond := Py.strip (group 1 m) in
  if do_while_pending self then
    match indent_stack self with
    | lvl :: rest =>
        let self := set_indent_stack rest self in
        let '(_, self) := pop_block_type self in
        c <- _replace_vars self cond ;;
        let self := emit (Py.spaces (lvl - 4) ++ "} while (" ++ c ++ ");") self in
        done (set_do_while_pending false self)
    | [] => Raise UnboundLocalError
    end
  else
    c <- _replace_vars self cond ;;
    let self := emit (Py.spaces indent ++ "while (" ++ c ++ ") {") self in
    done (push_block (indent + 4) BWhile self).

Definition _handle_switch : handler := fun m indent self =>
  c <- _replace_vars self (group 1 m) ;;
  let self := emit (Py.spaces indent ++ "switch (" ++ c ++ ") {") self in
  let self := push_block (indent + 4) BSwitch self in
  done (set_switch_pending true self).

Definition _handle_switch_case : handler := fun m indent self =>
  let self := if case_pending self
              then emit (Py.spaces (indent - 4) ++ "break;") self else self in
  c <- _replace_vars self (group 1 m) ;;
  let self := emit (Py.spaces indent ++ "case " ++ c ++ ":") self in
  done (set_case_pending true self).

Definition _handle_switch_default : handler := fun m indent self =>
  let self := if case_pending self
              then emit (Py.spaces (indent - 4) ++ "break;") self else self in
  let self := emit (Py.spaces indent ++ "default:") self in
  done (set_case_pending true self).

(** The pattern of [re.sub] in [_handle_function_call]: the letter f, a
    double quote, the group [(.+?)] and a double quote. *)
Definition re_fwrite_fstring : pattern :=
  [Chr "f"; Chr Py.dquote; GOpen 1; Rep false 1 dot; GClose 1; Chr Py.dquote].

Definition _handle_function_call : handler := fun m indent self =>
  let fn := group 1 m in
  let args := group 2 m in
  let args :=
    if String.eqb fn "fwrite"
    then Re.sub re_fwrite_fstring (fun g _ => Py.DQ ++ group 1 g ++ Py.DQ) args
    else args in
  a <- _replace_vars self args ;;
  done (emit (Py.spaces indent ++ fn ++ "(" ++ a ++ ");") self).

(** ** The table of [_register_handlers]

    Each pattern is given with the text it has in the source. *)

Definition sp0 : item := Rep true 0 space.     (* \s* *)
Definition sp1 : item := Rep true 1 space.     (* \s+ *)
Definition g_word (n : nat) : pattern := [GOpen n; Rep true 1 word; GClose n].       (* (\w+) *)
Definition g_any1 (n : nat) : pattern := [GOpen n; Rep true 1 dot; GClose n].        (* (.+) *)
Definition g_lazy1 (n : nat) : pattern := [GOpen n; Rep false 1 dot; GClose n].      (* (.+?) *)
Definition g_any0 (n : nat) : pattern := [GOpen n; Rep true 0 dot; GClose n].        (* (.* ) *)
Definition g_name (n : nat) : pattern :=          (* ([A-Za-z_][A-Za-z0-9_]* ) *)
  [GOpen n; Cls alpha_; Rep true 0 alnum_; GClose n].

Section Patterns.
Local Open Scope list_scope.

(* ^import\s+"(.+)"$ *)
Definition p_import : pattern :=
  [Bol] ++ lit "import" ++ [sp1; Chr Py.dquote] ++ g_any1 1 ++ [Chr Py.dquote; Eol].
(* ^func\s+(\w+)\s*\((.+?)\)\s*(\w* )\s*:$ *)
Definition p_func : pattern :=
  [Bol] ++ lit "func" ++ [sp1] ++ g_word 1 ++ [sp0; Chr "("] ++ g_lazy1 2
  ++ [Chr ")"; sp0; GOpen 3; Rep true 0 word; GClose 3; sp0; Chr ":"; Eol].
(* ^(\w+)\s*=\s*fn\s*\((.+?)\)\s*:\s*(.+)$ *)
Definition p_anon_fn_short : pattern :=
  [Bol] ++ g_word 1 ++ [sp0; Chr "="; sp0] ++ lit "fn" ++ [sp0; Chr "("]
  ++ g_lazy1 2 ++ [Chr ")"; sp0; Chr ":"; sp0] ++ g_any1 3 ++ [Eol].
(* ^(\w+)\s*=\s*fn\s*\((.+?)\)\s*:$ *)
Definition p_anon_fn_long : pattern :=
  [Bol] ++ g_word 1 ++ [sp0; Chr "="; sp0] ++ lit "fn" ++ [sp0; Chr "("]
  ++ g_lazy1 2 ++ [Chr ")"; sp0; Chr ":"; Eol].
(* ^with\s+(.+?)\s+as\s+(\w+)\s*:$ *)
Definition p_with : pattern :=
  [Bol] ++ lit "with" ++ [sp1] ++ g_lazy1 1 ++ [sp1] ++ lit "as" ++ [sp1]
  ++ g_word 2 ++ [sp0; Chr ":"; Eol].
(* ^(\w+)\s*=\s*match\s+(\w+)\s*:.*$ *)
Definition p_match_assignment : pattern :=
  [Bol] ++ g_word 1 ++ [sp0; Chr "="; sp0] ++ lit "match" ++ [sp1] ++ g_word 2
  ++ [sp0; Chr ":"; Rep true 0 dot; Eol].
(* ^return\s+match\s+(\w+)\s*:.*$ *)
Definition p_match_return : pattern :=
  [Bol] ++ lit "return" ++ [sp1] ++ lit "match" ++ [sp1] ++ g_word 1
  ++ [sp0; Chr ":"; Rep true 0 dot; Eol].
(* ^case\s+(.+?):\s*(.+)$ *)
Definition p_case : pattern :=
  [Bol] ++ lit "case" ++ [sp1] ++ g_lazy1 1 ++ [Chr ":"; sp0] ++ g_any1 2 ++ [Eol].
(* ^default:\s*(.+)$ *)
Definition p_default : pattern :=
  [Bol] ++ lit "default:" ++ [sp0] ++ g_any1 1 ++ [Eol].
(* ^([A-Za-z_][A-Za-z0-9_]* )\s*=\s*input\s*\((.* )\)$ *)
Definition p_input : pattern :=
  [Bol] ++ g_name 1 ++ [sp0; Chr "="; sp0] ++ lit "input" ++ [sp0; Chr "("]
  ++ g_any0 2 ++ [Chr ")"; Eol].
(* ^([A-Za-z_][A-Za-z0-9_]* )\s*=\s*(.+?)\s+if\s+(.+?)\s+else\s+(.+)$ *)
Definition p_ternary : pattern :=
  [Bol] ++ g_name 1 ++ [sp0; Chr "="; sp0] ++ g_lazy1 2 ++ [sp1] ++ lit "if"
  ++ [sp1] ++ g_lazy1 3 ++ [sp1] ++ lit "else" ++ [sp1] ++ g_any1 4 ++ [Eol].
(* ^do:$ *)
Definition p_do : pattern := [Bol] ++ lit "do:" ++ [Eol].
(* ^while\s+(.+):$ *)
Definition p_while_colon : pattern :=
  [Bol] ++ lit "while" ++ [sp1] ++ g_any1 1 ++ [Chr ":"; Eol].
(* ^while\s+(.+)$ *)
Definition p_while : pattern := [Bol] ++ lit "while" ++ [sp1] ++ g_any1 1 ++ [Eol].
(* ^([A-Z_][A-Z0-9_]* )\s*=\s*(.+)$ *)
Definition p_constant : pattern :=
  [Bol; GOpen 1; Cls upper_; Rep true 0 upnum_; GClose 1; sp0; Chr "="; sp0]
  ++ g_any1 2 ++ [Eol].
(* ^([a-zA-Z_][a-zA-Z0-9_]* )\s*=\s*(.+)$ *)
Definition p_assignment : pattern :=
  [Bol] ++ g_name 1 ++ [sp0; Chr "="; sp0] ++ g_any1 2 ++ [Eol].
(* ^return\s+(.+)$ *)
Definition p_return : pattern := [Bol] ++ lit "return" ++ [sp1] ++ g_any1 1 ++ [Eol].
(* ^break$, ^continue$, ^pass$ *)
Definition p_break : pattern := [Bol] ++ lit "break" ++ [Eol].
Definition p_continue : pattern := [Bol] ++ lit "continue" ++ [Eol].
Definition p_pass : pattern := [Bol] ++ lit "pass" ++ [Eol].
(* ^print\((.+)\)$ *)
Definition p_print : pattern :=
  [Bol] ++ lit "print(" ++ g_any1 1 ++ [Chr ")"; Eol].
(* ^if\s+(.+):$, ^elif\s+(.+):$, ^else:$ *)
Definition p_if : pattern := [Bol] ++ lit "if" ++ [sp1] ++ g_any1 1 ++ [Chr ":"; Eol].
Definition p_elif : pattern := [Bol] ++ lit "elif" ++ [sp1] ++ g_any1 1 ++ [Chr ":"; Eol].
Definition p_else : pattern := [Bol] ++ lit "else:" ++ [Eol].
(* ^for\s+(\w+)\s+in\s+range\((.*?)\):$ *)
Definition p_for_range : pattern :=
  [Bol] ++ lit "for" ++ [sp1] ++ g_word 1 ++ [sp1] ++ lit "in" ++ [sp1]
  ++ lit "range(" ++ [GOpen 2; Rep false 0 dot; GClose 2] ++ lit "):" ++ [Eol].
(* ^for\s+(\w+)\s+in\s+(.+):$ *)
Definition p_foreach : pattern :=
  [Bol] ++ lit "for" ++ [sp1] ++ g_word 1 ++ [sp1] ++ lit "in" ++ [sp1]
  ++ g_any1 2 ++ [Chr ":"; Eol].
(* ^switch\s+(.+):$ *)
Definition p_switch : pattern :=
  [Bol] ++ lit "switch" ++ [sp1] ++ g_any1 1 ++ [Chr ":"; Eol].
(* ^case\s+(.+):$ *)
Definition p_switch_case : pattern :=
  [Bol] ++ lit "case" ++ [sp1] ++ g_any1 1 ++ [Chr ":"; Eol].
(* ^default:$ *)
Definition p_switch_default : pattern := [Bol] ++ lit "default:" ++ [Eol].
(* ^(\w+)\((.* )\)$ *)
Definition p_function_call : pattern :=
  [Bol] ++ g_word 1 ++ [Chr "("] ++ g_any0 2 ++ [Chr ")"; Eol].

End Patterns.

Definition handlers : list (pattern * handler) :=
  [ (p_import, _handle_import);
    (p_func, _handle_func);
    (p_anon_fn_short, _handle_anon_fn_short);
    (p_anon_fn_long, _handle_anon_fn_long);
    (p_with, _handle_with);
    (p_match_assignment, _handle_match_assignment);
    (p_match_return, _handle_match_return);
    (p_case, _handle_case);
    (p_default, _handle_default);
    (p_input, _handle_input);
    (p_ternary, _handle_ternary);
    (p_do, _handle_do);
    (p_while_colon, _handle_while);
    (p_while, _handle_while);
    (p_constant, _handle_constant);
    (p_assignment, _handle_assignment);
    (p_return, _handle_return);
    (p_break, _handle_break);
    (p_continue, _handle_continue);
    (p_pass, _handle_pass);
    (p_print, _handle_print);
    (p_if, _handle_if);
    (p_elif, _handle_elif);
    (p_else, _handle_else);
    (p_for_range, _handle_for_range);
    (p_foreach, _handle_foreach);
    (p_switch, _handle_switch);
    (p_switch_case, _handle_switch_case);
    (p_switch_default, _handle_switch_default);
    (p_function_call, _handle_function_call) ].

(** ** The driver [convert] *)

(** The loop [for pattern, handler in self.block_handlers[0]]: the first
    pattern that matches decides; the result is [done]. *)
Fixpoint dispatch (hs : list (pattern * handler)) (text : string) (indent : Z)
  (self : DSLConverter) : result (bool * DSLConverter) :=
  match hs with
  | [] => Ok (false, self)
  | (p, h) :: hs' =>
      match Re.match_ p text with
      | Some m => h m indent self
      | None => dispatch hs' text indent self
      end
  end.

(** [len(line) - len(line.lstrip())] *)
Definition indent_of (line : string) : Z := Py.len line - Py.len (Py.lstrip line).

(** One iteration of the loop [while i < len(lines)] of [convert]. *)
Definition process_line (self : DSLConverter) (line : string) : result DSLConverter :=
  let raw := Py.rstrip line in
  let indent := indent_of line in
  let text := Py.strip raw in
  if negb (nonempty text) then Ok (emit "" self)
  else if Py.startswith "#" text then
    let comment := Py.strip (Py.drop 1 text) in
    Ok (emit (Py.spaces indent ++ "// " ++ comment) self)
  else
    let self := _adjust_indent indent self in
    r <- dispatch handlers text indent self ;;
    let '(done, self) := r in
    if done then Ok self
    else if Py.endswith ":" text then
      let self := emit (Py.spaces indent ++ Py.drop_last text ++ " {") self in
      Ok (push_block (indent + 4) BBlock self)
    else
      e <- _replace_vars self text ;;
      Ok (emit (Py.spaces indent ++ e ++ ";") self).

Fixpoint run_lines (lines : list string) (self : DSLConverter) : result DSLConverter :=
  match lines with
  | [] => Ok self
  | line :: rest => self' <- process_line self line ;; run_lines rest self'
  end.

(** The assignments at the start of [convert]. [switch_pending] and
    [case_pending] are not among them. *)
Definition reinit (self : DSLConverter) : DSLConverter :=
  {| php_lines := ["<?php"; "// Generated by DSL to PHP converter"];
     indent_stack := [0];
     block_types := [];
     do_while_pending := false;
     current_match_var := None;
     match_cases := [];
     in_function := false;
     in_anon_fn := false;
     with_vars := [];
     known_vars := [];
     known_constants := [];
     current_match_type := None;
     current_match_dest := None;
     switch_pending := switch_pending self;
     case_pending := case_pending self |}.

(** The loop [while len(self.indent_stack) > 1] at the end of [convert];
    [stack] is [self.indent_stack]. *)
Fixpoint flush_loop (stack : list Z) (self : DSLConverter) : DSLConverter :=
  match stack with
  | level :: ((_ :: _) as rest) =>
      let self := set_indent_stack rest self in
      let '(block_type, self) := pop_block_type self in
      let self := finalize_if_open self in
      if is_do block_type && do_while_pending self then
        flush_loop rest
          (set_do_while_pending false
             (emit (Py.spaces (level - 4) ++ "} while (false);") self))
      else flush_loop rest (emit_closer level block_type self)
  | _ => self
  end.

(** The statements of [convert] after the loop over the lines. *)
Definition finish (self : DSLConverter) : DSLConverter :=
  let self := finalize_if_open self in
  flush_loop (indent_stack self) self.

(** [convert]: the text it returns and the engine as it leaves it. *)
Definition convert (self : DSLConverter) (code : string)
  : result (string * DSLConverter) :=
  let self := reinit self in
  self <- run_lines (Py.splitlines code) self ;;
  let self := finish self in
  Ok (Py.join Py.LF (php_lines self), self).

(** The text [convert] returns. *)
Definition convert_text (self : DSLConverter) (code : string) : result string :=
  r <- convert self code ;; Ok (fst r).

(** A text from its lines, for examples. *)
Definition text_of (lines : list string) : string := Py.join Py.LF lines.

(** * Notions used to state the properties *)

(** The index, in the table [handlers], of the first pattern that matches
    [text]: the rule that classifies the line. *)
Fixpoint rule_from (i : nat) (hs : list (pattern * handler)) (text : string)
  : option nat :=
  match hs with
  | [] => None
  | (p, _) :: hs' =>
      match Re.match_ p text with
      | Some _ => Some i
      | None => rule_from (S i) hs' text
      end
  end.
Definition rule_of (text : string) : option nat := rule_from O handlers text.

(** The positions of the match-case rule and of the switch-case rule in
    the table. *)
Definition rule_case : nat := 7.
Definition rule_switch_case : nat := 27.

(** A stack, top first, is strictly increasing from its bottom to its top. *)
Fixpoint strictly_increasing (stack : list Z) : Prop :=
  match stack with
  | [] => True
  | top :: rest =>
      match rest with
      | [] => True
      | below :: _ => below < top
      end /\ strictly_increasing rest
  end.

(** The invariant of the indentation stack as the specification words it. *)
Definition claimed_stack_invariant (self : DSLConverter) : Prop :=
  strictly_increasing (indent_stack self)
  /\ In 0 (indent_stack self)
  /\ length (indent_stack self) = length (block_types self).

(** The invariant the engine keeps: the stack is strictly increasing and
    either it still ends with the root level 0 and is one longer than the
    stack of block kinds, or it has lost the root level, holds positive
    levels only and is as long as the stack of block kinds. *)
Definition stack_invariant (self : DSLConverter) : Prop :=
  strictly_increasing (indent_stack self)
  /\ ((exists above, indent_stack self = (above ++ [0])%list
                     /\ length above = length (block_types self)
                     /\ Forall (fun level => 0 < level) above)
      \/ (length (indent_stack self) = length (block_types self)
          /\ Forall (fun level => 0 < level) (indent_stack self))).

(** The accumulator of the example: the destination y, the discriminant x,
    the case with the values 1 and 2 and the result "a" (in double quotes),
    and the default case with the result "b". *)
Definition quoted (s : string) : string := Py.DQ ++ s ++ Py.DQ.

Definition example_accumulator (self : DSLConverter) : Prop :=
  current_match_var self = Some "x"
  /\ current_match_dest self = Some "y"
  /\ current_match_type self = Some MAssignment
  /\ match_cases self = [MkCase ["1"; "2"] (quoted "a"); MkCase ["default"] (quoted "b")].

Definition example_match_program : list string :=
  ["y = match x:"; "    case 1 or 2: " ++ quoted "a"; "    default: " ++ quoted "b"].

Definition example_match_output : list string :=
  ["$y = match ($x) {"; "    1, 2 => " ++ quoted "a" ++ ","; "    default => " ++ quoted "b" ++ ","; "};"].

Definition banner : list string := ["<?php"; "// Generated by DSL to PHP converter"].

(** What one action may do to the two stacks and to the resource map, on a
    line of indentation [indent]. *)
Inductive stack_step (indent : Z) (s s' : DSLConverter) : Prop :=
| step_same :
    indent_stack s' = indent_stack s ->
    block_types s' = block_types s ->
    with_vars s' = with_vars s ->
    stack_step indent s s'
| step_push (k : block_kind) :
    indent_stack s' = indent + 4 :: indent_stack s ->
    block_types s' = k :: block_types s ->
    with_vars s' = with_vars s ->
    k <> BWith ->
    stack_step indent s s'
| step_push_with (v : Z * string) :
    indent_stack s' = indent + 4 :: indent_stack s ->
    block_types s' = BWith :: block_types s ->
    with_vars s' = (indent + 4, v) :: with_vars s ->
    stack_step indent s s'
| step_pop (lvl : Z) (rest : list Z) :
    indent_stack s = lvl :: rest ->
    indent_stack s' = rest ->
    block_types s' = tl (block_types s) ->
    with_vars s' = with_vars s ->
    stack_step indent s s'.

(** Every resource-scope block on the stacks has its level in the
    resource map. *)
Definition with_registered (s : DSLConverter) : Prop :=
  Forall (fun lk => snd lk = BWith -> with_vars_get (fst lk) (with_vars s) <> None)
    (combine (indent_stack s) (block_types s)).

Definition engine_invariant (s : DSLConverter) : Prop :=
  stack_invariant s /\ with_registered s.

(** The top of the indentation stack does not exceed [indent]. *)
Definition top_le (indent : Z) (s : DSLConverter) : Prop :=
  match indent_stack s with
  | [] => True
  | top :: _ => top <= indent
  end.

(** An action changes the stacks by one [stack_step], and leaves the
    engine as it was when it declines the line. *)
Definition handler_ok (h : handler) : Prop :=
  forall m indent s b s',
    h m indent s = Ok (b, s') ->
    stack_step indent s s' /\ (b = false -> s' = s).


(** Nothing is left for the match finalizer to emit. *)
Definition match_idle (s : DSLConverter) : Prop :=
  truthy (current_match_var s) = false
  \/ match_cases s = []
  \/ current_match_type s = None.

(** The map-literal branch of the value converter as the specification
    words it: the elements are the pieces between commas, stripped; an
    element without a colon is dropped; each other element gives its key
    in single quotes and its rewritten value. *)
Definition map_elements (v : string) : list string :=
  map Py.strip (Py.split "," (Py.drop_last (Py.drop 1 v))).

Definition well_formed_entry (p : string) : bool := Py.contains ":" p.

Definition map_entry (self : DSLConverter) (p : string) : result string :=
  let '(k, val) := Py.split1 ":" p in
  let key := Py.strip_char "'" (Py.strip_char Py.dquote (Py.strip k)) in
  v <- _replace_vars self (Py.strip val) ;;
  Ok ("'" ++ key ++ "' => " ++ v).

Definition map_literal_spec (self : DSLConverter) (v : string) : result string :=
  kv <- mapM (map_entry self) (filter well_formed_entry (map_elements v)) ;;
  Ok ("[" ++ Py.join ", " kv ++ "]").

(** The tokens of a text: every maximal run of word characters, and every
    other character by itself. [cur] is the run being read. *)
Fixpoint tokens_aux (cur : string) (s : string) : list string :=
  match s with
  | EmptyString => if nonempty cur then [cur] else []
  | String c s' =>
      if Py.is_word c then tokens_aux (snoc cur c) s'
      else ((if nonempty cur then [cur] else []) ++ String c "" :: tokens_aux "" s')%list
  end.
Definition tokens (s : string) : list string := tokens_aux "" s.

(** A token is an identifier: a letter of a-z, A-Z or an underscore,
    followed by such letters, digits 0-9 and underscores only. *)
Definition is_identifier (tok : string) : bool :=
  match tok with
  | String c r => alpha_ c && Py.forallb_chars alnum_ r
  | EmptyString => false
  end.

(** The sigil rule of the specification, token by token: an identifier
    that is a known variable and no known constant gets the sigil; every
    other token, a known constant among them, stays as it is. *)
Definition sigil_token (vars consts : list string) (tok : string) : string :=
  if is_identifier tok && mem tok vars && negb (mem tok consts)
  then "$" ++ tok else tok.

Definition sigil_spec (vars consts : list string) (part : string) : string :=
  String.concat "" (map (sigil_token vars consts) (tokens part)).

(** A part of an expression is a string literal: it starts and ends with
    the same quote character. *)
Definition is_string_literal (part : string) : bool :=
  (Py.startswith Py.DQ part && Py.endswith Py.DQ part)
  || (Py.startswith "'" part && Py.endswith "'" part).

(** The identifiers of a line that stand outside its string literals. *)
Definition bare_identifiers (text : string) : list string :=
  filter is_identifier
    (flat_map tokens
       (filter (fun part => negb (is_string_literal part))
          (split_quoted text [] "" None))).

(** [sub in s] *)
Fixpoint occurs (sub s : string) : bool :=
  String.prefix sub s
  || match s with
     | EmptyString => false
     | String _ s' => occurs sub s'
     end.

(** The second half of C4 as the specification words it, for a line
    [text] and the output line [out] emitted for it. *)
Definition claimed_sigil_property (vars consts : list string) (text out : string)
  : Prop :=
  forall name,
    In name (bare_identifiers text) ->
    mem name vars = true ->
    mem name consts = false ->
    occurs ("$" ++ name) out = true.

(** The last character of [r], or [prev] when [r] is empty. *)
Fixpoint last_char (r : string) (prev : option ascii) : option ascii :=
  match r with
  | EmptyString => prev
  | String c r' => last_char r' (Some c)
  end.

(** * Further notions *)

(** The exceptions of the rewriter: a list index out of range and the
    recursion limit. *)
Definition benign (e : exn) : Prop := e = IndexError \/ e = RecursionError.

(** What an action may do to the sets of names and to the output: the
    names stay, the output grows at its end, and when the action pushes
    a block the last line it emits ends with an opening brace. *)
Definition handler_grows (h : handler) : Prop :=
  forall m indent s b s',
    h m indent s = Ok (b, s') ->
    incl (known_vars s) (known_vars s')
    /\ incl (known_constants s) (known_constants s')
    /\ exists added,
         php_lines s' = (php_lines s ++ added)%list
         /\ (length (indent_stack s') = S (length (indent_stack s)) ->
             exists init line,
               added = (init ++ [line])%list /\ Py.endswith "{" line = true).

(** What an action may raise, and what it does to [do_while_pending]
    when no do block is waiting for its while clause. *)
Definition handler_calm (h : handler) : Prop :=
  forall m indent s,
    do_while_pending s = false ->
    (forall e, h m indent s = Raise e -> benign e)
    /\ (forall b s', h m indent s = Ok (b, s') -> do_while_pending s' = false).

Definition calm_entry (ph : pattern * handler) : Prop :=
  (forall text, Py.startswith "do:" text = false -> Re.match_ (fst ph) text = None)
  \/ handler_calm (snd ph).

(** The position of the do rule in the table. *)
Definition rule_do : nat := 11.

(** The text between the quotes of an f-string, as [_convert_f_string]
    takes it: [s[2:-1]]. *)
Definition f_string_content (s : string) : string := Py.drop_last (Py.drop 2 s).

(** The five closing lines of a resource scope opened at indentation
    [base] for the variable [name]. *)
Definition finally_clause (base : Z) (name : string) : list string :=
  [ Py.spaces base ++ "} finally {";
    Py.spaces (base + 4) ++ "if (isset($" ++ name ++ ") && is_resource($" ++ name ++ ")) {";
    Py.spaces (base + 8) ++ "fclose($" ++ name ++ ");";
    Py.spaces (base + 4) ++ "}";
    Py.spaces base ++ "}" ].

(** The output line of a blank line or of a comment line. *)
Definition passthrough_line (line : string) : string :=
  if nonempty (Py.strip line)
  then Py.spaces (indent_of line) ++ "// " ++ Py.strip (Py.drop 1 (Py.strip line))
  else "".

Definition blank_or_comment (line : string) : Prop :=
  Py.strip line = "" \/ Py.startswith "#" (Py.strip line) = true.

(** Two engines know the same names: the sets [known_vars] and
    [known_constants] have the same members, in whatever order the lists
    of the embedding hold them. *)
Definition same_names (s t : DSLConverter) : Prop :=
  (forall n, mem n (known_vars s) = mem n (known_vars t))
  /\ (forall n, mem n (known_constants s) = mem n (known_constants t)).

(** ** The while clause and the levels of the indentation stack *)

(** The positions of the two while rules in the table. *)
Definition rule_while_colon : nat := 12.
Definition rule_while : nat := 13.

(** The line classifier gives the text to one of the two while rules. *)
Definition is_while_clause (text : string) : bool :=
  match rule_of text with
  | Some i => Nat.eqb i rule_while_colon || Nat.eqb i rule_while
  | None => false
  end.

(** The defect of the while action strikes at the root: [line] is a while
    clause, a do block waits for its while clause, and after
    [_adjust_indent] only the root level is left on the indentation stack,
    so that the [pop()] of [_handle_while] removes the root level. *)
Definition while_pops_root (s : DSLConverter) (line : string) : Prop :=
  is_while_clause (Py.strip line) = true
  /\ do_while_pending (_adjust_indent (indent_of line) s) = true
  /\ indent_stack (_adjust_indent (indent_of line) s) = [0].

(** An action never makes the indentation stack shorter. *)
Definition handler_keeps_levels (h : handler) : Prop :=
  forall m indent s b s',
    h m indent s = Ok (b, s') ->
    (length (indent_stack s) <= length (indent_stack s'))%nat.

(** ** The closing syntax of a block *)

(** The line with which the while clause of a do block closes the block
    whose level it pops. *)
Definition while_closer (level : Z) (cond : string) : string :=
  Py.spaces (level - 4) ++ "} while (" ++ cond ++ ");".




(** * Properties *)

(** ** Texts *)

Lemma append_empty_r (s : string) : s ++ "" = s.
Proof. induction s as [|c s IH]; simpl; [reflexivity | now rewrite IH]. Qed.

Lemma rev_onto_rev_onto (s acc acc' : string) :
  Py.rev_onto (Py.rev_onto s acc) acc' = Py.rev_onto acc (s ++ acc').
Proof.
  revert acc acc'. induction s as [|c s IH]; intros acc acc'; simpl.
  - reflexivity.
  - rewrite IH. reflexivity.
Qed.

Lemma rev_involutive (s : string) : Py.rev (Py.rev s) = s.
Proof. unfold Py.rev. rewrite rev_onto_rev_onto. simpl. apply append_empty_r. Qed.

Lemma drop_while_idempotent (p : ascii -> bool) (s : string) :
  Py.drop_while p (Py.drop_while p s) = Py.drop_while p s.
Proof.
  induction s as [|c s IH]; simpl; [reflexivity |].
  destruct (p c) eqn:E; [exact IH | simpl; now rewrite E].
Qed.

Lemma rstrip_idempotent (s : string) : Py.rstrip (Py.rstrip s) = Py.rstrip s.
Proof.
  unfold Py.rstrip. rewrite rev_involutive, drop_while_idempotent. reflexivity.
Qed.

Lemma strip_rstrip (s : string) : Py.strip (Py.rstrip s) = Py.strip s.
Proof. unfold Py.strip. now rewrite rstrip_idempotent. Qed.

Lemma length_drop_while (p : ascii -> bool) (s : string) :
  (String.length (Py.drop_while p s) <= String.length s)%nat.
Proof.
  induction s as [|c s IH]; simpl; [lia |].
  destruct (p c); simpl; lia.
Qed.

Lemma indent_of_nonneg (line : string) : 0 <= indent_of line.
Proof.
  unfold indent_of, Py.len, Py.lstrip.
  pose proof (length_drop_while Py.isspace line). lia.
Qed.

(** ** Blank lines and comment lines *)

(** C10: a line that is blank, or whose first character after the
    indentation is #, makes [convert] append exactly one output line (the
    empty line, or the comment after // at the indentation of the line) and
    changes nothing else: both stacks, both name sets, the match
    accumulator, the resource map and every pending flag stay as they
    were, whatever the indentation of the line, so no block is closed. *)
Theorem C10_blank_or_comment_line_frame (self : DSLConverter) (line : string) :
  Py.strip line = "" \/ Py.startswith "#" (Py.strip line) = true ->
  exists out st,
    process_line self line = Ok st
    /\ php_lines st = (php_lines self ++ [out])%list
    /\ (Py.strip line = "" -> out = "")
    /\ (Py.startswith "#" (Py.strip line) = true ->
        out = Py.spaces (indent_of line) ++ "// " ++ Py.strip (Py.drop 1 (Py.strip line)))
    /\ indent_stack st = indent_stack self
    /\ block_types st = block_types self
    /\ known_vars st = known_vars self
    /\ known_constants st = known_constants self
    /\ current_match_var st = current_match_var self
    /\ current_match_dest st = current_match_dest self
    /\ current_match_type st = current_match_type self
    /\ match_cases st = match_cases self
    /\ with_vars st = with_vars self
    /\ do_while_pending st = do_while_pending self
    /\ switch_pending st = switch_pending self
    /\ case_pending st = case_pending self.
Proof.
  intros H. unfold process_line. rewrite strip_rstrip.
  destruct H as [H | H].
  - rewrite H. simpl. exists "", (emit "" self).
    repeat split; try reflexivity. intros H'. discriminate H'.
  - destruct (Py.strip line) as [|c text] eqn:E; [discriminate H |].
    cbn [nonempty negb]. rewrite H.
    eexists _, (emit _ self). split; [reflexivity |].
    repeat split; try reflexivity. intros H'. discriminate H'.
Qed.

Lemma C10_blank_or_comment_line_frame_witness :
  exists out st,
    process_line (push_block 4 BIf __init__) "# note" = Ok st
    /\ php_lines st = (php_lines (push_block 4 BIf __init__) ++ [out])%list
    /\ out = "// note"
    /\ indent_stack st = [4; 0].
Proof.
  destruct (C10_blank_or_comment_line_frame (push_block 4 BIf __init__) "# note")
    as (out & st & H1 & H2 & _ & H4 & H5 & _).
  - right. reflexivity.
  - exists out, st. repeat split; try assumption.
    + apply H4. reflexivity.
Defined.

(** ** Exceptions that escape [convert] *)

(** Support for C1: an f-string with nothing between its quotes leaves
    [_convert_f_string] with an empty list [parts], whose element 0 it
    then reads. *)
Lemma convert_raises_on_empty_f_string :
  convert_text __init__ ("f" ++ Py.DQ ++ Py.DQ) = Raise IndexError.
Proof. vm_compute. reflexivity. Qed.

(** C1: [convert] is not total. On a text with two do/while loops at the
    root level the first [while] line removes the root level of the
    indentation stack; at the second [while] line the stack is empty, the
    guard [if self.indent_stack] skips the assignment of [lvl], and reading
    [lvl] raises [UnboundLocalError], which escapes [convert]. *)
Theorem C1_convert_raises_on_second_do_while :
  convert_text __init__ (text_of ["do:"; "while x"; "do:"; "while x"])
  = Raise UnboundLocalError.
Proof. vm_compute. reflexivity. Qed.

(** ** One engine used twice *)

(** The text [convert] returns depends on the engine it is called on only
    through the two flags its first statements do not assign. *)
Lemma reinit_depends_on_flags (s1 s2 : DSLConverter) :
  switch_pending s1 = switch_pending s2 ->
  case_pending s1 = case_pending s2 ->
  reinit s1 = reinit s2.
Proof. intros H1 H2. unfold reinit. now rewrite H1, H2. Qed.

Lemma convert_depends_on_flags (s1 s2 : DSLConverter) (code : string) :
  switch_pending s1 = switch_pending s2 ->
  case_pending s1 = case_pending s2 ->
  convert s1 code = convert s2 code.
Proof.
  intros H1 H2. unfold convert. now rewrite (reinit_depends_on_flags s1 s2 H1 H2).
Qed.

Lemma convert_depends_on_flags_witness :
  convert __init__ "x = 1" = convert (emit "left over" __init__) "x = 1".
Proof. apply convert_depends_on_flags; reflexivity. Defined.

(** C6: the second of two calls of [convert] on one engine and one text
    does not return the text the first call returned. The first call
    leaves [case_pending] set, the assignments at the start of [convert]
    do not clear it, and the second call emits a line [break;] that the
    first call did not emit. *)
Theorem C6_second_call_on_same_engine_differs :
  exists out1 engine1 out2 engine2,
    convert __init__ "case 1:" = Ok (out1, engine1)
    /\ convert engine1 "case 1:" = Ok (out2, engine2)
    /\ out1 = text_of (banner ++ ["case 1:"])
    /\ out2 = text_of (banner ++ ["break;"; "case 1:"])
    /\ out1 <> out2.
Proof.
  eexists _, _, _, _.
  split; [vm_compute; reflexivity |].
  split; [vm_compute; reflexivity |].
  split; [vm_compute; reflexivity |].
  split; [vm_compute; reflexivity |].
  vm_compute. discriminate.
Qed.

(** ** The match accumulator *)

Lemma finalize_match_noop (self : DSLConverter) :
  truthy (current_match_var self) = false \/ match_cases self = [] ->
  _finalize_match self = self.
Proof.
  intros [H | H]; unfold _finalize_match; rewrite H; simpl.
  - reflexivity.
  - now rewrite orb_true_r.
Qed.

Lemma finalize_example_accumulator (self : DSLConverter) :
  example_accumulator self ->
  let indent := match indent_stack self with
                | level :: _ => level
                | [] => 0
                end in
  php_lines (_finalize_match self)
  = (php_lines self ++ map (fun line => (Py.spaces indent ++ line)%string) example_match_output)%list
  /\ current_match_var (_finalize_match self) = None
  /\ match_cases (_finalize_match self) = [].
Proof.
  intros (Hv & Hd & Ht & Hc). unfold _finalize_match.
  rewrite Hv, Hd, Ht, Hc. cbn. repeat split.
Qed.

(** C7: the three lines that open a match as an assignment to y on the
    discriminant x, give the case [1 or 2] with the result "a" and give the
    default with the result "b" build the accumulator of the example;
    finalizing that accumulator appends, at the current indentation, the
    line [$y = match ($x) {], the case clause [1, 2 => "a",] with both
    values joined by a comma, the default clause [default => "b",] and the
    closing line, in the order the cases were given, and empties the
    accumulator; [convert] returns exactly these lines after its banner.
    Finalizing is a no-op when the accumulator has no discriminant or has
    no case. *)
Theorem C7_match_accumulator_finalized :
  (exists st, run_lines example_match_program (reinit __init__) = Ok st
              /\ example_accumulator st)
  /\ (forall self, example_accumulator self ->
        php_lines (_finalize_match self)
        = (php_lines self
           ++ map (fun line => (Py.spaces (hd 0 (indent_stack self)) ++ line)%string)
                example_match_output)%list
        /\ current_match_var (_finalize_match self) = None
        /\ match_cases (_finalize_match self) = [])
  /\ convert_text __init__ (text_of example_match_program)
     = Ok (text_of (banner ++ example_match_output))
  /\ (forall self,
        truthy (current_match_var self) = false \/ match_cases self = [] ->
        _finalize_match self = self).
Proof.
  split; [| split; [| split]].
  - eexists. split; [vm_compute; reflexivity |].
    repeat split.
  - intros self H. destruct (finalize_example_accumulator self H) as (H1 & H2 & H3).
    repeat split; assumption.
  - vm_compute. reflexivity.
  - exact finalize_match_noop.
Qed.

Lemma C7_match_accumulator_finalized_witness :
  _finalize_match __init__ = __init__
  /\ php_lines (_finalize_match
       (set_match_cases [MkCase ["1"; "2"] (quoted "a"); MkCase ["default"] (quoted "b")]
          (set_current_match_type (Some MAssignment)
             (set_current_match_dest (Some "y")
                (set_current_match_var (Some "x") __init__)))))
     = example_match_output.
Proof.
  destruct C7_match_accumulator_finalized as (_ & H2 & _ & H4).
  split.
  - apply H4. left. reflexivity.
  - match goal with |- php_lines (_finalize_match ?s) = _ =>
      destruct (H2 s) as (H & _)
    end.
    + repeat split.
    + rewrite H. reflexivity.
Defined.

(** ** The print action *)

(** An argument that holds no [$] is never wrapped: the test of the print
    action wants a [$] before the name. *)
Lemma search_dollar_name_needs_dollar (content : string) :
  forall prev,
    Py.contains "$" content = false ->
    Re.search_from re_dollar_name prev content = false.
Proof.
  induction content as [|a content IH]; intros prev H; [reflexivity |].
  cbn [Py.contains] in H. apply orb_false_iff in H. destruct H as [Ha Hc].
  cbn [Re.search_from re_dollar_name rmatch]. rewrite Ha. now apply IH.
Qed.

Lemma print_without_dollar_is_plain_echo
  (m : captures) (indent : Z) (self : DSLConverter) :
  Py.contains "$" (group 1 m) = false ->
  _handle_print m indent self
  = (r <- _replace_vars self (group 1 m) ;;
     done (emit (Py.spaces indent ++ "echo " ++ r ++ ";") self)).
Proof.
  intros H. unfold _handle_print, Re.search.
  now rewrite (search_dollar_name_needs_dollar _ None H).
Qed.

Lemma print_without_dollar_is_plain_echo_witness :
  _handle_print [(1%nat, "xs")] 0 (add_var "xs" __init__)
  = Ok (true, emit "echo $xs;" (add_var "xs" __init__)).
Proof.
  rewrite print_without_dollar_is_plain_echo by reflexivity.
  vm_compute. reflexivity.
Defined.

(** C8: the print action does not wrap a bare collection variable in a
    join call. It looks for a name after a [$] at the end of the raw
    argument, before the rewriter has put any [$] there, so for the line
    [print(xs)] with xs a known variable the output statement is
    [echo $xs;]. *)
Theorem C8_print_of_bare_variable_has_no_implode :
  convert_text __init__ (text_of ["xs = [1, 2]"; "print(xs)"])
  = Ok (text_of (banner ++ ["$xs = [1, 2];"; "echo $xs;"])).
Proof. vm_compute. reflexivity. Qed.

(** ** The indentation stack *)

Lemma add_vars_indent_stack (names : list string) (s : DSLConverter) :
  indent_stack (add_vars names s) = indent_stack s.
Proof.
  unfold add_vars. revert s. induction names as [|n names IH]; intros s; simpl;
    [reflexivity | now rewrite IH].
Qed.

Lemma add_vars_block_types (names : list string) (s : DSLConverter) :
  block_types (add_vars names s) = block_types s.
Proof.
  unfold add_vars. revert s. induction names as [|n names IH]; intros s; simpl;
    [reflexivity | now rewrite IH].
Qed.

Lemma add_vars_with_vars (names : list string) (s : DSLConverter) :
  with_vars (add_vars names s) = with_vars s.
Proof.
  unfold add_vars. revert s. induction names as [|n names IH]; intros s; simpl;
    [reflexivity | now rewrite IH].
Qed.

Lemma add_vars_php_lines (names : list string) (s : DSLConverter) :
  php_lines (add_vars names s) = php_lines s.
Proof.
  unfold add_vars. revert s. induction names as [|n names IH]; intros s; simpl;
    [reflexivity | now rewrite IH].
Qed.

Arguments add_vars : simpl never.

Ltac frame_rw :=
  simpl;
  rewrite ?add_vars_indent_stack, ?add_vars_block_types, ?add_vars_with_vars,
    ?add_vars_php_lines.

(** Take a successful action apart: every [bind], [if] and [match] on the
    way to its result. *)
Ltac run_handler H :=
  repeat
    (simpl in H;
     match type of H with
     | bind ?r _ = Ok _ => destruct r eqn:?; simpl in H; [| discriminate H]
     | (let '(_, _) := ?x in _) = Ok _ => destruct x eqn:?
     | (if ?c then _ else _) = Ok _ => destruct c eqn:?
     | match ?x with _ => _ end = Ok _ => destruct x eqn:?
     | Raise _ = Ok _ => discriminate H
     end).

Ltac step_done :=
  first
    [ apply step_same; frame_rw; reflexivity
    | eapply step_push;
      [ frame_rw; reflexivity .. | discriminate ]
    | eapply step_push_with; frame_rw; reflexivity
    | eapply step_pop;
      [ eassumption | frame_rw; simpl; try reflexivity ..] ].


Ltac handler_ok_tac h :=
  intros m indent s b s' H; unfold h, done in H; run_handler H;
  inversion H; subst; clear H;
  (split; [step_done | intros Hb; first [discriminate Hb | reflexivity]]).

Lemma _handle_import_ok : handler_ok _handle_import.
Proof. handler_ok_tac _handle_import. Qed.
Lemma _handle_func_ok : handler_ok _handle_func.
Proof. handler_ok_tac _handle_func. Qed.
Lemma _handle_anon_fn_short_ok : handler_ok _handle_anon_fn_short.
Proof. handler_ok_tac _handle_anon_fn_short. Qed.
Lemma _handle_anon_fn_long_ok : handler_ok _handle_anon_fn_long.
Proof. handler_ok_tac _handle_anon_fn_long. Qed.
Lemma _handle_with_ok : handler_ok _handle_with.
Proof. handler_ok_tac _handle_with. Qed.
Lemma _handle_match_assignment_ok : handler_ok _handle_match_assignment.
Proof. handler_ok_tac _handle_match_assignment. Qed.
Lemma _handle_match_return_ok : handler_ok _handle_match_return.
Proof. handler_ok_tac _handle_match_return. Qed.
Lemma _handle_case_ok : handler_ok _handle_case.
Proof. handler_ok_tac _handle_case. Qed.
Lemma _handle_default_ok : handler_ok _handle_default.
Proof. handler_ok_tac _handle_default. Qed.
Lemma _handle_input_ok : handler_ok _handle_input.
Proof. handler_ok_tac _handle_input. Qed.
Lemma _handle_ternary_ok : handler_ok _handle_ternary.
Proof. handler_ok_tac _handle_ternary. Qed.
Lemma _handle_do_ok : handler_ok _handle_do.
Proof. handler_ok_tac _handle_do. Qed.
Lemma _handle_while_ok : handler_ok _handle_while.
Proof.
  intros m indent s b s' H; unfold _handle_while, done, pop_block_type in H.
  run_handler H; inversion H; subst; clear H;
    (split; [| intros Hb; discriminate Hb]).
  - destruct (block_types s) eqn:Hb; inversion Heqp; subst; clear Heqp;
      (eapply step_pop; [eassumption | simpl; try reflexivity ..]);
      now rewrite Hb.
  - step_done.
Qed.
Lemma _handle_constant_ok : handler_ok _handle_constant.
Proof. handler_ok_tac _handle_constant. Qed.
Lemma _handle_assignment_ok : handler_ok _handle_assignment.
Proof. handler_ok_tac _handle_assignment. Qed.
Lemma _handle_return_ok : handler_ok _handle_return.
Proof. handler_ok_tac _handle_return. Qed.
Lemma _handle_break_ok : handler_ok _handle_break.
Proof. handler_ok_tac _handle_break. Qed.
Lemma _handle_continue_ok : handler_ok _handle_continue.
Proof. handler_ok_tac _handle_continue. Qed.
Lemma _handle_pass_ok : handler_ok _handle_pass.
Proof. handler_ok_tac _handle_pass. Qed.
Lemma _handle_print_ok : handler_ok _handle_print.
Proof. handler_ok_tac _handle_print. Qed.
Lemma _handle_if_ok : handler_ok _handle_if.
Proof. handler_ok_tac _handle_if. Qed.
Lemma _handle_elif_ok : handler_ok _handle_elif.
Proof. handler_ok_tac _handle_elif. Qed.
Lemma _handle_else_ok : handler_ok _handle_else.
Proof. handler_ok_tac _handle_else. Qed.
Lemma _handle_for_range_ok : handler_ok _handle_for_range.
Proof. handler_ok_tac _handle_for_range. Qed.
Lemma _handle_foreach_ok : handler_ok _handle_foreach.
Proof. handler_ok_tac _handle_foreach. Qed.
Lemma _handle_switch_ok : handler_ok _handle_switch.
Proof. handler_ok_tac _handle_switch. Qed.
Lemma _handle_switch_case_ok : handler_ok _handle_switch_case.
Proof.
  intros m indent s b s' H; unfold _handle_switch_case, done in H.
  destruct (case_pending s); run_handler H; inversion H; subst; clear H;
    (split; [step_done | intros Hb; discriminate Hb]).
Qed.
Lemma _handle_switch_default_ok : handler_ok _handle_switch_default.
Proof.
  intros m indent s b s' H; unfold _handle_switch_default, done in H.
  destruct (case_pending s); run_handler H; inversion H; subst; clear H;
    (split; [step_done | intros Hb; discriminate Hb]).
Qed.
Lemma _handle_function_call_ok : handler_ok _handle_function_call.
Proof. handler_ok_tac _handle_function_call. Qed.

Lemma handlers_ok : Forall (fun ph => handler_ok (snd ph)) handlers.
Proof.
  unfold handlers.
  repeat (apply Forall_cons; [simpl |]); try apply Forall_nil;
    auto using _handle_import_ok, _handle_func_ok, _handle_anon_fn_short_ok,
      _handle_anon_fn_long_ok, _handle_with_ok, _handle_match_assignment_ok,
      _handle_match_return_ok, _handle_case_ok, _handle_default_ok,
      _handle_input_ok, _handle_ternary_ok, _handle_do_ok, _handle_while_ok,
      _handle_constant_ok, _handle_assignment_ok, _handle_return_ok,
      _handle_break_ok, _handle_continue_ok, _handle_pass_ok, _handle_print_ok,
      _handle_if_ok, _handle_elif_ok, _handle_else_ok, _handle_for_range_ok,
      _handle_foreach_ok, _handle_switch_ok, _handle_switch_case_ok,
      _handle_switch_default_ok, _handle_function_call_ok.
Qed.

Lemma dispatch_ok (hs : list (pattern * handler)) (text : string) (indent : Z)
  (s s' : DSLConverter) (b : bool) :
  Forall (fun ph => handler_ok (snd ph)) hs ->
  dispatch hs text indent s = Ok (b, s') ->
  stack_step indent s s' /\ (b = false -> s' = s).
Proof.
  induction 1 as [|[p h] hs Hh Hhs IH]; simpl; intros H.
  - inversion H; subst. split; [now apply step_same | reflexivity].
  - destruct (match_ p text) as [m|]; [exact (Hh m indent s b s' H) | exact (IH H)].
Qed.

(** The match finalizer and the closing chain leave the stacks and the
    resource map alone. *)
Lemma finalize_match_frame (s : DSLConverter) :
  indent_stack (_finalize_match s) = indent_stack s
  /\ block_types (_finalize_match s) = block_types s
  /\ with_vars (_finalize_match s) = with_vars s
  /\ do_while_pending (_finalize_match s) = do_while_pending s.
Proof.
  unfold _finalize_match.
  destruct (negb (truthy (current_match_var s)) || is_nil (match_cases s));
    [repeat split |].
  destruct (current_match_type s); repeat split.
Qed.

Lemma finalize_if_open_frame (s : DSLConverter) :
  indent_stack (finalize_if_open s) = indent_stack s
  /\ block_types (finalize_if_open s) = block_types s
  /\ with_vars (finalize_if_open s) = with_vars s
  /\ do_while_pending (finalize_if_open s) = do_while_pending s.
Proof.
  unfold finalize_if_open. destruct (truthy (current_match_var s));
    [apply finalize_match_frame | repeat split].
Qed.

Lemma emit_closer_frame (level : Z) (k : option block_kind) (s : DSLConverter) :
  indent_stack (emit_closer level k s) = indent_stack s
  /\ block_types (emit_closer level k s) = block_types s
  /\ with_vars (emit_closer level k s) = with_vars s
  /\ do_while_pending (emit_closer level k s) = do_while_pending s.
Proof.
  unfold emit_closer.
  destruct k as [[]|]; try destruct (with_vars_get level (with_vars s)) as [[? ?]|];
    try destruct (case_pending s); try destruct (switch_pending s); repeat split.
Qed.

Lemma strictly_increasing_tail (top : Z) (rest : list Z) :
  strictly_increasing (top :: rest) -> strictly_increasing rest.
Proof. intros [_ H]. exact H. Qed.

Lemma with_vars_get_cons (k level : Z) (v : Z * string) (d : list (Z * (Z * string))) :
  with_vars_get level d <> None -> with_vars_get level ((k, v) :: d) <> None.
Proof. intros H. simpl. destruct (k =? level); [discriminate | exact H]. Qed.

(** Removing the top of the indentation stack, and the top of the stack
    of block kinds when there is one, keeps the invariant. *)
Lemma pop_preserves (s s' : DSLConverter) (lvl : Z) (rest : list Z) :
  engine_invariant s ->
  indent_stack s = lvl :: rest ->
  indent_stack s' = rest ->
  block_types s' = tl (block_types s) ->
  with_vars s' = with_vars s ->
  engine_invariant s'.
Proof.
  intros [[Hinc Hshape] Hreg] Hs Hi Hb Hw.
  unfold engine_invariant, stack_invariant, with_registered.
  rewrite Hi, Hb, Hw. rewrite Hs in Hinc, Hshape. split; [split |].
  - eapply strictly_increasing_tail; eassumption.
  - destruct Hshape as [(above & Habove & Hlen & Hpos) | [Hlen Hpos]].
    + destruct above as [|a above]; simpl in Habove; inversion Habove; subst.
      * right. destruct (block_types s); [| discriminate Hlen].
        split; [reflexivity | constructor].
      * left. exists above. destruct (block_types s) as [|k ks]; [discriminate Hlen |].
        simpl in *. repeat split; [lia | now inversion Hpos].
    + right. destruct (block_types s) as [|k ks]; [discriminate Hlen |].
      simpl in *. split; [lia | now inversion Hpos].
  - unfold with_registered in Hreg. rewrite Hs in Hreg.
    destruct (block_types s) as [|k ks]; simpl in *.
    + destruct rest; constructor.
    + now inversion Hreg.
Qed.

Lemma stack_step_preserves (indent : Z) (s s' : DSLConverter) :
  0 <= indent ->
  engine_invariant s ->
  top_le indent s ->
  stack_step indent s s' ->
  engine_invariant s'.
Proof.
  intros Hind Hinv Htop Hstep.
  assert (Hpush : forall k,
             indent_stack s' = indent + 4 :: indent_stack s ->
             block_types s' = k :: block_types s ->
             stack_invariant s').
  { intros k Hi Hb. destruct Hinv as [[Hinc Hshape] _].
    unfold stack_invariant. rewrite Hi, Hb. split.
    - simpl. split; [| exact Hinc].
      unfold top_le in Htop. destruct (indent_stack s); [exact I | lia].
    - destruct Hshape as [(above & Habove & Hlen & Hpos) | [Hlen Hpos]].
      + left. exists (indent + 4 :: above). rewrite Habove. simpl.
        repeat split; [lia | constructor; [lia | exact Hpos]].
      + right. simpl. split; [lia | constructor; [lia | exact Hpos]]. }
  destruct Hstep as [Hi Hb Hw | k Hi Hb Hw Hk | v Hi Hb Hw | lvl rest Hs Hi Hb Hw].
  - destruct Hinv as [Hst Hreg].
    unfold engine_invariant, stack_invariant, with_registered in *.
    rewrite Hi, Hb, Hw. split; assumption.
  - split; [now apply (Hpush k) |].
    destruct Hinv as [_ Hreg]. unfold with_registered in *.
    rewrite Hi, Hb, Hw. simpl. constructor; [intros Hk'; simpl in Hk'; contradiction | exact Hreg].
  - split; [now apply (Hpush BWith) |].
    destruct Hinv as [_ Hreg]. unfold with_registered in *.
    rewrite Hi, Hb, Hw. simpl. constructor.
    + intros _. simpl. rewrite Z.eqb_refl. discriminate.
    + eapply Forall_impl; [| exact Hreg].
      intros [l k] H Hk. apply with_vars_get_cons. exact (H Hk).
  - eapply pop_preserves; eassumption.
Qed.

Lemma adjust_loop_invariant (indent : Z) (stack : list Z) :
  forall s,
    indent_stack s = stack ->
    engine_invariant s ->
    engine_invariant (adjust_loop stack indent s)
    /\ top_le indent (adjust_loop stack indent s).
Proof.
  induction stack as [|level rest IH]; intros s Hs Hinv; simpl.
  - split; [exact Hinv | unfold top_le; now rewrite Hs].
  - destruct (indent <? level) eqn:Hlt.
    + unfold pop_block_type.
      assert (Hpop : forall s1 : DSLConverter,
                 indent_stack s1 = rest ->
                 block_types s1 = tl (block_types s) ->
                 with_vars s1 = with_vars s ->
                 engine_invariant (adjust_loop rest indent s1)
                 /\ top_le indent (adjust_loop rest indent s1)).
      { intros s1 H1 H2 H3. apply IH; [exact H1 |].
        eapply pop_preserves; eassumption. }
      cbn [block_types set_indent_stack].
      destruct (block_types s) as [|k ks] eqn:Hk; cbn [is_do andb tl] in *.
      * apply Hpop.
        -- destruct (emit_closer_frame level None
                       (finalize_if_open (set_indent_stack rest s))) as (E1 & _).
           destruct (finalize_if_open_frame (set_indent_stack rest s)) as (F1 & _).
           rewrite E1, F1. reflexivity.
        -- destruct (emit_closer_frame level None
                       (finalize_if_open (set_indent_stack rest s))) as (_ & E2 & _).
           destruct (finalize_if_open_frame (set_indent_stack rest s)) as (_ & F2 & _).
           rewrite E2, F2. simpl. exact Hk.
        -- destruct (emit_closer_frame level None
                       (finalize_if_open (set_indent_stack rest s))) as (_ & _ & E3 & _).
           destruct (finalize_if_open_frame (set_indent_stack rest s)) as (_ & _ & F3 & _).
           rewrite E3, F3. reflexivity.
      * set (s1 := finalize_if_open (set_block_types ks (set_indent_stack rest s))).
        destruct (finalize_if_open_frame (set_block_types ks (set_indent_stack rest s)))
          as (F1 & F2 & F3 & _). fold s1 in F1, F2, F3.
        destruct (emit_closer_frame level (Some k) s1) as (E1 & E2 & E3 & _).
        match goal with
        | |- context [if ?c then _ else _] => destruct c
        end; apply Hpop;
          rewrite ?E1, ?E2, ?E3, ?F1, ?F2, ?F3; reflexivity.
    + split; [exact Hinv |]. unfold top_le. rewrite Hs. lia.
Qed.

Lemma adjust_indent_invariant (indent : Z) (s : DSLConverter) :
  engine_invariant s ->
  engine_invariant (_adjust_indent indent s) /\ top_le indent (_adjust_indent indent s).
Proof. intros H. unfold _adjust_indent. now apply adjust_loop_invariant. Qed.

Lemma process_line_invariant (s s' : DSLConverter) (line : string) :
  engine_invariant s ->
  process_line s line = Ok s' ->
  engine_invariant s'.
Proof.
  intros Hinv H. unfold process_line in H.
  destruct (negb (nonempty (Py.strip (Py.rstrip line)))).
  { inversion H; subst. exact Hinv. }
  destruct (Py.startswith "#" (Py.strip (Py.rstrip line))).
  { inversion H; subst. exact Hinv. }
  destruct (adjust_indent_invariant (indent_of line) s Hinv) as [Hinv1 Htop].
  set (s1 := _adjust_indent (indent_of line) s) in *.
  destruct (dispatch handlers (Py.strip (Py.rstrip line)) (indent_of line) s1)
    as [[b s2]|] eqn:Hd; simpl in H; [| discriminate H].
  destruct (dispatch_ok _ _ _ _ _ _ handlers_ok Hd) as [Hstep Hdecl].
  pose proof (indent_of_nonneg line) as Hnn.
  destruct b.
  - inversion H; subst. eapply stack_step_preserves; eassumption.
  - rewrite (Hdecl eq_refl) in H.
    destruct (Py.endswith ":" (Py.strip (Py.rstrip line))).
    + inversion H; subst.
      apply (stack_step_preserves (indent_of line) s1); try assumption.
      eapply step_push; [reflexivity .. | discriminate].
    + destruct (_replace_vars s1 (Py.strip (Py.rstrip line))); simpl in H;
        [| discriminate H].
      inversion H; subst. exact Hinv1.
Qed.

Lemma run_lines_invariant (lines : list string) :
  forall s s',
    engine_invariant s ->
    run_lines lines s = Ok s' ->
    engine_invariant s'.
Proof.
  induction lines as [|line lines IH]; intros s s' Hinv H; simpl in H.
  - inversion H; subst. exact Hinv.
  - destruct (process_line s line) as [s1|] eqn:Hp; simpl in H; [| discriminate H].
    eapply IH; [| exact H]. eapply process_line_invariant; eassumption.
Qed.

Lemma reinit_invariant (s : DSLConverter) : engine_invariant (reinit s).
Proof.
  split.
  - split; [simpl; auto |]. left. exists []. simpl. repeat split. constructor.
  - constructor.
Qed.

(** C2, as the specification words it, fails twice: before any line is
    processed the indentation stack has one element and the stack of block
    kinds has none; after a do block and its while clause at the root
    level the indentation stack is empty and so does not hold the root
    level 0. *)
Lemma C2_claimed_invariant_fails :
  (exists s, run_lines (firstn 0 (Py.splitlines (text_of ["do:"; "while x"])))
               (reinit __init__) = Ok s
             /\ length (indent_stack s) = 1%nat
             /\ length (block_types s) = 0%nat
             /\ ~ claimed_stack_invariant s)
  /\ (exists s, run_lines (firstn 2 (Py.splitlines (text_of ["do:"; "while x"])))
                  (reinit __init__) = Ok s
                /\ indent_stack s = []
                /\ ~ claimed_stack_invariant s).
Proof.
  split.
  - eexists. split; [vm_compute; reflexivity |].
    split; [reflexivity |]. split; [reflexivity |].
    intros (_ & _ & H). discriminate H.
  - eexists. split; [vm_compute; reflexivity |].
    split; [reflexivity |].
    intros (_ & H & _). exact H.
Qed.

(** ** The line classifier *)

Lemma dispatch_rule_from (hs : list (pattern * handler)) (text : string)
  (indent : Z) (self : DSLConverter) :
  forall i j,
    rule_from i hs text = Some j ->
    exists p h m,
      nth_error hs (j - i) = Some (p, h)
      /\ (i <= j)%nat
      /\ Re.match_ p text = Some m
      /\ dispatch hs text indent self = h m indent self.
Proof.
  induction hs as [|[p h] hs IH]; intros i j H; simpl in H; [discriminate H |].
  simpl. destruct (Re.match_ p text) as [m|] eqn:Hm.
  - inversion H; subst. exists p, h, m. rewrite Nat.sub_diag. repeat split; auto.
  - destruct (IH _ _ H) as (p' & h' & m' & Hn & Hle & Hm' & Hd).
    exists p', h', m'. repeat split; try assumption; [| lia].
    replace (j - i)%nat with (S (j - S i)) by lia. exact Hn.
Qed.

Lemma dispatch_unrecognized (hs : list (pattern * handler)) (text : string)
  (indent : Z) (self : DSLConverter) :
  forall i,
    rule_from i hs text = None ->
    dispatch hs text indent self = Ok (false, self).
Proof.
  induction hs as [|[p h] hs IH]; intros i H; simpl in *; [reflexivity |].
  destruct (Re.match_ p text); [discriminate H | eapply IH; exact H].
Qed.

Lemma dispatch_rule_case (text : string) (indent : Z) (self : DSLConverter) :
  rule_of text = Some rule_case ->
  exists m, Re.match_ p_case text = Some m
            /\ dispatch handlers text indent self = _handle_case m indent self.
Proof.
  intros H. unfold rule_of in H.
  destruct (dispatch_rule_from handlers text indent self _ _ H)
    as (p & h & m & Hn & _ & Hm & Hd).
  simpl in Hn. inversion Hn; subst. exists m. split; assumption.
Qed.

Lemma match_case_starts_with_case (text : string) (m : captures) :
  Re.match_ p_case text = Some m -> exists rest, text = "case" ++ rest.
Proof.
  unfold Re.match_.
  assert (E : p_case = Bol :: Chr "c" :: Chr "a" :: Chr "s" :: Chr "e" :: skipn 5 p_case)
    by reflexivity.
  rewrite E. cbn [rmatch].
  destruct text as [|c1 [|c2 [|c3 [|c4 rest]]]];
    repeat match goal with
      | |- context [Ascii.eqb ?a ?b] => destruct (Ascii.eqb_spec a b); [subst |]
      end; try discriminate.
  intros _. exists rest. reflexivity.
Qed.

(** Closing blocks does not open a match accumulator. *)
Lemma adjust_loop_keeps_match_closed (indent : Z) (stack : list Z) :
  forall s,
    truthy (current_match_var s) = false ->
    truthy (current_match_var (adjust_loop stack indent s)) = false.
Proof.
  induction stack as [|level rest IH]; intros s H; simpl; [exact H |].
  destruct (indent <? level); [| exact H].
  unfold pop_block_type, finalize_if_open.
  destruct (block_types (set_indent_stack rest s)) as [|k ks];
    cbn [current_match_var set_indent_stack set_block_types]; rewrite H.
  - apply IH. unfold emit_closer. cbn.
    destruct (case_pending s); [| destruct (switch_pending s)]; exact H.
  - match goal with
    | |- context [if ?c then _ else _] => destruct c
    end; apply IH; [exact H |].
    unfold emit_closer.
    destruct k; try destruct (with_vars_get _ _) as [[? ?]|]; cbn;
      try (destruct (case_pending s); [| destruct (switch_pending s)]); exact H.
Qed.

(** C3, as the engine does it: a line that the classifier gives to the
    match-case rule while no match accumulator is open is not rejected.
    The match-case action declines it, no later rule is tried (the
    switch-case rule is not reached), and the line goes through the
    fallback for unrecognized lines: after the blocks that its indentation
    ends are closed it is emitted as the statement made of the rewritten
    line and a semicolon, or, when it ends with a colon, as the opener of a
    generic block. The flag [case_pending] is not set by it. *)
Theorem C3_case_line_outside_match_goes_to_fallback
  (self : DSLConverter) (line : string) :
  truthy (current_match_var self) = false ->
  rule_of (Py.strip line) = Some rule_case ->
  let text := Py.strip line in
  let indent := indent_of line in
  let self1 := _adjust_indent indent self in
  process_line self line
  = (if Py.endswith ":" text
     then Ok (push_block (indent + 4) BBlock
                (emit (Py.spaces indent ++ Py.drop_last text ++ " {") self1))
     else e <- _replace_vars self1 text ;;
          Ok (emit (Py.spaces indent ++ e ++ ";") self1))
  /\ (forall s', process_line self line = Ok s' ->
                 case_pending s' = case_pending self1).
Proof.
  intros Hclosed Hrule text indent self1.
  assert (Heq : process_line self line
                = (if Py.endswith ":" text
                   then Ok (push_block (indent + 4) BBlock
                              (emit (Py.spaces indent ++ Py.drop_last text ++ " {") self1))
                   else e <- _replace_vars self1 text ;;
                        Ok (emit (Py.spaces indent ++ e ++ ";") self1))).
  { unfold process_line. rewrite strip_rstrip. fold text indent self1.
    destruct (dispatch_rule_case text indent self1 Hrule) as (m & Hm & Hd).
    destruct (match_case_starts_with_case text m Hm) as (rest & Htext).
    rewrite Hd. unfold _handle_case.
    assert (H1 : truthy (current_match_var self1) = false)
      by (apply adjust_loop_keeps_match_closed; exact Hclosed).
    rewrite H1. rewrite Htext. cbn [nonempty negb append Py.startswith prefix bind].
    reflexivity. }
  split; [exact Heq |].
  intros s' Hs'. rewrite Heq in Hs'.
  destruct (Py.endswith ":" text).
  - inversion Hs'; subst. reflexivity.
  - destruct (_replace_vars self1 text); simpl in Hs'; [| discriminate Hs'].
    inversion Hs'; subst. reflexivity.
Qed.

Lemma C3_case_line_outside_match_goes_to_fallback_witness :
  process_line (reinit __init__) ("case 1: " ++ quoted "a")
  = Ok (emit ("case 1: " ++ quoted "a" ++ ";") (reinit __init__)).
Proof.
  destruct (C3_case_line_outside_match_goes_to_fallback
              (reinit __init__) ("case 1: " ++ quoted "a")) as [H _].
  - reflexivity.
  - vm_compute. reflexivity.
  - rewrite H. vm_compute. reflexivity.
Defined.

(** C3, as the specification words it, fails: the line [case 1: "a"] met
    with no accumulator open is not emitted by the switch-case action. The
    pattern of that action does not even match the line; the output line
    is the statement [case 1: "a";] and [case_pending] stays false. A
    line that both patterns match, [case 1: x:], becomes the opener of a
    generic block, where the switch-case action would have emitted a case
    label and set [case_pending]. *)
Lemma C3_case_line_is_not_a_switch_case :
  (rule_of ("case 1: " ++ quoted "a") = Some rule_case
   /\ Re.match_ p_switch_case ("case 1: " ++ quoted "a") = None
   /\ exists s, process_line (reinit __init__) ("case 1: " ++ quoted "a") = Ok s
                /\ php_lines s = (banner ++ [("case 1: " ++ quoted "a" ++ ";")%string])%list
                /\ case_pending s = false)
  /\ (rule_of "case 1: x:" = Some rule_case
      /\ (exists m s, Re.match_ p_switch_case "case 1: x:" = Some m
                      /\ _handle_switch_case m 0 (reinit __init__) = Ok (true, s)
                      /\ php_lines s = (banner ++ ["case 1: x:"])%list
                      /\ case_pending s = true)
      /\ exists s, process_line (reinit __init__) "case 1: x:" = Ok s
                   /\ php_lines s = (banner ++ ["case 1: x {"])%list
                   /\ block_types s = [BBlock]
                   /\ case_pending s = false).
Proof.
  split; [split; [| split] | split; [| split]].
  - vm_compute. reflexivity.
  - vm_compute. reflexivity.
  - eexists. split; [vm_compute; reflexivity |]. split; reflexivity.
  - vm_compute. reflexivity.
  - eexists _, _. split; [vm_compute; reflexivity |].
    split; [vm_compute; reflexivity |]. split; reflexivity.
  - eexists. split; [vm_compute; reflexivity |]. repeat split.
Qed.

(** ** Map literals *)

Lemma mapM_ok_all {A B : Type} (f : A -> result B) (l : list A) :
  Forall (fun x => exists y, f x = Ok y) l -> exists ys, mapM f l = Ok ys.
Proof.
  induction 1 as [|x l [y Hy] _ [ys Hys]]; simpl.
  - exists []. reflexivity.
  - rewrite Hy. simpl. rewrite Hys. simpl. exists (y :: ys). reflexivity.
Qed.

Lemma startswith_char (a c : ascii) (v : string) :
  Py.startswith (String a "") (String c v) = true -> c = a.
Proof.
  unfold Py.startswith. cbn [prefix].
  destruct (ascii_dec a c); [auto | discriminate].
Qed.

Lemma startswith_same (a : ascii) (v : string) :
  Py.startswith (String a "") (String a v) = true.
Proof.
  unfold Py.startswith. cbn [prefix].
  destruct (ascii_dec a a); [destruct v; reflexivity | congruence].
Qed.

(** The loop of the map-literal branch is: drop the elements without a
    colon, convert the others in order, append to what was built. *)
Lemma map_entries_filter (self : DSLConverter) (parts : list string) :
  forall kv,
    map_entries self parts kv
    = (kv' <- mapM (map_entry self) (filter well_formed_entry parts) ;;
       Ok (kv ++ kv')%list).
Proof.
  induction parts as [|p parts IH]; intros kv; simpl.
  - now rewrite app_nil_r.
  - unfold well_formed_entry at 1. destruct (Py.contains ":" p); simpl.
    + unfold map_entry at 1. destruct (Py.split1 ":" p) as [k val].
      destruct (_replace_vars self (Py.strip val)) as [v|e]; simpl; [| reflexivity].
      rewrite IH.
      destruct (mapM (map_entry self) (filter well_formed_entry parts)); simpl;
        [| reflexivity].
      now rewrite <- app_assoc.
    + apply IH.
Qed.

(** C9: for a right-hand side that, stripped, starts with an opening brace
    and ends with a closing brace, the value converter splits the text
    between the braces at its commas (at every comma: the split knows no
    nesting), drops every element that holds no colon and keeps the others
    in order, each as its key in single quotes, an arrow and its rewritten
    value. The elements without a colon are never rewritten, so they cannot
    make the conversion fail: it succeeds whenever the rewriting of every
    element with a colon succeeds. The assignment action emits the result
    as the value of the variable. *)
Theorem C9_map_literal_drops_malformed_entries (self : DSLConverter) (value : string) :
  Py.startswith "{" (Py.strip value) = true ->
  Py.endswith "}" (Py.strip value) = true ->
  _convert_value self value = map_literal_spec self (Py.strip value)
  /\ (Forall (fun p => well_formed_entry p = true -> exists r, map_entry self p = Ok r)
        (map_elements (Py.strip value)) ->
      exists out, _convert_value self value = Ok out)
  /\ (forall m indent,
        group 2 m = value ->
        _handle_assignment m indent self
        = (php_v <- map_literal_spec (add_var (group 1 m) self) (Py.strip value) ;;
           done (emit (Py.spaces indent ++ "$" ++ group 1 m ++ " = " ++ php_v ++ ";")
                   (add_var (group 1 m) self)))).
Proof.
  intros Hopen Hclose.
  assert (Heq : forall s, _convert_value s value = map_literal_spec s (Py.strip value)).
  { intros s. unfold _convert_value, map_literal_spec.
    destruct (Py.strip value) as [|c v] eqn:Ev; rewrite ?Ev in Hopen, Hclose;
      [vm_compute in Hopen; discriminate Hopen |].
    apply startswith_char in Hopen. subst c.
    replace (Py.startswith "[" (String "{" v)) with false by reflexivity.
    rewrite startswith_same.
    rewrite Hclose. cbn [andb].
    fold (map_elements (String "{" v)).
    rewrite map_entries_filter.
    destruct (mapM (map_entry s) (filter well_formed_entry (map_elements (String "{" v))));
      reflexivity. }
  split; [apply Heq |]. split.
  - intros Hall. rewrite Heq. unfold map_literal_spec.
    destruct (mapM_ok_all (map_entry self)
                (filter well_formed_entry (map_elements (Py.strip value)))) as [kv Hkv].
    + rewrite Forall_forall in *. intros p Hp. apply filter_In in Hp.
      destruct Hp as [Hin Hwf]. exact (Hall p Hin Hwf).
    + rewrite Hkv. simpl. eexists. reflexivity.
  - intros m indent Hm. unfold _handle_assignment. rewrite Hm, Heq. reflexivity.
Qed.

Lemma C9_map_literal_drops_malformed_entries_witness :
  _convert_value (add_var "n" __init__) "{a: 1, oops, 'b': n}"
  = Ok "['a' => 1, 'b' => $n]".
Proof.
  destruct (C9_map_literal_drops_malformed_entries
              (add_var "n" __init__) "{a: 1, oops, 'b': n}") as (H & _).
  - reflexivity.
  - reflexivity.
  - rewrite H. vm_compute. reflexivity.
Defined.

(** ** The flush at the end of the input *)

Lemma finalize_if_open_idle (s : DSLConverter) : match_idle (finalize_if_open s).
Proof.
  unfold finalize_if_open, match_idle.
  destruct (truthy (current_match_var s)) eqn:Ht; [| now left].
  unfold _finalize_match. rewrite Ht. cbn [negb orb].
  destruct (match_cases s) eqn:Hc; cbn [is_nil]; [now right; left |].
  destruct (current_match_type s) eqn:Hty; [now left | now right; right].
Qed.

Lemma idle_finalize_if_open (s : DSLConverter) :
  match_idle s -> finalize_if_open s = s.
Proof.
  unfold finalize_if_open, match_idle. intros [H | [H | H]].
  - now rewrite H.
  - destruct (truthy (current_match_var s)); [| reflexivity].
    apply finalize_match_noop. now right.
  - destruct (truthy (current_match_var s)) eqn:Ht; [| reflexivity].
    unfold _finalize_match. rewrite Ht, H.
    destruct (negb true || is_nil (match_cases s)); reflexivity.
Qed.



(** ** The identifier pattern and the tokens of a text *)

Lemma alpha_alnum (c : ascii) : alpha_ c = true -> alnum_ c = true.
Proof.
  unfold alpha_, alnum_.
  destruct (Py.is_upper_az c), (Py.is_lower_az c), (Py.is_digit09 c),
    (Py.is_underscore c); simpl; auto.
Qed.

Lemma alnum_word (c : ascii) : alnum_ c = true -> Py.is_word c = true.
Proof.
  unfold alnum_, Py.is_word.
  destruct (Py.is_upper_az c), (Py.is_lower_az c), (Py.is_digit09 c),
    (Py.is_underscore c); simpl; auto. discriminate.
Qed.

Lemma not_word_not_alnum (c : ascii) : Py.is_word c = false -> alnum_ c = false.
Proof.
  intros H. destruct (alnum_ c) eqn:E; [| reflexivity].
  apply alnum_word in E. congruence.
Qed.

Lemma length_append (a b : string) :
  String.length (a ++ b) = (String.length a + String.length b)%nat.
Proof. induction a as [|c a IH]; simpl; [reflexivity | now rewrite IH]. Qed.

Lemma take_append (a b : string) : Py.take (String.length a) (a ++ b) = a.
Proof. induction a as [|c a IH]; simpl; [now destruct b | now rewrite IH]. Qed.

Lemma append_assoc (a b c : string) : (a ++ b) ++ c = a ++ (b ++ c).
Proof. induction a as [|x a IH]; simpl; [reflexivity | now rewrite IH]. Qed.

(** Every text is a run of word characters followed by a text that does
    not start with a word character. *)
Lemma word_run_split (s : string) :
  exists run rest,
    s = run ++ rest
    /\ Py.forallb_chars Py.is_word run = true
    /\ is_word_opt (head_char rest) = false.
Proof.
  induction s as [|c s (run & rest & Hs & Hrun & Hrest)].
  - exists "", "". repeat split.
  - destruct (Py.is_word c) eqn:Hc.
    + exists (String c run), rest. subst s. simpl. rewrite Hc. repeat split; assumption.
    + exists "", (String c s). simpl. repeat split. exact Hc.
Qed.

(** After a word character the identifier pattern matches nowhere. *)
Lemma identifier_no_match_after_word (prev : option ascii) (s : string) :
  is_word_opt prev = true ->
  rmatch re_identifier prev s [] [] = None.
Proof.
  intros Hprev. unfold re_identifier. cbn [rmatch]. rewrite Hprev.
  destruct s as [|c s]; cbn [head_char is_word_opt xorb negb]; [reflexivity |].
  destruct (Py.is_word c) eqn:Hc; cbn [xorb negb]; [reflexivity |].
  destruct (alpha_ c) eqn:Ha; [| reflexivity].
  apply alpha_alnum, alnum_word in Ha. congruence.
Qed.

(** Before a non-word character, after a non-word character, it does not
    match either. *)
Lemma identifier_no_match_at_non_word (prev : option ascii) (c : ascii) (s : string) :
  Py.is_word c = false ->
  rmatch re_identifier prev (String c s) [] [] = None.
Proof.
  intros Hc. destruct (is_word_opt prev) eqn:Hprev.
  - now apply identifier_no_match_after_word.
  - unfold re_identifier. cbn [rmatch head_char is_word_opt]. now rewrite Hprev, Hc.
Qed.

(** The greedy repetition of the identifier pattern takes the whole run of
    word characters or fails. *)
Lemma identifier_greedy (k : option ascii -> string -> outcome) (rest : string) :
  is_word_opt (head_char rest) = false ->
  (forall prev a s, is_word_opt prev = true -> Py.is_word a = true ->
                    k prev (String a s) = None) ->
  forall r n prev,
    is_word_opt prev = true ->
    Py.forallb_chars Py.is_word r = true ->
    greedy_loop k 0 alnum_ n prev (r ++ rest)
    = if Py.forallb_chars alnum_ r then k (last_char r prev) rest else None.
Proof.
  intros Hrest Hk. induction r as [|a r IH]; intros n prev Hprev Hr.
  - cbn [append Py.forallb_chars last_char].
    destruct rest as [|b rest]; [reflexivity |].
    cbn [head_char is_word_opt] in Hrest. cbn [greedy_loop].
    now rewrite (not_word_not_alnum b Hrest).
  - cbn [Py.forallb_chars] in Hr. apply andb_true_iff in Hr. destruct Hr as [Ha Hr].
    cbn [append greedy_loop Py.forallb_chars last_char].
    destruct (alnum_ a) eqn:Hal; cbn [andb Nat.leb].
    + rewrite (IH (S n) (Some a)) by (simpl; assumption).
      destruct (Py.forallb_chars alnum_ r).
      * destruct (k (last_char r (Some a)) rest); [reflexivity |].
        now apply Hk.
      * now apply Hk.
    + now apply Hk.
Qed.

Lemma last_char_word (r : string) (prev : option ascii) :
  is_word_opt prev = true ->
  Py.forallb_chars Py.is_word r = true ->
  is_word_opt (last_char r prev) = true.
Proof.
  revert prev. induction r as [|a r IH]; intros prev Hprev Hr; simpl in *; [exact Hprev |].
  apply andb_true_iff in Hr. destruct Hr as [Ha Hr]. apply IH; assumption.
Qed.

(** At the start of a run of word characters, after a non-word character,
    the identifier pattern matches exactly when the run is an identifier,
    and then it matches the whole run. *)
Lemma identifier_match_at_run (prev : option ascii) (c : ascii) (r rest : string) :
  is_word_opt prev = false ->
  Py.forallb_chars Py.is_word (String c r) = true ->
  is_word_opt (head_char rest) = false ->
  rmatch re_identifier prev (String c r ++ rest) [] []
  = if is_identifier (String c r) then Some ([(1%nat, String c r)], rest) else None.
Proof.
  intros Hprev Hrun Hrest. cbn [Py.forallb_chars] in Hrun.
  apply andb_true_iff in Hrun. destruct Hrun as [Hc Hr].
  unfold re_identifier. cbn [rmatch append head_char is_word_opt is_identifier].
  rewrite Hprev, Hc. cbn [xorb negb].
  destruct (alpha_ c) eqn:Ha; cbn [andb]; [| reflexivity].
  rewrite (identifier_greedy _ rest Hrest).
  - destruct (Py.forallb_chars alnum_ r); [| reflexivity].
    cbn [lookup Nat.eqb].
    rewrite (last_char_word r (Some c)) by (simpl; assumption).
    rewrite Hrest. cbn [xorb negb].
    replace (String.length (String c (r ++ rest)) - String.length rest)%nat
      with (String.length (String c r)) by (cbn [String.length append]; rewrite length_append; lia).
    change (String c (r ++ rest)) with (String c r ++ rest).
    rewrite take_append. reflexivity.
  - intros p a s Hp Hw. cbn [lookup Nat.eqb head_char is_word_opt].
    now rewrite Hp, Hw.
  - exact Hc.
  - exact Hr.
Qed.

(** Passing over the characters of a match. *)
Lemma sub_aux_skip (p : pattern) (repl : captures -> string -> string)
  (r rest : string) :
  forall prev,
    sub_aux p repl (String.length r) prev (r ++ rest)
    = sub_aux p repl 0 (last_char r prev) rest.
Proof.
  induction r as [|a r IH]; intros prev; [reflexivity |].
  cbn [String.length append sub_aux last_char]. apply IH.
Qed.

(** Inside a run of word characters nothing is replaced. *)
Lemma sub_identifier_inside_run (repl : captures -> string -> string) (r rest : string) :
  forall prev,
    is_word_opt prev = true ->
    Py.forallb_chars Py.is_word r = true ->
    sub_aux re_identifier repl 0 prev (r ++ rest)
    = r ++ sub_aux re_identifier repl 0 (last_char r prev) rest.
Proof.
  induction r as [|a r IH]; intros prev Hprev Hr; [reflexivity |].
  cbn [Py.forallb_chars] in Hr. apply andb_true_iff in Hr. destruct Hr as [Ha Hr].
  cbn [append sub_aux last_char].
  change (String a (r ++ rest)) with (String a r ++ rest).
  rewrite (identifier_no_match_after_word prev _ Hprev).
  rewrite IH by (simpl; assumption). reflexivity.
Qed.

Lemma tokens_aux_run (r rest : string) :
  forall cur,
    Py.forallb_chars Py.is_word r = true ->
    is_word_opt (head_char rest) = false ->
    nonempty (cur ++ r) = true ->
    tokens_aux cur (r ++ rest) = (cur ++ r) :: tokens_aux "" rest.
Proof.
  induction r as [|a r IH]; intros cur Hr Hrest Hne.
  - rewrite append_empty_r in *. cbn [append].
    destruct rest as [|b rest]; cbn [tokens_aux]; rewrite ?Hne; [reflexivity |].
    cbn [head_char is_word_opt] in Hrest. rewrite Hrest. reflexivity.
  - cbn [Py.forallb_chars] in Hr. apply andb_true_iff in Hr. destruct Hr as [Ha Hr].
    cbn [append tokens_aux]. rewrite Ha.
    rewrite IH; try assumption.
    + unfold snoc. now rewrite append_assoc.
    + unfold snoc. rewrite append_assoc. simpl. now destruct cur.
Qed.

Lemma sigil_on_identifier (self : DSLConverter) (name : string) :
  is_identifier name = true ->
  sigil self [(1%nat, name)] name
  = sigil_token (known_vars self) (known_constants self) name.
Proof.
  intros Hid. unfold sigil, sigil_token, group. cbn [lookup Nat.eqb].
  rewrite Hid. cbn [andb].
  destruct (mem name (known_vars self) && negb (mem name (known_constants self)));
    [reflexivity |].
  destruct (mem name (known_constants self)); reflexivity.
Qed.

Lemma sigil_token_not_identifier (vars consts : list string) (tok : string) :
  is_identifier tok = false -> sigil_token vars consts tok = tok.
Proof. intros H. unfold sigil_token. now rewrite H. Qed.

(** The substitution of the identifier pattern is the sigil rule applied
    token by token. *)
Lemma sub_identifier_tokens (self : DSLConverter) (n : nat) :
  forall s prev,
    (String.length s <= n)%nat ->
    is_word_opt prev = false \/ is_word_opt (head_char s) = false ->
    sub_aux re_identifier (sigil self) 0 prev s
    = String.concat ""
        (map (sigil_token (known_vars self) (known_constants self)) (tokens_aux "" s)).
Proof.
  induction n as [|n IH]; intros s prev Hlen Hstart.
  - destruct s; [reflexivity | simpl in Hlen; lia].
  - destruct s as [|c s]; [reflexivity |].
    destruct (Py.is_word c) eqn:Hc.
    + destruct Hstart as [Hprev | Hhead]; [| simpl in Hhead; congruence].
      destruct (word_run_split s) as (r & rest & Hs & Hr & Hrest). subst s.
      assert (Hrun : Py.forallb_chars Py.is_word (String c r) = true)
        by (simpl; now rewrite Hc, Hr).
      change (String c (r ++ rest)) with (String c r ++ rest) at 2.
      rewrite (tokens_aux_run (String c r) rest "" Hrun Hrest eq_refl).
      cbn [append map]. cbn [sub_aux].
      change (String c (r ++ rest)) with (String c r ++ rest).
      rewrite (identifier_match_at_run prev c r rest Hprev Hrun Hrest).
      assert (Hrest_len : (String.length rest <= n)%nat)
        by (cbn [String.length append] in Hlen; rewrite length_append in Hlen; lia).
      assert (Htail : sub_aux re_identifier (sigil self) 0 (last_char r (Some c)) rest
                      = String.concat ""
                          (map (sigil_token (known_vars self) (known_constants self))
                             (tokens_aux "" rest)))
        by (apply IH; [exact Hrest_len | now right]).
      assert (Hcat : forall (x : string) (l : list string),
                 String.concat "" (x :: l) = x ++ String.concat "" l).
      { intros x l. destruct l; simpl; [now rewrite append_empty_r | reflexivity]. }
      rewrite Hcat.
      destruct (is_identifier (String c r)) eqn:Hid.
      * replace (String.length (String c r ++ rest) - String.length rest)%nat
          with (S (String.length r)) by (cbn [String.length append]; rewrite length_append; lia).
        cbn [append]. rewrite sub_aux_skip, Htail.
        change (Py.take (S (String.length r)) (String c (r ++ rest)))
          with (String c (Py.take (String.length r) (r ++ rest))).
        rewrite take_append. now rewrite sigil_on_identifier.
      * cbn [append]. rewrite sub_identifier_inside_run by (simpl; assumption).
        rewrite Htail, sigil_token_not_identifier by exact Hid. reflexivity.
    + cbn [sub_aux tokens_aux]. rewrite Hc. cbn [nonempty app map].
      rewrite (identifier_no_match_at_non_word prev c s Hc).
      rewrite (IH s (Some c)); [| simpl in Hlen; lia | left; simpl; exact Hc].
      rewrite sigil_token_not_identifier.
      * destruct (map _ (tokens_aux "" s)); reflexivity.
      * simpl. destruct (alpha_ c) eqn:Ha; [| reflexivity].
        apply alpha_alnum, alnum_word in Ha. congruence.
Qed.

Lemma sub_identifier_is_sigil_spec (self : DSLConverter) (part : string) :
  Re.sub re_identifier (sigil self) part
  = sigil_spec (known_vars self) (known_constants self) part.
Proof.
  unfold Re.sub, sigil_spec, tokens.
  apply (sub_identifier_tokens self (String.length part)); [lia | now left].
Qed.

(** ** Lines that no rule recognizes *)

Lemma finalize_if_open_names (s : DSLConverter) :
  known_vars (finalize_if_open s) = known_vars s
  /\ known_constants (finalize_if_open s) = known_constants s.
Proof.
  unfold finalize_if_open, _finalize_match.
  destruct (truthy (current_match_var s)); [| split; reflexivity].
  destruct (negb true || is_nil (match_cases s)); [split; reflexivity |].
  destruct (current_match_type s); split; reflexivity.
Qed.

Lemma emit_closer_names (level : Z) (k : option block_kind) (s : DSLConverter) :
  known_vars (emit_closer level k s) = known_vars s
  /\ known_constants (emit_closer level k s) = known_constants s.
Proof.
  unfold emit_closer.
  destruct k as [[]|]; try destruct (with_vars_get level (with_vars s)) as [[? ?]|];
    try destruct (case_pending s); try destruct (switch_pending s); split; reflexivity.
Qed.

(** Closing blocks changes neither set of names. *)
Lemma adjust_loop_names (indent : Z) (stack : list Z) :
  forall s,
    known_vars (adjust_loop stack indent s) = known_vars s
    /\ known_constants (adjust_loop stack indent s) = known_constants s.
Proof.
  induction stack as [|level rest IH]; intros s; cbn [adjust_loop];
    [split; reflexivity |].
  destruct (indent <? level); [| split; reflexivity].
  unfold pop_block_type.
  destruct (block_types (set_indent_stack rest s)) as [|k ks];
    match goal with
    | |- context [if ?c then _ else _] => destruct c
    end;
    match goal with
    | |- context [adjust_loop rest indent ?t] =>
        destruct (IH t) as [-> ->]
    end;
    rewrite ?(proj1 (emit_closer_names _ _ _)), ?(proj2 (emit_closer_names _ _ _)),
      ?(proj1 (finalize_if_open_names _)), ?(proj2 (finalize_if_open_names _));
    split; reflexivity.
Qed.

Lemma rewrite_part_is_sigil_spec (self : DSLConverter) (part : string) :
  rewrite_part self part
  = if is_string_literal part then part
    else rewrite_keywords (sigil_spec (known_vars self) (known_constants self) part).
Proof.
  unfold rewrite_part, is_string_literal. now rewrite sub_identifier_is_sigil_spec.
Qed.

(** The rewriter on a text that is no f-string: the idioms, then the
    parts, each part outside the string literals with the sigil rule
    applied token by token and then the keywords mapped. *)
Lemma replace_vars_is_sigil_spec (self : DSLConverter) (expr e : string) :
  Py.startswith ("f" ++ Py.DQ) (rewrite_idioms expr)
  || Py.startswith "f'" (rewrite_idioms expr) = false ->
  _replace_vars self expr = Ok e ->
  e = String.concat ""
        (map (fun part =>
                if is_string_literal part then part
                else rewrite_keywords
                       (sigil_spec (known_vars self) (known_constants self) part))
           (split_quoted (Py.replace ".." "." (rewrite_idioms expr)) [] "" None)).
Proof.
  intros Hf H. unfold _replace_vars in H.
  change recursion_limit with (S (pred recursion_limit)) in H.
  cbn [_replace_vars_at] in H. rewrite Hf in H. inversion H; subst; clear H.
  f_equal. apply map_ext. intros part. apply rewrite_part_is_sigil_spec.
Qed.

(** C4, as the engine does it: for a line that is neither blank nor a
    comment, that no rule recognizes, that does not end with a colon and
    whose rewriting completes, [convert] emits, after the closing lines of
    the blocks that the indentation of the line ends, exactly one line: the
    indentation, the rewritten text and a semicolon. The two sets of names
    are those before the line. When the text, after the rewriting of the
    method and function idioms, is no f-string, the rewritten text is made
    of its parts in order, the string literals unchanged and every other
    part with each identifier token that is a known variable and no known
    constant prefixed with the sigil, every other token (each known
    constant among them) left as it is, and then the keywords mapped. *)
Theorem C4_unrecognized_line_is_one_statement
  (self : DSLConverter) (line e : string) :
  nonempty (Py.strip line) = true ->
  Py.startswith "#" (Py.strip line) = false ->
  rule_of (Py.strip line) = None ->
  Py.endswith ":" (Py.strip line) = false ->
  _replace_vars (_adjust_indent (indent_of line) self) (Py.strip line) = Ok e ->
  process_line self line
  = Ok (emit (Py.spaces (indent_of line) ++ e ++ ";")
          (_adjust_indent (indent_of line) self))
  /\ known_vars (_adjust_indent (indent_of line) self) = known_vars self
  /\ known_constants (_adjust_indent (indent_of line) self) = known_constants self
  /\ (Py.startswith ("f" ++ Py.DQ) (rewrite_idioms (Py.strip line))
      || Py.startswith "f'" (rewrite_idioms (Py.strip line)) = false ->
      e = String.concat ""
            (map (fun part =>
                    if is_string_literal part then part
                    else rewrite_keywords
                           (sigil_spec (known_vars self) (known_constants self) part))
               (split_quoted (Py.replace ".." "." (rewrite_idioms (Py.strip line)))
                  [] "" None))).
Proof.
  intros Hne Hnc Hrule Hcolon He.
  destruct (adjust_loop_names (indent_of line) (indent_stack self) self) as [Hv Hc].
  fold (_adjust_indent (indent_of line) self) in Hv, Hc.
  split; [| split; [exact Hv | split; [exact Hc |]]].
  - unfold process_line. rewrite strip_rstrip, Hne, Hnc. cbn [negb].
    unfold rule_of in Hrule.
    rewrite (dispatch_unrecognized handlers _ _ _ 0%nat Hrule).
    cbn [bind]. rewrite Hcolon, He. reflexivity.
  - intros Hf. rewrite <- Hv, <- Hc. now apply replace_vars_is_sigil_spec.
Qed.

Lemma C4_unrecognized_line_is_one_statement_witness :
  process_line (add_constant "MAX" (add_var "total" (reinit __init__)))
    "    total + MAX * other"
  = Ok (emit "    $total + MAX * other;"
          (add_constant "MAX" (add_var "total" (reinit __init__)))).
Proof.
  destruct (C4_unrecognized_line_is_one_statement
              (add_constant "MAX" (add_var "total" (reinit __init__)))
              "    total + MAX * other" "$total + MAX * other") as (H & _);
    [vm_compute; reflexivity .. |].
  exact H.
Defined.

(** C4, as the specification words it, fails twice. A known variable whose
    name is one of the function idioms loses its name before the sigil rule
    is applied: with [len] a known variable, the unrecognized line
    [len(a) + 1] is emitted as [count(a) + 1;], in which no sigil occurs.
    And an unrecognized line that is an f-string with nothing between its
    quotes makes [convert] raise, so that no line is emitted for it. *)
Lemma C4_idiom_named_variable_gets_no_sigil :
  (exists s1 s2,
     run_lines ["len = 3"] (reinit __init__) = Ok s1
     /\ rule_of "len(a) + 1" = None
     /\ Py.endswith ":" "len(a) + 1" = false
     /\ process_line s1 "len(a) + 1" = Ok s2
     /\ php_lines s2 = (php_lines s1 ++ ["count(a) + 1;"])%list
     /\ ~ claimed_sigil_property (known_vars s1) (known_constants s1)
            "len(a) + 1" "count(a) + 1;")
  /\ (rule_of ("f" ++ Py.DQ ++ Py.DQ) = None
      /\ Py.endswith ":" ("f" ++ Py.DQ ++ Py.DQ) = false
      /\ process_line (reinit __init__) ("f" ++ Py.DQ ++ Py.DQ) = Raise IndexError).
Proof.
  split.
  - eexists _, _. split; [vm_compute; reflexivity |].
    split; [vm_compute; reflexivity |].
    split; [vm_compute; reflexivity |].
    split; [vm_compute; reflexivity |].
    split; [vm_compute; reflexivity |].
    intros H.
    assert (Hin : In "len" (bare_identifiers "len(a) + 1")) by (vm_compute; auto).
    specialize (H "len" Hin eq_refl eq_refl). vm_compute in H. discriminate H.
  - repeat split; vm_compute; reflexivity.
Qed.

(** * Further properties of the engine *)

(** ** Texts that end with a brace *)

Lemma rev_onto_append (s acc : string) :
  Py.rev_onto s acc = Py.rev_onto s "" ++ acc.
Proof.
  revert acc. induction s as [|c s IH]; intros acc; simpl; [reflexivity |].
  rewrite (IH (String c acc)), (IH (String c "")), append_assoc. reflexivity.
Qed.

Lemma rev_append (a b : string) : Py.rev (a ++ b) = Py.rev b ++ Py.rev a.
Proof.
  unfold Py.rev. induction a as [|c a IH]; simpl.
  - now rewrite append_empty_r.
  - rewrite rev_onto_append, IH, (rev_onto_append a (String c "")).
    now rewrite append_assoc.
Qed.

Lemma endswith_brace_append (a b : string) :
  Py.endswith "{" b = true -> Py.endswith "{" (a ++ b) = true.
Proof.
  unfold Py.endswith. change (Py.rev "{") with "{". rewrite rev_append.
  destruct (Py.rev b) as [|c r]; [intros H; vm_compute in H; discriminate H |].
  intros H. apply startswith_char in H. subst c. apply startswith_same.
Qed.

Lemma endswith_brace_cons (c : ascii) (s : string) :
  Py.endswith "{" s = true -> Py.endswith "{" (String c s) = true.
Proof. apply (endswith_brace_append (String c "") s). Qed.

Ltac ends_with_brace :=
  first
    [ reflexivity
    | apply endswith_brace_cons; ends_with_brace
    | apply endswith_brace_append; ends_with_brace ].

(** ** The names and the output only grow *)

Lemma add_vars_known_vars_incl (names : list string) (s : DSLConverter) :
  incl (known_vars s) (known_vars (add_vars names s)).
Proof.
  unfold add_vars. revert s. induction names as [|n names IH]; intros s; simpl.
  - apply incl_refl.
  - eapply incl_tran; [| apply IH]. simpl. apply incl_tl, incl_refl.
Qed.

Lemma add_vars_known_constants (names : list string) (s : DSLConverter) :
  known_constants (add_vars names s) = known_constants s.
Proof.
  unfold add_vars. revert s. induction names as [|n names IH]; intros s; simpl;
    [reflexivity | now rewrite IH].
Qed.

Ltac names_grow :=
  simpl; rewrite ?add_vars_known_constants; simpl;
  repeat apply incl_tl;
  first
    [ apply incl_refl
    | eapply incl_tran; [| apply add_vars_known_vars_incl];
      simpl; repeat apply incl_tl; apply incl_refl ].

Lemma no_push_same_length {A : Type} (l l' : list A) :
  l' = l -> length l' = S (length l) -> False.
Proof. intros -> H. lia. Qed.

(** The output part of [handler_grows] once the final engine is known. *)
Ltac output_grows :=
  simpl; frame_rw; rewrite <- ?app_assoc; simpl;
  first
    [ exists []; split;
      [ now rewrite app_nil_r
      | intros Hpush; exfalso; simpl in Hpush; rewrite ?add_vars_indent_stack in Hpush;
        simpl in Hpush; lia ]
    | eexists; split;
      [ reflexivity
      | intros Hpush;
        first
          [ exfalso; simpl in Hpush; rewrite ?add_vars_indent_stack in Hpush;
            simpl in Hpush; lia
          | eexists [], _; split; [reflexivity | ends_with_brace]
          | eexists [_], _; split; [reflexivity | ends_with_brace] ] ] ].

Ltac handler_grows_tac h :=
  intros m indent s b s' H; unfold h, done in H; run_handler H;
  inversion H; subst; clear H;
  (split; [names_grow | split; [names_grow | output_grows]]).

Lemma _handle_import_grows : handler_grows _handle_import.
Proof. handler_grows_tac _handle_import. Qed.
Lemma _handle_func_grows : handler_grows _handle_func.
Proof. handler_grows_tac _handle_func. Qed.
Lemma _handle_anon_fn_short_grows : handler_grows _handle_anon_fn_short.
Proof. handler_grows_tac _handle_anon_fn_short. Qed.
Lemma _handle_anon_fn_long_grows : handler_grows _handle_anon_fn_long.
Proof. handler_grows_tac _handle_anon_fn_long. Qed.
Lemma _handle_with_grows : handler_grows _handle_with.
Proof. handler_grows_tac _handle_with. Qed.
Lemma _handle_match_assignment_grows : handler_grows _handle_match_assignment.
Proof. handler_grows_tac _handle_match_assignment. Qed.
Lemma _handle_match_return_grows : handler_grows _handle_match_return.
Proof. handler_grows_tac _handle_match_return. Qed.
Lemma _handle_case_grows : handler_grows _handle_case.
Proof. handler_grows_tac _handle_case. Qed.
Lemma _handle_default_grows : handler_grows _handle_default.
Proof. handler_grows_tac _handle_default. Qed.
Lemma _handle_input_grows : handler_grows _handle_input.
Proof. handler_grows_tac _handle_input. Qed.
Lemma _handle_ternary_grows : handler_grows _handle_ternary.
Proof. handler_grows_tac _handle_ternary. Qed.
Lemma _handle_do_grows : handler_grows _handle_do.
Proof. handler_grows_tac _handle_do. Qed.
Lemma _handle_while_grows : handler_grows _handle_while.
Proof.
  intros m indent s b s' H; unfold _handle_while, done, pop_block_type in H.
  run_handler H; inversion H; subst; clear H.
  - destruct (block_types s) eqn:Hb; inversion Heqp; subst; clear Heqp;
      (split; [names_grow | split; [names_grow |]]);
      (eexists; split; [reflexivity |]);
      intros Hpush; exfalso; simpl in Hpush; lia.
  - split; [names_grow | split; [names_grow | output_grows]].
Qed.
Lemma _handle_constant_grows : handler_grows _handle_constant.
Proof. handler_grows_tac _handle_constant. Qed.
Lemma _handle_assignment_grows : handler_grows _handle_assignment.
Proof. handler_grows_tac _handle_assignment. Qed.
Lemma _handle_return_grows : handler_grows _handle_return.
Proof. handler_grows_tac _handle_return. Qed.
Lemma _handle_break_grows : handler_grows _handle_break.
Proof. handler_grows_tac _handle_break. Qed.
Lemma _handle_continue_grows : handler_grows _handle_continue.
Proof. handler_grows_tac _handle_continue. Qed.
Lemma _handle_pass_grows : handler_grows _handle_pass.
Proof. handler_grows_tac _handle_pass. Qed.
Lemma _handle_print_grows : handler_grows _handle_print.
Proof. handler_grows_tac _handle_print. Qed.
Lemma _handle_if_grows : handler_grows _handle_if.
Proof. handler_grows_tac _handle_if. Qed.
Lemma _handle_elif_grows : handler_grows _handle_elif.
Proof. handler_grows_tac _handle_elif. Qed.
Lemma _handle_else_grows : handler_grows _handle_else.
Proof. handler_grows_tac _handle_else. Qed.
Lemma _handle_for_range_grows : handler_grows _handle_for_range.
Proof. handler_grows_tac _handle_for_range. Qed.
Lemma _handle_foreach_grows : handler_grows _handle_foreach.
Proof. handler_grows_tac _handle_foreach. Qed.
Lemma _handle_switch_grows : handler_grows _handle_switch.
Proof. handler_grows_tac _handle_switch. Qed.
Lemma _handle_switch_case_grows : handler_grows _handle_switch_case.
Proof.
  intros m indent s b s' H; unfold _handle_switch_case, done in H.
  destruct (case_pending s); run_handler H; inversion H; subst; clear H;
    (split; [names_grow | split; [names_grow | output_grows]]).
Qed.
Lemma _handle_switch_default_grows : handler_grows _handle_switch_default.
Proof.
  intros m indent s b s' H; unfold _handle_switch_default, done in H.
  destruct (case_pending s); run_handler H; inversion H; subst; clear H;
    (split; [names_grow | split; [names_grow | output_grows]]).
Qed.
Lemma _handle_function_call_grows : handler_grows _handle_function_call.
Proof. handler_grows_tac _handle_function_call. Qed.

Lemma handlers_grow : Forall (fun ph => handler_grows (snd ph)) handlers.
Proof.
  unfold handlers.
  repeat (apply Forall_cons; [simpl |]); try apply Forall_nil;
    auto using _handle_import_grows, _handle_func_grows, _handle_anon_fn_short_grows,
      _handle_anon_fn_long_grows, _handle_with_grows, _handle_match_assignment_grows,
      _handle_match_return_grows, _handle_case_grows, _handle_default_grows,
      _handle_input_grows, _handle_ternary_grows, _handle_do_grows,
      _handle_while_grows, _handle_constant_grows, _handle_assignment_grows,
      _handle_return_grows, _handle_break_grows, _handle_continue_grows,
      _handle_pass_grows, _handle_print_grows, _handle_if_grows, _handle_elif_grows,
      _handle_else_grows, _handle_for_range_grows, _handle_foreach_grows,
      _handle_switch_grows, _handle_switch_case_grows, _handle_switch_default_grows,
      _handle_function_call_grows.
Qed.

Lemma dispatch_grows (hs : list (pattern * handler)) (text : string) (indent : Z)
  (s s' : DSLConverter) (b : bool) :
  Forall (fun ph => handler_grows (snd ph)) hs ->
  dispatch hs text indent s = Ok (b, s') ->
  incl (known_vars s) (known_vars s')
  /\ incl (known_constants s) (known_constants s')
  /\ exists added,
       php_lines s' = (php_lines s ++ added)%list
       /\ (length (indent_stack s') = S (length (indent_stack s)) ->
           exists init line,
             added = (init ++ [line])%list /\ Py.endswith "{" line = true).
Proof.
  induction 1 as [|[p h] hs Hh Hhs IH]; simpl; intros H.
  - inversion H; subst. split; [apply incl_refl | split; [apply incl_refl |]].
    exists []. split; [now rewrite app_nil_r | intros Hp; lia].
  - destruct (match_ p text) as [m|]; [exact (Hh m indent s b s' H) | exact (IH H)].
Qed.

(** The match finalizer and the closing chain only append to the output. *)
Lemma finalize_if_open_appends (s : DSLConverter) :
  exists added, php_lines (finalize_if_open s) = (php_lines s ++ added)%list.
Proof.
  unfold finalize_if_open, _finalize_match.
  destruct (truthy (current_match_var s)); [| exists []; now rewrite app_nil_r].
  destruct (negb true || is_nil (match_cases s)); [exists []; now rewrite app_nil_r |].
  destruct (current_match_type s); [| exists []; now rewrite app_nil_r].
  eexists. reflexivity.
Qed.

Lemma emit_closer_appends (level : Z) (k : option block_kind) (s : DSLConverter) :
  exists added, php_lines (emit_closer level k s) = (php_lines s ++ added)%list.
Proof.
  unfold emit_closer.
  destruct k as [[]|]; try destruct (with_vars_get level (with_vars s)) as [[? ?]|];
    try destruct (case_pending s); try destruct (switch_pending s);
    simpl; rewrite <- ?app_assoc; simpl;
    first [eexists; reflexivity | exists []; now rewrite app_nil_r].
Qed.

Lemma adjust_loop_appends (indent : Z) (stack : list Z) :
  forall s, exists added,
    php_lines (adjust_loop stack indent s) = (php_lines s ++ added)%list.
Proof.
  induction stack as [|level rest IH]; intros s; cbn [adjust_loop];
    [exists []; now rewrite app_nil_r |].
  destruct (indent <? level); [| exists []; now rewrite app_nil_r].
  unfold pop_block_type.
  assert (Hstep : forall t : DSLConverter,
             php_lines t = php_lines s ->
             forall k, exists added,
               (php_lines (if is_do k && do_while_pending (finalize_if_open t)
                           then adjust_loop rest indent (finalize_if_open t)
                           else adjust_loop rest indent
                                  (emit_closer level k (finalize_if_open t)))
                = php_lines s ++ added)%list).
  { intros t Ht k.
    destruct (finalize_if_open_appends t) as [a1 H1].
    destruct (emit_closer_appends level k (finalize_if_open t)) as [a2 H2].
    destruct (is_do k && do_while_pending (finalize_if_open t)).
    - destruct (IH (finalize_if_open t)) as [a3 H3].
      exists (a1 ++ a3)%list. now rewrite H3, H1, Ht, app_assoc.
    - destruct (IH (emit_closer level k (finalize_if_open t))) as [a3 H3].
      exists (a1 ++ a2 ++ a3)%list. now rewrite H3, H2, H1, Ht, ?app_assoc. }
  destruct (block_types (set_indent_stack rest s)) as [|k ks];
    apply Hstep; reflexivity.
Qed.

Lemma flush_loop_appends (stack : list Z) :
  forall s, exists added,
    php_lines (flush_loop stack s) = (php_lines s ++ added)%list.
Proof.
  induction stack as [|level rest IH]; intros s;
    [exists []; simpl; now rewrite app_nil_r |].
  destruct rest as [|level2 rest]; [exists []; simpl; now rewrite app_nil_r |].
  cbn [flush_loop]. unfold pop_block_type.
  assert (Hstep : forall t : DSLConverter,
             php_lines t = php_lines s ->
             forall k, exists added,
               (php_lines
                  (if is_do k && do_while_pending (finalize_if_open t)
                   then flush_loop (level2 :: rest)
                          (set_do_while_pending false
                             (emit (Py.spaces (level - 4) ++ "} while (false);")
                                (finalize_if_open t)))
                   else flush_loop (level2 :: rest)
                          (emit_closer level k (finalize_if_open t)))
                = php_lines s ++ added)%list).
  { intros t Ht k.
    destruct (finalize_if_open_appends t) as [a1 H1].
    destruct (emit_closer_appends level k (finalize_if_open t)) as [a2 H2].
    destruct (is_do k && do_while_pending (finalize_if_open t)).
    - match goal with
      | |- context [flush_loop _ ?u] => destruct (IH u) as [a3 H3]
      end.
      rewrite H3. cbn [php_lines set_do_while_pending emit set_php_lines].
      rewrite H1, Ht, <- ?app_assoc. eexists. reflexivity.
    - destruct (IH (emit_closer level k (finalize_if_open t))) as [a3 H3].
      rewrite H3, H2, H1, Ht, <- ?app_assoc. eexists. reflexivity. }
  destruct (block_types (set_indent_stack (level2 :: rest) s)) as [|k ks];
    apply Hstep; reflexivity.
Qed.

(** One line of the input: the names stay, the output grows at its end. *)
Lemma process_line_grows (s s' : DSLConverter) (line : string) :
  process_line s line = Ok s' ->
  incl (known_vars s) (known_vars s')
  /\ incl (known_constants s) (known_constants s')
  /\ exists added, php_lines s' = (php_lines s ++ added)%list.
Proof.
  intros H. unfold process_line in H.
  destruct (negb (nonempty (Py.strip (Py.rstrip line)))).
  { inversion H; subst. repeat split; try apply incl_refl. eexists. reflexivity. }
  destruct (Py.startswith "#" (Py.strip (Py.rstrip line))).
  { inversion H; subst. repeat split; try apply incl_refl. eexists. reflexivity. }
  destruct (adjust_loop_names (indent_of line) (indent_stack s) s) as [Hv Hc].
  destruct (adjust_loop_appends (indent_of line) (indent_stack s) s) as [a1 Ha].
  fold (_adjust_indent (indent_of line) s) in Hv, Hc, Ha.
  set (s1 := _adjust_indent (indent_of line) s) in *.
  destruct (dispatch handlers (Py.strip (Py.rstrip line)) (indent_of line) s1)
    as [[b s2]|] eqn:Hd; simpl in H; [| discriminate H].
  destruct (dispatch_grows _ _ _ _ _ _ handlers_grow Hd) as (Gv & Gc & a2 & Gl & _).
  rewrite Hv in Gv. rewrite Hc in Gc. rewrite Ha in Gl.
  destruct b.
  - inversion H; subst. repeat split; try assumption.
    exists (a1 ++ a2)%list. now rewrite Gl, app_assoc.
  - destruct (Py.endswith ":" (Py.strip (Py.rstrip line))).
    + inversion H; subst. repeat split; try assumption.
      simpl. rewrite Gl, <- ?app_assoc. eexists. reflexivity.
    + destruct (_replace_vars s2 (Py.strip (Py.rstrip line))); simpl in H;
        [| discriminate H].
      inversion H; subst. repeat split; try assumption.
      simpl. rewrite Gl, <- ?app_assoc. eexists. reflexivity.
Qed.

(** X1: while [convert] processes lines, no name leaves the set of known
    variables or the set of known constants: what is known after a line
    was known before it or was added by it. *)
Theorem known_names_only_grow (lines : list string) :
  forall s s',
    run_lines lines s = Ok s' ->
    incl (known_vars s) (known_vars s')
    /\ incl (known_constants s) (known_constants s').
Proof.
  induction lines as [|line lines IH]; intros s s' H; simpl in H.
  - inversion H; subst. split; apply incl_refl.
  - destruct (process_line s line) as [s1|] eqn:Hp; simpl in H; [| discriminate H].
    destruct (process_line_grows _ _ _ Hp) as (Hv & Hc & _).
    destruct (IH _ _ H) as [Hv' Hc'].
    split; eapply incl_tran; eassumption.
Qed.

Lemma known_names_only_grow_witness :
  incl ["x"] (known_vars
                (add_var "y" (set_php_lines ["$y = $x;"] (add_var "x" __init__)))).
Proof.
  apply (known_names_only_grow ["y = x"] (add_var "x" __init__)).
  vm_compute. reflexivity.
Defined.

Lemma run_lines_appends (lines : list string) :
  forall s s',
    run_lines lines s = Ok s' ->
    exists added, php_lines s' = (php_lines s ++ added)%list.
Proof.
  induction lines as [|line lines IH]; intros s s' H; simpl in H.
  - inversion H; subst. exists []. now rewrite app_nil_r.
  - destruct (process_line s line) as [s1|] eqn:Hp; simpl in H; [| discriminate H].
    destruct (process_line_grows _ _ _ Hp) as (_ & _ & a1 & H1).
    destruct (IH _ _ H) as [a2 H2].
    exists (a1 ++ a2)%list. now rewrite H2, H1, app_assoc.
Qed.

Lemma startswith_append (p x : string) : Py.startswith p (p ++ x) = true.
Proof.
  unfold Py.startswith. induction p as [|c p IH]; simpl.
  - now destruct x.
  - destruct (ascii_dec c c); [exact IH | congruence].
Qed.

(** X2: whenever [convert] returns, the lines it has emitted are the two
    lines of the banner followed by the lines emitted for the input, so the
    text it returns starts with the banner; and a line once emitted is
    never changed or removed by a later input line. *)
Theorem convert_output_begins_with_banner
  (engine : DSLConverter) (code out : string) (s' : DSLConverter) :
  convert engine code = Ok (out, s') ->
  (exists rest, php_lines s' = (banner ++ rest)%list
                /\ out = Py.join Py.LF (banner ++ rest))
  /\ Py.startswith (text_of banner) out = true
  /\ (forall n s, run_lines (firstn n (Py.splitlines code)) (reinit engine) = Ok s ->
                  exists later, php_lines s' = (php_lines s ++ later)%list).
Proof.
  unfold convert. intros H.
  destruct (run_lines (Py.splitlines code) (reinit engine)) as [s1|] eqn:Hrun;
    simpl in H; [| discriminate H].
  inversion H; subst; clear H.
  assert (Hfin : forall s, exists added,
             php_lines (finish s) = (php_lines s ++ added)%list).
  { intros s. unfold finish.
    destruct (finalize_if_open_appends s) as [a1 H1].
    destruct (flush_loop_appends (indent_stack (finalize_if_open s))
                (finalize_if_open s)) as [a2 H2].
    exists (a1 ++ a2)%list. now rewrite H2, H1, app_assoc. }
  destruct (run_lines_appends _ _ _ Hrun) as [a1 H1].
  destruct (Hfin s1) as [a2 H2].
  assert (Hall : php_lines (finish s1) = (banner ++ (a1 ++ a2))%list).
  { rewrite H2, H1. reflexivity. }
  split; [exists (a1 ++ a2)%list; split; [exact Hall | now rewrite Hall] |].
  split.
  - rewrite Hall. unfold text_of, banner, Py.join.
    destruct (a1 ++ a2)%list as [|l ls]; cbn [app String.concat].
    + reflexivity.
    + rewrite <- !append_assoc.
      apply (startswith_append
               ("<?php" ++ Py.LF ++ "// Generated by DSL to PHP converter")).
  - intros n s Hs.
    assert (Hrest : run_lines (skipn n (Py.splitlines code)) s = Ok s1).
    { revert Hrun Hs. generalize (reinit engine) as s0.
      generalize (Py.splitlines code) as ls. revert n.
      induction n as [|n IH]; intros ls s0 Hrun Hs.
      - simpl in Hs. inversion Hs; subst. exact Hrun.
      - destruct ls as [|l ls]; simpl in *.
        + inversion Hs; subst. exact Hrun.
        + destruct (process_line s0 l) as [s2|]; simpl in *; [| discriminate Hs].
          eapply IH; eassumption. }
    destruct (run_lines_appends _ _ _ Hrest) as [b1 B1].
    exists (b1 ++ a2)%list. now rewrite H2, B1, app_assoc.
Qed.

Lemma convert_output_begins_with_banner_witness :
  Py.startswith (text_of banner) (text_of (banner ++ ["$x = 1;"])) = true.
Proof.
  destruct (convert_output_begins_with_banner __init__ "x = 1"
              (text_of (banner ++ ["$x = 1;"]))
              (set_php_lines (banner ++ ["$x = 1;"]) (add_var "x" (reinit __init__))))
    as (_ & H & _).
  - vm_compute. reflexivity.
  - exact H.
Defined.

(** X3: a line that is neither blank nor a comment and that leaves the
    indentation stack one entry longer than it was after the blocks ended
    by the line were closed has opened a block: the last line it emits
    ends with an opening brace. *)
Theorem block_push_emits_opening_brace (s s' : DSLConverter) (line : string) :
  nonempty (Py.strip line) = true ->
  Py.startswith "#" (Py.strip line) = false ->
  process_line s line = Ok s' ->
  length (indent_stack s')
  = S (length (indent_stack (_adjust_indent (indent_of line) s))) ->
  exists init opener,
    php_lines s' = (init ++ [opener])%list /\ Py.endswith "{" opener = true.
Proof.
  intros Hne Hnc H Hpush. unfold process_line in H.
  rewrite strip_rstrip, Hne, Hnc in H. cbn [negb] in H.
  set (s1 := _adjust_indent (indent_of line) s) in *.
  destruct (dispatch handlers (Py.strip line) (indent_of line) s1)
    as [[b s2]|] eqn:Hd; simpl in H; [| discriminate H].
  destruct (dispatch_grows _ _ _ _ _ _ handlers_grow Hd) as (_ & _ & a2 & Gl & Gp).
  destruct (dispatch_ok _ _ _ _ _ _ handlers_ok Hd) as [_ Hdecl].
  destruct b.
  - inversion H; subst. destruct (Gp Hpush) as (init & opener & Ha & He).
    exists (php_lines s1 ++ init)%list, opener.
    split; [now rewrite Gl, Ha, app_assoc | exact He].
  - rewrite (Hdecl eq_refl) in *.
    destruct (Py.endswith ":" (Py.strip line)).
    + inversion H; subst. eexists _, _. split; [reflexivity |]. ends_with_brace.
    + destruct (_replace_vars s1 (Py.strip line)); simpl in H; [| discriminate H].
      inversion H; subst. simpl in Hpush. lia.
Qed.

Lemma block_push_emits_opening_brace_witness :
  exists init opener,
    (banner ++ ["if (a) {"])%list = (init ++ [opener])%list
    /\ Py.endswith "{" opener = true.
Proof.
  apply (block_push_emits_opening_brace (reinit __init__)
           (push_block 4 BIf (emit "if (a) {" (reinit __init__))) "if a:");
    vm_compute; reflexivity.
Defined.

(** ** Closing blocks *)

Lemma adjust_loop_stack (indent : Z) (stack : list Z) :
  forall s,
    indent_stack s = stack ->
    top_le indent (adjust_loop stack indent s)
    /\ exists popped, stack = (popped ++ indent_stack (adjust_loop stack indent s))%list
                      /\ Forall (fun level => indent < level) popped.
Proof.
  induction stack as [|level rest IH]; intros s Hs; cbn [adjust_loop].
  - split; [unfold top_le; now rewrite Hs |]. exists []. rewrite Hs. split; auto.
  - destruct (indent <? level) eqn:Hlt.
    + unfold pop_block_type.
      assert (Hstep : forall t : DSLConverter,
                 indent_stack t = rest ->
                 top_le indent (adjust_loop rest indent t)
                 /\ exists popped,
                      level :: rest
                      = (popped ++ indent_stack (adjust_loop rest indent t))%list
                      /\ Forall (fun l => indent < l) popped).
      { intros t Ht. destruct (IH t Ht) as (H1 & popped & H2 & H3).
        split; [exact H1 |]. exists (level :: popped). split.
        - simpl. now rewrite <- H2.
        - constructor; [lia | exact H3]. }
      destruct (block_types (set_indent_stack rest s)) as [|k ks];
        match goal with
        | |- context [if ?c then _ else _] => destruct c
        end; apply Hstep;
        rewrite ?(proj1 (emit_closer_frame _ _ _)), ?(proj1 (finalize_if_open_frame _));
        reflexivity.
    + split; [unfold top_le; rewrite Hs; lia |].
      exists []. rewrite Hs. split; auto.
Qed.

Lemma adjust_indent_noop (indent : Z) (s : DSLConverter) :
  top_le indent s -> _adjust_indent indent s = s.
Proof.
  unfold top_le, _adjust_indent. destruct (indent_stack s) as [|level rest];
    [reflexivity |].
  intros H. cbn [adjust_loop]. destruct (Z.ltb_spec indent level); [lia | reflexivity].
Qed.

(** X4: [_adjust_indent] removes from the top of the indentation stack
    exactly the levels greater than the indentation of the line, whatever
    the engine: the levels it removes are all greater, what it leaves is
    the rest of the stack, and the top it leaves is not greater. On a
    stack whose top is not greater it changes nothing at all, so closing
    twice for the same indentation is closing once. *)
Theorem adjust_indent_pops_exactly_the_deeper_levels (indent : Z) (s : DSLConverter) :
  (exists popped,
      indent_stack s = (popped ++ indent_stack (_adjust_indent indent s))%list
      /\ Forall (fun level => indent < level) popped)
  /\ top_le indent (_adjust_indent indent s)
  /\ (top_le indent s -> _adjust_indent indent s = s)
  /\ _adjust_indent indent (_adjust_indent indent s) = _adjust_indent indent s.
Proof.
  destruct (adjust_loop_stack indent (indent_stack s) s eq_refl) as (Htop & Hpop).
  fold (_adjust_indent indent s) in Htop, Hpop.
  split; [exact Hpop |]. split; [exact Htop |].
  split; [apply adjust_indent_noop |]. now apply adjust_indent_noop.
Qed.

Lemma adjust_indent_pops_exactly_the_deeper_levels_witness :
  _adjust_indent 4 (push_block 4 BIf __init__) = push_block 4 BIf __init__.
Proof.
  destruct (adjust_indent_pops_exactly_the_deeper_levels 4 (push_block 4 BIf __init__))
    as (_ & _ & H & _).
  apply H. vm_compute. discriminate.
Defined.

(** ** The match finalizer *)

(** X5: when the accumulator holds a discriminant, at least one case and
    a mode, [_finalize_match] appends one line per case and two more (the
    head and the closing line), each indented by the top of the
    indentation stack, clears the four attributes of the accumulator and
    touches nothing else of the stacks and flags; afterwards, and in every
    other state, it changes nothing, so finalizing twice is finalizing
    once. *)
Theorem finalize_match_emits_once (s : DSLConverter) :
  (truthy (current_match_var s) = true ->
   match_cases s <> [] ->
   current_match_type s <> None ->
   (exists lines,
       php_lines (_finalize_match s)
       = (php_lines s
          ++ map (fun line => (Py.spaces (hd 0 (indent_stack s)) ++ line)%string) lines)%list
       /\ length lines = (length (match_cases s) + 2)%nat)
   /\ current_match_var (_finalize_match s) = None
   /\ match_cases (_finalize_match s) = []
   /\ current_match_type (_finalize_match s) = None
   /\ current_match_dest (_finalize_match s) = None)
  /\ _finalize_match (_finalize_match s) = _finalize_match s.
Proof.
  split.
  - intros Hv Hc Ht. unfold _finalize_match. rewrite Hv.
    destruct (match_cases s) as [|c cs] eqn:Ec; [contradiction |].
    destruct (current_match_type s) as [t|] eqn:Et; [| contradiction].
    cbn [negb orb is_nil]. split; [| repeat split].
    exists ((match t with
             | MAssignment =>
                 "$" ++ str_of (current_match_dest s) ++ " = match ("
                 ++ (if String.eqb (Py.lower (str_of (current_match_var s))) "true"
                        || String.eqb (Py.lower (str_of (current_match_var s))) "false"
                     then str_of (current_match_var s)
                     else "$" ++ str_of (current_match_var s)) ++ ") {"
             | MReturn =>
                 "return match ("
                 ++ (if String.eqb (Py.lower (str_of (current_match_var s))) "true"
                        || String.eqb (Py.lower (str_of (current_match_var s))) "false"
                     then str_of (current_match_var s)
                     else "$" ++ str_of (current_match_var s)) ++ ") {"
             end)%string :: map case_line (c :: cs) ++ ["};"])%list.
    split.
    + reflexivity.
    + cbn [length]. rewrite length_app, length_map. cbn [length]. lia.
  - destruct (truthy (current_match_var s)) eqn:Hv.
    + pose proof (finalize_if_open_idle s) as Hidle.
      unfold finalize_if_open in Hidle. rewrite Hv in Hidle.
      pose proof (idle_finalize_if_open _ Hidle) as Hid.
      unfold finalize_if_open in Hid.
      destruct (truthy (current_match_var (_finalize_match s))) eqn:Hv';
        [exact Hid |].
      apply finalize_match_noop. now left.
    + rewrite (finalize_match_noop s) by now left.
      apply finalize_match_noop. now left.
Qed.

Lemma finalize_match_emits_once_witness :
  current_match_var
    (_finalize_match
       (set_match_cases [MkCase ["1"] "2"]
          (set_current_match_type (Some MReturn)
             (set_current_match_var (Some "x") __init__)))) = None.
Proof.
  match goal with
  | |- current_match_var (_finalize_match ?s) = None =>
      destruct (finalize_match_emits_once s) as [H _]
  end.
  apply H; [reflexivity | discriminate | discriminate].
Defined.

(** ** What the engine can raise *)

Lemma f_string_loop_benign (rv : string -> result string) :
  (forall x e, rv x = Raise e -> benign e) ->
  forall content parts current in_placeholder e,
    f_string_loop rv content parts current in_placeholder = Raise e -> benign e.
Proof.
  intros Hrv. induction content as [|c content IH];
    intros parts current ph e H; cbn [f_string_loop] in H; [discriminate H |].
  destruct (Ascii.eqb c "{" && negb ph).
  - destruct (nonempty current); eapply IH; exact H.
  - destruct (Ascii.eqb c "}" && ph).
    + destruct (rv (Py.strip current)) eqn:E; simpl in H.
      * eapply IH; exact H.
      * inversion H; subst. eapply Hrv; exact E.
    + eapply IH; exact H.
Qed.

Lemma convert_f_string_with_benign (rv : string -> result string) (s : string) (e : exn) :
  (forall x e, rv x = Raise e -> benign e) ->
  _convert_f_string_with rv s = Raise e -> benign e.
Proof.
  intros Hrv H. unfold _convert_f_string_with in H.
  destruct (Py.startswith ("f" ++ Py.DQ) s || Py.startswith "f'" s); [| discriminate H].
  destruct (f_string_loop rv (Py.drop_last (Py.drop 2 s)) [] "" false)
    as [[[parts current] ph]|e'] eqn:E; simpl in H.
  - destruct (nonempty current).
    + destruct ph.
      * destruct (rv (Py.strip current)) eqn:E2; simpl in H.
        -- destruct (1 <? Z.of_nat (length (parts ++ [a])%list)); [discriminate H |].
           destruct (parts ++ [a])%list; [| discriminate H].
           inversion H. now left.
        -- inversion H; subst. eapply Hrv; exact E2.
      * simpl in H.
        destruct (1 <? Z.of_nat (length (parts ++ [quote_literal current])%list));
          [discriminate H |].
        destruct (parts ++ [quote_literal current])%list; [| discriminate H].
        inversion H. now left.
    + simpl in H. destruct (1 <? Z.of_nat (length parts)); [discriminate H |].
      destruct parts; [| discriminate H]. inversion H. now left.
  - inversion H; subst. eapply f_string_loop_benign; eassumption.
Qed.

Lemma replace_vars_at_benign (depth : nat) :
  forall s x e, _replace_vars_at depth s x = Raise e -> benign e.
Proof.
  induction depth as [|d IH]; intros s x e H; cbn [_replace_vars_at] in H.
  - inversion H. now right.
  - destruct (Py.startswith ("f" ++ Py.DQ) (rewrite_idioms x)
              || Py.startswith "f'" (rewrite_idioms x)); [| discriminate H].
    eapply convert_f_string_with_benign; [| exact H]. intros y e'. apply IH.
Qed.

Lemma replace_vars_benign (s : DSLConverter) (x : string) (e : exn) :
  _replace_vars s x = Raise e -> benign e.
Proof. apply replace_vars_at_benign. Qed.

Lemma mapM_benign {A B : Type} (f : A -> result B) (l : list A) (e : exn) :
  (forall x e, f x = Raise e -> benign e) ->
  mapM f l = Raise e -> benign e.
Proof.
  intros Hf. induction l as [|x l IH]; simpl; intros H; [discriminate H |].
  destruct (f x) eqn:E; simpl in H; [| inversion H; subst; eapply Hf; exact E].
  destruct (mapM f l); simpl in H; [discriminate H |].
  inversion H; subst. now apply IH.
Qed.

Lemma mapM_replace_vars_benign (s : DSLConverter) (l : list string) (e : exn) :
  mapM (_replace_vars s) l = Raise e -> benign e.
Proof. apply mapM_benign. apply replace_vars_benign. Qed.

Lemma map_entries_benign (s : DSLConverter) (parts : list string) :
  forall kv e, map_entries s parts kv = Raise e -> benign e.
Proof.
  induction parts as [|p parts IH]; intros kv e H; simpl in H; [discriminate H |].
  destruct (negb (Py.contains ":" p)); [eapply IH; exact H |].
  destruct (Py.split1 ":" p) as [k val].
  destruct (_replace_vars s (Py.strip val)) eqn:E; simpl in H.
  - eapply IH; exact H.
  - inversion H; subst. eapply replace_vars_benign; exact E.
Qed.

Lemma convert_value_benign (s : DSLConverter) (value : string) (e : exn) :
  _convert_value s value = Raise e -> benign e.
Proof.
  unfold _convert_value. intros H.
  destruct (Py.startswith "[" (Py.strip value) && Py.endswith "]" (Py.strip value)).
  { match type of H with
    | bind ?r _ = _ => destruct r eqn:E; simpl in H; [discriminate H |]
    end.
    inversion H; subst. eapply mapM_replace_vars_benign; exact E. }
  destruct (Py.startswith "{" (Py.strip value) && Py.endswith "}" (Py.strip value)).
  { match type of H with
    | bind ?r _ = _ => destruct r eqn:E; simpl in H; [discriminate H |]
    end.
    inversion H; subst. eapply map_entries_benign; exact E. }
  destruct (String.eqb (Py.lower (Py.strip value)) "true"); [discriminate H |].
  destruct (String.eqb (Py.lower (Py.strip value)) "false"); [discriminate H |].
  destruct (Py.isdigit (Py.strip value)); [discriminate H |].
  eapply replace_vars_benign; exact H.
Qed.

Lemma func_args_benign (s : DSLConverter) (args : list string) :
  forall arg_parts arg_names e,
    func_args s args arg_parts arg_names = Raise e -> benign e.
Proof.
  induction args as [|arg args IH]; intros ps ns e H; cbn [func_args] in H;
    [discriminate H |].
  destruct (negb (nonempty (Py.strip arg))); [eapply IH; exact H |].
  destruct (Py.contains "=" (Py.strip arg)).
  - destruct (Py.split1 "=" (Py.strip arg)) as [arg_name default_val].
    destruct (Py.contains " " (Py.strip arg_name)).
    + destruct (Py.rsplit1 " " (Py.strip arg_name)) as [type_part var_name].
      destruct (_replace_vars s (Py.strip default_val)) eqn:E; simpl in H.
      * eapply IH; exact H.
      * inversion H; subst. eapply replace_vars_benign; exact E.
    + destruct (_replace_vars s (Py.strip default_val)) eqn:E; simpl in H.
      * eapply IH; exact H.
      * inversion H; subst. eapply replace_vars_benign; exact E.
  - destruct (Py.contains " " (Py.strip arg)).
    + destruct (Py.rsplit1 " " (Py.strip arg)) as [type_part var_name].
      eapply IH; exact H.
    + eapply IH; exact H.
Qed.

Lemma add_vars_do_while_pending (names : list string) (s : DSLConverter) :
  do_while_pending (add_vars names s) = do_while_pending s.
Proof.
  unfold add_vars. revert s. induction names as [|n names IH]; intros s; simpl;
    [reflexivity | now rewrite IH].
Qed.

(** A failed step of an action is a failed call of the rewriter. *)
Ltac benign_by E :=
  repeat match type of E with
    | (if ?c then _ else _) = Raise _ => destruct c
    end;
  try discriminate E;
  first
    [ exact (replace_vars_benign _ _ _ E)
    | exact (convert_value_benign _ _ _ E)
    | exact (mapM_replace_vars_benign _ _ _ E)
    | exact (func_args_benign _ _ _ _ _ E) ].

Ltac run_raise H :=
  repeat
    (simpl in H;
     match type of H with
     | bind ?r _ = Raise _ =>
         let E := fresh "E" in
         destruct r eqn:E; simpl in H;
         [| inversion H; subst; clear H; benign_by E]
     | (let '(_, _) := ?x in _) = Raise _ => destruct x eqn:?
     | (if ?c then _ else _) = Raise _ => destruct c eqn:?
     | match ?x with _ => _ end = Raise _ => destruct x eqn:?
     | Ok _ = Raise _ => discriminate H
     end).

Ltac handler_calm_tac h :=
  intros m indent s Hpending; split;
  [ intros e H; unfold h, done in H; run_raise H
  | intros b s' H; unfold h, done in H; run_handler H;
    inversion H; subst; clear H; simpl; rewrite ?add_vars_do_while_pending;
    simpl; try assumption; try reflexivity ].

Lemma _handle_import_calm : handler_calm _handle_import.
Proof. handler_calm_tac _handle_import. Qed.
Lemma _handle_func_calm : handler_calm _handle_func.
Proof. handler_calm_tac _handle_func. Qed.
Lemma _handle_anon_fn_short_calm : handler_calm _handle_anon_fn_short.
Proof. handler_calm_tac _handle_anon_fn_short. Qed.
Lemma _handle_anon_fn_long_calm : handler_calm _handle_anon_fn_long.
Proof. handler_calm_tac _handle_anon_fn_long. Qed.
Lemma _handle_with_calm : handler_calm _handle_with.
Proof. handler_calm_tac _handle_with. Qed.
Lemma _handle_match_assignment_calm : handler_calm _handle_match_assignment.
Proof. handler_calm_tac _handle_match_assignment. Qed.
Lemma _handle_match_return_calm : handler_calm _handle_match_return.
Proof. handler_calm_tac _handle_match_return. Qed.
Lemma _handle_case_calm : handler_calm _handle_case.
Proof. handler_calm_tac _handle_case. Qed.
Lemma _handle_default_calm : handler_calm _handle_default.
Proof. handler_calm_tac _handle_default. Qed.
Lemma _handle_input_calm : handler_calm _handle_input.
Proof. handler_calm_tac _handle_input. Qed.
Lemma _handle_ternary_calm : handler_calm _handle_ternary.
Proof. handler_calm_tac _handle_ternary. Qed.
Lemma _handle_while_calm : handler_calm _handle_while.
Proof.
  intros m indent s Hpending; split.
  - intros e H. unfold _handle_while, done in H. rewrite Hpending in H. run_raise H.
  - intros b s' H. unfold _handle_while, done in H. rewrite Hpending in H.
    run_handler H. inversion H; subst; clear H. exact Hpending.
Qed.
Lemma _handle_constant_calm : handler_calm _handle_constant.
Proof. handler_calm_tac _handle_constant. Qed.
Lemma _handle_assignment_calm : handler_calm _handle_assignment.
Proof. handler_calm_tac _handle_assignment. Qed.
Lemma _handle_return_calm : handler_calm _handle_return.
Proof. handler_calm_tac _handle_return. Qed.
Lemma _handle_break_calm : handler_calm _handle_break.
Proof. handler_calm_tac _handle_break. Qed.
Lemma _handle_continue_calm : handler_calm _handle_continue.
Proof. handler_calm_tac _handle_continue. Qed.
Lemma _handle_pass_calm : handler_calm _handle_pass.
Proof. handler_calm_tac _handle_pass. Qed.
Lemma _handle_print_calm : handler_calm _handle_print.
Proof. handler_calm_tac _handle_print. Qed.
Lemma _handle_if_calm : handler_calm _handle_if.
Proof. handler_calm_tac _handle_if. Qed.
Lemma _handle_elif_calm : handler_calm _handle_elif.
Proof. handler_calm_tac _handle_elif. Qed.
Lemma _handle_else_calm : handler_calm _handle_else.
Proof. handler_calm_tac _handle_else. Qed.
Lemma _handle_for_range_calm : handler_calm _handle_for_range.
Proof. handler_calm_tac _handle_for_range. Qed.
Lemma _handle_foreach_calm : handler_calm _handle_foreach.
Proof. handler_calm_tac _handle_foreach. Qed.
Lemma _handle_switch_calm : handler_calm _handle_switch.
Proof. handler_calm_tac _handle_switch. Qed.
Lemma _handle_switch_case_calm : handler_calm _handle_switch_case.
Proof.
  intros m indent s Hpending; split.
  - intros e H. unfold _handle_switch_case, done in H.
    destruct (case_pending s); run_raise H.
  - intros b s' H. unfold _handle_switch_case, done in H.
    destruct (case_pending s); run_handler H; inversion H; subst; clear H;
      exact Hpending.
Qed.
Lemma _handle_switch_default_calm : handler_calm _handle_switch_default.
Proof.
  intros m indent s Hpending; split.
  - intros e H. unfold _handle_switch_default, done in H.
    destruct (case_pending s); run_raise H.
  - intros b s' H. unfold _handle_switch_default, done in H.
    destruct (case_pending s); run_handler H; inversion H; subst; clear H;
      exact Hpending.
Qed.
Lemma _handle_function_call_calm : handler_calm _handle_function_call.
Proof. handler_calm_tac _handle_function_call. Qed.

Lemma do_pattern_needs_do (text : string) :
  Py.startswith "do:" text = false -> Re.match_ p_do text = None.
Proof.
  intros H. unfold Re.match_.
  assert (E : p_do = [Bol; Chr "d"; Chr "o"; Chr ":"; Eol]) by reflexivity.
  rewrite E. cbn [rmatch].
  destruct text as [|c1 [|c2 [|c3 rest]]];
    repeat match goal with
      | |- context [Ascii.eqb ?a ?b] => destruct (Ascii.eqb_spec a b); [subst |]
      end; try reflexivity.
  change (String "d" (String "o" (String ":" rest))) with ("do:" ++ rest) in H.
  rewrite startswith_append in H. discriminate H.
Qed.

Lemma handlers_calm : Forall calm_entry handlers.
Proof.
  unfold handlers.
  repeat (apply Forall_cons;
          [first [ left; exact do_pattern_needs_do
                 | right; simpl;
                   auto using _handle_import_calm, _handle_func_calm,
                     _handle_anon_fn_short_calm, _handle_anon_fn_long_calm,
                     _handle_with_calm, _handle_match_assignment_calm,
                     _handle_match_return_calm, _handle_case_calm,
                     _handle_default_calm, _handle_input_calm, _handle_ternary_calm,
                     _handle_while_calm, _handle_constant_calm,
                     _handle_assignment_calm, _handle_return_calm,
                     _handle_break_calm, _handle_continue_calm, _handle_pass_calm,
                     _handle_print_calm, _handle_if_calm, _handle_elif_calm,
                     _handle_else_calm, _handle_for_range_calm,
                     _handle_foreach_calm, _handle_switch_calm,
                     _handle_switch_case_calm, _handle_switch_default_calm,
                     _handle_function_call_calm ] |]).
  apply Forall_nil.
Qed.

Lemma dispatch_calm (hs : list (pattern * handler)) (text : string) (indent : Z)
  (s : DSLConverter) :
  Forall calm_entry hs ->
  Py.startswith "do:" text = false ->
  do_while_pending s = false ->
  (forall e, dispatch hs text indent s = Raise e -> benign e)
  /\ (forall b s', dispatch hs text indent s = Ok (b, s') ->
                   do_while_pending s' = false).
Proof.
  intros Hall Htext Hp. induction Hall as [|[p h] hs Hh Hhs IH]; simpl.
  - split; [intros e H; discriminate H | intros b s' H; now inversion H; subst].
  - destruct (match_ p text) as [m|] eqn:Hm; [| exact IH].
    destruct Hh as [Hno | Hcalm].
    + simpl in Hno. rewrite (Hno text Htext) in Hm. discriminate Hm.
    + exact (Hcalm m indent s Hp).
Qed.

Lemma adjust_loop_do_while_pending (indent : Z) (stack : list Z) :
  forall s, do_while_pending (adjust_loop stack indent s) = do_while_pending s.
Proof.
  induction stack as [|level rest IH]; intros s; cbn [adjust_loop]; [reflexivity |].
  destruct (indent <? level); [| reflexivity].
  unfold pop_block_type.
  destruct (block_types (set_indent_stack rest s)) as [|k ks];
    match goal with
    | |- context [if ?c then _ else _] => destruct c
    end; rewrite IH;
    rewrite ?(proj2 (proj2 (proj2 (emit_closer_frame _ _ _)))),
      ?(proj2 (proj2 (proj2 (finalize_if_open_frame _))));
    reflexivity.
Qed.

Lemma process_line_calm (s : DSLConverter) (line : string) :
  Py.startswith "do:" (Py.strip line) = false ->
  do_while_pending s = false ->
  (forall e, process_line s line = Raise e -> benign e)
  /\ (forall s', process_line s line = Ok s' -> do_while_pending s' = false).
Proof.
  intros Htext Hp. unfold process_line. rewrite strip_rstrip.
  destruct (negb (nonempty (Py.strip line))).
  { split; [intros e H; discriminate H | intros s' H; now inversion H; subst]. }
  destruct (Py.startswith "#" (Py.strip line)).
  { split; [intros e H; discriminate H | intros s' H; now inversion H; subst]. }
  pose proof (adjust_loop_do_while_pending (indent_of line) (indent_stack s) s) as Hadj.
  fold (_adjust_indent (indent_of line) s) in Hadj. rewrite Hp in Hadj.
  destruct (dispatch_calm handlers (Py.strip line) (indent_of line)
              (_adjust_indent (indent_of line) s) handlers_calm Htext Hadj)
    as [Hraise Hok].
  destruct (dispatch handlers (Py.strip line) (indent_of line)
              (_adjust_indent (indent_of line) s)) as [[b s2]|e0]; simpl.
  - specialize (Hok b s2 eq_refl). destruct b.
    + split; [intros e H; discriminate H | intros s' H; now inversion H; subst].
    + destruct (Py.endswith ":" (Py.strip line)).
      * split; [intros e H; discriminate H | intros s' H; now inversion H; subst].
      * destruct (_replace_vars s2 (Py.strip line)) eqn:E; simpl.
        -- split; [intros e H; discriminate H | intros s' H; now inversion H; subst].
        -- split; [| intros s' H; discriminate H].
           intros e1 H. inversion H; subst. eapply replace_vars_benign; exact E.
  - split; [| intros s' H; discriminate H].
    intros e H. inversion H; subst. now apply Hraise.
Qed.

Lemma run_lines_calm (lines : list string) :
  Forall (fun line => Py.startswith "do:" (Py.strip line) = false) lines ->
  forall s e,
    do_while_pending s = false ->
    run_lines lines s = Raise e -> benign e.
Proof.
  induction 1 as [|line lines Hline Hlines IH]; intros s e Hp H; simpl in H;
    [discriminate H |].
  destruct (process_line_calm s line Hline Hp) as [Hraise Hok].
  destruct (process_line s line) as [s1|e1]; simpl in H.
  - eapply IH; [| exact H]. now apply Hok.
  - inversion H; subst. now apply Hraise.
Qed.

(** X6: on a text none of whose lines begins, after its indentation, with
    [do:], [convert] never raises [UnboundLocalError]: if it raises at
    all, the exception is the [IndexError] or the [RecursionError] of the
    expression rewriter. *)
Theorem convert_without_do_raises_no_unbound_local
  (engine : DSLConverter) (code : string) (e : exn) :
  Forall (fun line => Py.startswith "do:" (Py.strip line) = false)
    (Py.splitlines code) ->
  convert engine code = Raise e ->
  e = IndexError \/ e = RecursionError.
Proof.
  intros Hlines H. unfold convert in H.
  destruct (run_lines (Py.splitlines code) (reinit engine)) as [s|e1] eqn:Hrun;
    simpl in H; [discriminate H |].
  inversion H; subst. eapply run_lines_calm; [exact Hlines | | exact Hrun].
  reflexivity.
Qed.

Lemma convert_without_do_raises_no_unbound_local_witness :
  IndexError = IndexError \/ IndexError = RecursionError.
Proof.
  apply (convert_without_do_raises_no_unbound_local __init__
           ("x = f" ++ Py.DQ ++ Py.DQ) IndexError).
  - vm_compute. repeat constructor.
  - vm_compute. reflexivity.
Defined.

(** ** F-strings *)

Lemma f_string_loop_keeps_parts (rv : string -> result string) :
  forall content parts current in_placeholder,
    parts <> [] \/ current <> "" ->
    (exists parts' current' ph',
        f_string_loop rv content parts current in_placeholder
        = Ok (parts', current', ph')
        /\ (parts' <> [] \/ current' <> ""))
    \/ (exists e x, f_string_loop rv content parts current in_placeholder = Raise e
                    /\ rv x = Raise e).
Proof.
  induction content as [|c content IH]; intros parts current ph Hgood;
    cbn [f_string_loop].
  - left. eexists _, _, _. split; [reflexivity | exact Hgood].
  - destruct (Ascii.eqb c "{" && negb ph).
    + destruct current as [|a current]; cbn [nonempty].
      * apply IH. destruct Hgood as [H | H]; [now left | contradiction].
      * apply IH. left. now destruct parts.
    + destruct (Ascii.eqb c "}" && ph).
      * destruct (rv (Py.strip current)) as [y|e] eqn:E; simpl.
        -- apply IH. left. now destruct parts.
        -- right. exists e, (Py.strip current). split; [reflexivity | exact E].
      * apply IH. right. unfold snoc. now destruct current.
Qed.

(** X7: [_convert_f_string] on a text that starts as an f-string raises
    [IndexError] when the text between the quotes is empty or is a single
    opening brace; on every other f-string an exception can only come from
    the rewriting of one of its placeholders. *)
Theorem f_string_index_error_exactly_when_no_part
  (rv : string -> result string) (s : string) :
  Py.startswith ("f" ++ Py.DQ) s || Py.startswith "f'" s = true ->
  (f_string_content s = "" \/ f_string_content s = "{" ->
   _convert_f_string_with rv s = Raise IndexError)
  /\ (f_string_content s <> "" -> f_string_content s <> "{" ->
      forall e, _convert_f_string_with rv s = Raise e -> exists x, rv x = Raise e).
Proof.
  intros Hf. unfold _convert_f_string_with, f_string_content. rewrite Hf.
  set (content := Py.drop_last (Py.drop 2 s)). split.
  - intros [-> | ->]; reflexivity.
  - intros H1 H2 e H.
    assert (Hloop :
              (exists parts' current' ph',
                  f_string_loop rv content [] "" false = Ok (parts', current', ph')
                  /\ (parts' <> [] \/ current' <> ""))
              \/ (exists e x, f_string_loop rv content [] "" false = Raise e
                              /\ rv x = Raise e)).
    { destruct content as [|c rest]; [contradiction |]. cbn [f_string_loop].
      destruct (Ascii.eqb_spec c "{") as [-> |Hc]; cbn [andb negb nonempty].
      - destruct rest as [|d rest]; [contradiction |]. cbn [f_string_loop].
        rewrite andb_false_r, andb_true_r.
        destruct (Ascii.eqb d "}").
        + destruct (rv (Py.strip "")) as [y|e0] eqn:E; simpl.
          * apply f_string_loop_keeps_parts. left. discriminate.
          * right. exists e0, (Py.strip ""). split; [reflexivity | exact E].
        + apply f_string_loop_keeps_parts. right. discriminate.
      - rewrite andb_false_r. apply f_string_loop_keeps_parts. right. discriminate. }
    destruct Hloop as [(parts & current & ph & Hl & Hgood) | (e0 & x & Hl & Hx)];
      rewrite Hl in H; simpl in H.
    + destruct current as [|a current]; cbn [nonempty] in H.
      * simpl in H. destruct Hgood as [Hp | Hc]; [| contradiction].
        destruct (1 <? Z.of_nat (length parts)); [discriminate H |].
        destruct parts; [contradiction | discriminate H].
      * destruct ph.
        -- destruct (rv (Py.strip (String a current))) as [y|e1] eqn:E; simpl in H.
           ++ destruct (1 <? Z.of_nat (length (parts ++ [y])%list)); [discriminate H |].
              destruct parts; discriminate H.
           ++ inversion H; subst. eexists. exact E.
        -- simpl in H.
           destruct (1 <? Z.of_nat (length (parts ++ [quote_literal (String a current)])%list));
             [discriminate H |].
           destruct parts; discriminate H.
    + inversion H; subst. exists x. exact Hx.
Qed.

Lemma f_string_index_error_exactly_when_no_part_witness :
  _convert_f_string_with (fun x => Ok x) ("f" ++ Py.DQ ++ "{" ++ Py.DQ) = Raise IndexError.
Proof.
  apply (f_string_index_error_exactly_when_no_part (fun x => Ok x)
           ("f" ++ Py.DQ ++ "{" ++ Py.DQ)).
  - reflexivity.
  - right. reflexivity.
Defined.

(** ** The rewriter reads the engine through its two sets of names *)

Lemma f_string_loop_ext (rv rv' : string -> result string) :
  (forall x, rv x = rv' x) ->
  forall content parts current in_placeholder,
    f_string_loop rv content parts current in_placeholder
    = f_string_loop rv' content parts current in_placeholder.
Proof.
  intros Hrv. induction content as [|c content IH]; intros parts current ph;
    cbn [f_string_loop]; [reflexivity |].
  rewrite Hrv. destruct (Ascii.eqb c "{" && negb ph).
  - destruct (nonempty current); apply IH.
  - destruct (Ascii.eqb c "}" && ph); [| apply IH].
    destruct (rv' (Py.strip current)); simpl; [apply IH | reflexivity].
Qed.

Lemma convert_f_string_with_ext (rv rv' : string -> result string) (s : string) :
  (forall x, rv x = rv' x) ->
  _convert_f_string_with rv s = _convert_f_string_with rv' s.
Proof.
  intros Hrv. unfold _convert_f_string_with.
  destruct (Py.startswith ("f" ++ Py.DQ) s || Py.startswith "f'" s); [| reflexivity].
  rewrite (f_string_loop_ext rv rv' Hrv).
  destruct (f_string_loop rv' (Py.drop_last (Py.drop 2 s)) [] "" false)
    as [[[parts current] ph]|e]; simpl; [| reflexivity].
  now rewrite Hrv.
Qed.

Lemma sigil_token_same_names (s t : DSLConverter) (tok : string) :
  same_names s t ->
  sigil_token (known_vars s) (known_constants s) tok
  = sigil_token (known_vars t) (known_constants t) tok.
Proof. intros [Hv Hc]. unfold sigil_token. now rewrite Hv, Hc. Qed.

Lemma rewrite_part_same_names (s t : DSLConverter) (part : string) :
  same_names s t -> rewrite_part s part = rewrite_part t part.
Proof.
  intros H. rewrite !rewrite_part_is_sigil_spec. unfold sigil_spec.
  destruct (is_string_literal part); [reflexivity |].
  do 2 f_equal. apply map_ext. intros tok. now apply sigil_token_same_names.
Qed.

Lemma replace_vars_at_same_names (s t : DSLConverter) :
  same_names s t ->
  forall depth expr, _replace_vars_at depth s expr = _replace_vars_at depth t expr.
Proof.
  intros H. induction depth as [|d IH]; intros expr; cbn [_replace_vars_at];
    [reflexivity |].
  destruct (Py.startswith ("f" ++ Py.DQ) (rewrite_idioms expr)
            || Py.startswith "f'" (rewrite_idioms expr)).
  - apply convert_f_string_with_ext. exact IH.
  - do 2 f_equal. apply map_ext. intros part. now apply rewrite_part_same_names.
Qed.

Lemma mapM_ext {A B : Type} (f g : A -> result B) (l : list A) :
  (forall x, f x = g x) -> mapM f l = mapM g l.
Proof.
  intros H. induction l as [|x l IH]; simpl; [reflexivity |]. now rewrite H, IH.
Qed.

Lemma map_entries_same_names (s t : DSLConverter) :
  same_names s t ->
  forall parts kv, map_entries s parts kv = map_entries t parts kv.
Proof.
  intros H. induction parts as [|p parts IH]; intros kv; cbn [map_entries];
    [reflexivity |].
  destruct (negb (Py.contains ":" p)); [apply IH |].
  destruct (Py.split1 ":" p) as [k val]. unfold _replace_vars.
  rewrite (replace_vars_at_same_names s t H).
  destruct (_replace_vars_at recursion_limit t (Py.strip val)); simpl;
    [apply IH | reflexivity].
Qed.

Lemma same_names_frame (s t : DSLConverter) :
  known_vars t = known_vars s -> known_constants t = known_constants s ->
  same_names t s.
Proof. intros Hv Hc. split; intros n; now rewrite ?Hv, ?Hc. Qed.

Lemma rewriter_names_frame (t s : DSLConverter) (expr : string) :
  known_vars t = known_vars s -> known_constants t = known_constants s ->
  _replace_vars t expr = _replace_vars s expr
  /\ _convert_value t expr = _convert_value s expr.
Proof.
  intros Hv Hc. pose proof (same_names_frame s t Hv Hc) as H. split.
  - apply replace_vars_at_same_names, H.
  - unfold _convert_value.
    rewrite (mapM_ext (_replace_vars t) (_replace_vars s))
      by (intros x; apply replace_vars_at_same_names, H).
    rewrite (map_entries_same_names t s H).
    unfold _replace_vars. now rewrite (replace_vars_at_same_names t s H).
Qed.

(** X12: the expression rewriter [_replace_vars], the f-string converter
    and the value converter read the engine only through the membership of
    names in [known_vars] and [known_constants]: on two engines that know
    the same names they return the same text or raise the same exception,
    whatever the stacks, the flags and the output of the engines are. *)
Theorem rewriter_reads_only_the_known_names (s t : DSLConverter) (expr : string) :
  same_names s t ->
  _replace_vars s expr = _replace_vars t expr
  /\ _convert_f_string s expr = _convert_f_string t expr
  /\ _convert_value s expr = _convert_value t expr.
Proof.
  intros H. split; [apply replace_vars_at_same_names, H |].
  split.
  - unfold _convert_f_string. apply convert_f_string_with_ext.
    intros x. apply replace_vars_at_same_names, H.
  - unfold _convert_value.
    rewrite (mapM_ext (_replace_vars s) (_replace_vars t))
      by (intros x; apply replace_vars_at_same_names, H).
    rewrite (map_entries_same_names s t H).
    unfold _replace_vars. now rewrite (replace_vars_at_same_names s t H).
Qed.

Lemma rewriter_reads_only_the_known_names_witness :
  _replace_vars (add_var "b" (add_var "a" __init__)) "a + b"
  = _replace_vars (push_block 4 BIf (add_var "a" (add_var "b" __init__))) "a + b".
Proof.
  apply (rewriter_reads_only_the_known_names
           (add_var "b" (add_var "a" __init__))
           (push_block 4 BIf (add_var "a" (add_var "b" __init__))) "a + b").
  split; intros n; simpl; [| reflexivity].
  destruct (String.eqb n "b"), (String.eqb n "a"); reflexivity.
Defined.

(** ** Resource scopes *)

Lemma with_vars_get_head (level : Z) (v : Z * string) (d : list (Z * (Z * string))) :
  with_vars_get level ((level, v) :: d) = Some v.
Proof. simpl. now rewrite Z.eqb_refl. Qed.

(** X8: a [with] line accepted at indentation [indent], followed by a line
    at the same indentation, is a round trip on the stacks: the action
    pushes the level [indent + 4] with the kind [with] and records the
    variable under that level, and [_adjust_indent] for the next line pops
    exactly that block and emits the five lines of the [finally] clause
    that closes the variable, at the indentation of the [with] line. The
    variable stays a known variable. *)
Theorem with_block_closes_with_its_finally_clause
  (m : captures) (indent : Z) (s s1 : DSLConverter) (b : bool) :
  _handle_with m indent s = Ok (b, s1) ->
  truthy (current_match_var s) = false ->
  top_le indent s ->
  indent_stack s1 = indent + 4 :: indent_stack s
  /\ block_types s1 = BWith :: block_types s
  /\ with_vars_get (indent + 4) (with_vars s1) = Some (indent, group 2 m)
  /\ php_lines (_adjust_indent indent s1)
     = (php_lines s1 ++ finally_clause indent (group 2 m))%list
  /\ indent_stack (_adjust_indent indent s1) = indent_stack s
  /\ block_types (_adjust_indent indent s1) = block_types s
  /\ In (group 2 m) (known_vars (_adjust_indent indent s1)).
Proof.
  intros H Hidle Htop. unfold _handle_with, done in H. run_handler H.
  inversion H; subst; clear H.
  split; [reflexivity |]. split; [reflexivity |].
  split; [apply with_vars_get_head |].
  unfold _adjust_indent. cbn [indent_stack set_with_vars add_var set_known_vars
                                push_block set_block_types set_indent_stack].
  cbn [adjust_loop]. rewrite (proj2 (Z.ltb_lt indent (indent + 4))) by lia.
  unfold pop_block_type.
  cbn [block_types set_with_vars add_var set_known_vars push_block set_block_types
         set_indent_stack].
  unfold finalize_if_open.
  cbn [current_match_var set_with_vars add_var set_known_vars push_block
         set_block_types set_indent_stack emit set_php_lines].
  rewrite Hidle. cbn [is_do andb]. unfold emit_closer.
  cbn [with_vars set_with_vars add_var set_known_vars push_block
         set_block_types set_indent_stack emit set_php_lines].
  rewrite with_vars_get_head.
  assert (Hnoop : forall t : DSLConverter,
             indent_stack t = indent_stack s ->
             adjust_loop (indent_stack s) indent t = t).
  { intros t Ht. rewrite <- Ht. apply adjust_indent_noop.
    unfold top_le in *. now rewrite Ht. }
  match goal with
  | |- context [adjust_loop ?st indent ?t] =>
      change (adjust_loop st indent t) with (adjust_loop (indent_stack s) indent t);
      rewrite (Hnoop t) by reflexivity
  end.
  unfold finally_clause. simpl. rewrite <- !app_assoc. simpl.
  repeat split; auto.
Qed.

Lemma with_block_closes_with_its_finally_clause_witness :
  exists s1,
    _handle_with [(1%nat, "open(p)"); (2%nat, "h")] 0 (reinit __init__) = Ok (true, s1)
    /\ php_lines (_adjust_indent 0 s1)
       = (banner ++ ["$h = fopen(p);"; "try {"; "} finally {";
                     "    if (isset($h) && is_resource($h)) {";
                     "        fclose($h);"; "    }"; "}"])%list.
Proof.
  exists (set_with_vars [(4, (0, "h"))]
            (add_var "h"
               (push_block 4 BWith
                  (emit "try {" (emit "$h = fopen(p);" (reinit __init__)))))).
  split; [vm_compute; reflexivity |].
  destruct (with_block_closes_with_its_finally_clause
              [(1%nat, "open(p)"); (2%nat, "h")] 0 (reinit __init__)
              (set_with_vars [(4, (0, "h"))]
                 (add_var "h"
                    (push_block 4 BWith
                       (emit "try {" (emit "$h = fopen(p);" (reinit __init__))))))
              true)
    as (_ & _ & _ & H & _).
  - vm_compute. reflexivity.
  - reflexivity.
  - vm_compute. discriminate.
  - rewrite H. vm_compute. reflexivity.
Defined.

(** X9: after any prefix of the input lines has been processed by
    [convert], every [with] block on the stacks has its level recorded in
    [with_vars]; so closing the block at the top of the stacks, when it is
    a [with] block, always emits the five lines of its [finally] clause,
    never nothing. *)
Theorem open_with_block_has_its_finally_clause
  (engine : DSLConverter) (code : string) (n : nat) (s : DSLConverter)
  (level : Z) (levels : list Z) (kinds : list block_kind) :
  run_lines (firstn n (Py.splitlines code)) (reinit engine) = Ok s ->
  indent_stack s = level :: levels ->
  block_types s = BWith :: kinds ->
  exists base name,
    with_vars_get level (with_vars s) = Some (base, name)
    /\ php_lines (emit_closer level (Some BWith) s)
       = (php_lines s ++ finally_clause base name)%list.
Proof.
  intros H Hi Hb. eapply run_lines_invariant in H; [| apply reinit_invariant].
  destruct H as [_ Hreg]. unfold with_registered in Hreg.
  rewrite Hi, Hb in Hreg. simpl in Hreg. inversion Hreg as [|x l Hhead _]; subst.
  simpl in Hhead. specialize (Hhead eq_refl).
  destruct (with_vars_get level (with_vars s)) as [[base name]|] eqn:E;
    [| contradiction].
  exists base, name. split; [reflexivity |].
  unfold emit_closer. rewrite E. unfold finally_clause. simpl.
  rewrite <- !app_assoc. reflexivity.
Qed.

Lemma open_with_block_has_its_finally_clause_witness :
  exists base name,
    with_vars_get 4 [(4, (0, "h"))] = Some (base, name)
    /\ (banner ++ ["$h = fopen(p);"; "try {"; "} finally {";
                   "    if (isset($h) && is_resource($h)) {";
                   "        fclose($h);"; "    }"; "}"])%list
       = ((banner ++ ["$h = fopen(p);"; "try {"]) ++ finally_clause base name)%list.
Proof.
  apply (open_with_block_has_its_finally_clause __init__ "with open(p) as h:" 1
           (set_with_vars [(4, (0, "h"))]
              (add_var "h"
                 (push_block 4 BWith
                    (emit "try {" (emit "$h = fopen(p);" (reinit __init__))))))
           4 [0] []);
    vm_compute; reflexivity.
Defined.

(** ** The [do] block and its [while] clause *)

Lemma handle_while_pending (m : captures) (indent level : Z) (levels : list Z)
  (s : DSLConverter) :
  do_while_pending s = true ->
  indent_stack s = level :: levels ->
  _handle_while m indent s
  = bind (_replace_vars (snd (pop_block_type (set_indent_stack levels s)))
            (Py.strip (group 1 m)))
      (fun c =>
         Ok (true,
             set_do_while_pending false
               (emit (Py.spaces (level - 4) ++ "} while (" ++ c ++ ");")
                  (snd (pop_block_type (set_indent_stack levels s)))))).
Proof.
  intros Hp Hs. unfold _handle_while, done. rewrite Hp, Hs.
  destruct (pop_block_type (set_indent_stack levels s)). reflexivity.
Qed.

Lemma pop_block_type_frame (s : DSLConverter) :
  indent_stack (snd (pop_block_type s)) = indent_stack s
  /\ block_types (snd (pop_block_type s)) = tl (block_types s)
  /\ php_lines (snd (pop_block_type s)) = php_lines s
  /\ known_vars (snd (pop_block_type s)) = known_vars s
  /\ known_constants (snd (pop_block_type s)) = known_constants s.
Proof.
  unfold pop_block_type. destruct (block_types s) eqn:E; simpl; rewrite ?E; auto.
Qed.

(** X13: a [do:] line accepted at indentation [indent], closed by a
    [while] clause on a line indented like the body of the block (at least
    [indent + 4], so that [_adjust_indent] pops nothing), is a round trip
    on the stacks: the [while] action pops the level and the kind that the
    [do] action pushed, clears the pending flag and emits the closing line
    at the indentation of the [do:] line, with the condition rewritten
    under the names known before. *)
Theorem do_block_closed_by_indented_while
  (m m' : captures) (indent indent' : Z) (s s1 s2 : DSLConverter) (b1 b2 : bool) :
  _handle_do m indent s = Ok (b1, s1) ->
  indent + 4 <= indent' ->
  _handle_while m' indent' (_adjust_indent indent' s1) = Ok (b2, s2) ->
  indent_stack s2 = indent_stack s
  /\ block_types s2 = block_types s
  /\ do_while_pending s2 = false
  /\ exists cond,
       _replace_vars s (Py.strip (group 1 m')) = Ok cond
       /\ php_lines s2
          = (php_lines s ++ [(Py.spaces indent ++ "do {")%string;
                             (Py.spaces indent ++ "} while (" ++ cond ++ ");")%string])%list.
Proof.
  intros Hdo Hle Hwh. unfold _handle_do, done in Hdo. inversion Hdo; subst; clear Hdo.
  set (s1 := set_do_while_pending true
               (push_block (indent + 4) BDo (emit (Py.spaces indent ++ "do {") s))) in *.
  rewrite (adjust_indent_noop indent' s1) in Hwh by (unfold top_le; simpl; lia).
  rewrite (handle_while_pending m' indent' (indent + 4) (indent_stack s) s1 eq_refl eq_refl)
    in Hwh.
  set (t := snd (pop_block_type (set_indent_stack (indent_stack s) s1))) in *.
  destruct (pop_block_type_frame (set_indent_stack (indent_stack s) s1))
    as (Hi & Hb & Hl & Hv & Hc). fold t in Hi, Hb, Hl, Hv, Hc.
  rewrite (proj1 (rewriter_names_frame t s (Py.strip (group 1 m')) Hv Hc)) in Hwh.
  destruct (_replace_vars s (Py.strip (group 1 m'))) as [cond|e];
    cbn [bind] in Hwh; [| discriminate Hwh].
  inversion Hwh; subst s2; clear Hwh.
  cbn [indent_stack block_types do_while_pending php_lines set_do_while_pending emit
         set_php_lines].
  rewrite Hi, Hb, Hl. split; [reflexivity |]. split; [reflexivity |].
  split; [reflexivity |]. exists cond. split; [reflexivity |].
  cbn [php_lines s1 set_do_while_pending push_block set_block_types set_indent_stack
         emit set_php_lines].
  rewrite Z.add_simpl_r, <- app_assoc. reflexivity.
Qed.

Lemma do_block_closed_by_indented_while_witness :
  exists s2,
    _handle_while [(1%nat, "a")] 4
      (_adjust_indent 4
         (set_do_while_pending true (push_block 4 BDo (emit "do {" (reinit __init__)))))
    = Ok (true, s2)
    /\ indent_stack s2 = [0] /\ block_types s2 = [].
Proof.
  exists (set_do_while_pending false
            (emit "} while (a);"
               (set_block_types [] (set_indent_stack [0]
                  (set_do_while_pending true
                     (push_block 4 BDo (emit "do {" (reinit __init__)))))))).
  split; [vm_compute; reflexivity |].
  destruct (do_block_closed_by_indented_while [] [(1%nat, "a")] 0 4 (reinit __init__)
              (set_do_while_pending true (push_block 4 BDo (emit "do {" (reinit __init__))))
              (set_do_while_pending false
                 (emit "} while (a);"
                    (set_block_types [] (set_indent_stack [0]
                       (set_do_while_pending true
                          (push_block 4 BDo (emit "do {" (reinit __init__))))))))
              true true)
    as (H1 & H2 & _).
  - vm_compute. reflexivity.
  - lia.
  - vm_compute. reflexivity.
  - split; [rewrite H1 | rewrite H2]; reflexivity.
Defined.

(** X14: when the [while] clause stands at the indentation of its [do:]
    line or further left, [_adjust_indent] has already popped the level of
    the [do] block, without a closing line, before the [while] action pops
    once more: the level and the kind of the enclosing block are removed as
    well, and the closing line is indented by that enclosing level minus
    four. *)
Theorem while_at_do_indentation_pops_enclosing_level
  (m m' : captures) (indent indent' level : Z) (levels : list Z)
  (s s1 s2 : DSLConverter) (b1 b2 : bool) :
  _handle_do m indent s = Ok (b1, s1) ->
  truthy (current_match_var s) = false ->
  indent_stack s = level :: levels ->
  level <= indent' < indent + 4 ->
  _handle_while m' indent' (_adjust_indent indent' s1) = Ok (b2, s2) ->
  indent_stack s2 = levels
  /\ block_types s2 = tl (block_types s)
  /\ do_while_pending s2 = false
  /\ exists cond,
       _replace_vars s (Py.strip (group 1 m')) = Ok cond
       /\ php_lines s2
          = (php_lines s ++ [(Py.spaces indent ++ "do {")%string;
                             (Py.spaces (level - 4) ++ "} while (" ++ cond ++ ");")%string])%list.
Proof.
  intros Hdo Hidle Hstack Hle Hwh.
  unfold _handle_do, done in Hdo. inversion Hdo; subst; clear Hdo.
  set (s1 := set_do_while_pending true
               (push_block (indent + 4) BDo (emit (Py.spaces indent ++ "do {") s))) in *.
  assert (Hadj : _adjust_indent indent' s1
                 = set_block_types (block_types s)
                     (set_indent_stack (indent_stack s) s1)).
  { unfold _adjust_indent.
    change (indent_stack s1) with (indent + 4 :: indent_stack s).
    cbn [adjust_loop]. rewrite (proj2 (Z.ltb_lt indent' (indent + 4))) by lia.
    unfold pop_block_type, finalize_if_open.
    change (block_types (set_indent_stack (indent_stack s) s1))
      with (BDo :: block_types s).
    cbv beta iota.
    change (current_match_var
              (set_block_types (block_types s) (set_indent_stack (indent_stack s) s1)))
      with (current_match_var s).
    rewrite Hidle. cbn [is_do andb].
    change (do_while_pending
              (set_block_types (block_types s) (set_indent_stack (indent_stack s) s1)))
      with true.
    cbv iota. rewrite Hstack. cbn [adjust_loop].
    now rewrite (proj2 (Z.ltb_ge indent' level)) by lia. }
  rewrite Hadj in Hwh.
  set (s1' := set_block_types (block_types s) (set_indent_stack (indent_stack s) s1)) in *.
  rewrite (handle_while_pending m' indent' level levels s1' eq_refl Hstack) in Hwh.
  set (t := snd (pop_block_type (set_indent_stack levels s1'))) in *.
  destruct (pop_block_type_frame (set_indent_stack levels s1'))
    as (Hi & Hb & Hl & Hv & Hc). fold t in Hi, Hb, Hl, Hv, Hc.
  rewrite (proj1 (rewriter_names_frame t s (Py.strip (group 1 m')) Hv Hc)) in Hwh.
  destruct (_replace_vars s (Py.strip (group 1 m'))) as [cond|e];
    cbn [bind] in Hwh; [| discriminate Hwh].
  inversion Hwh; subst s2; clear Hwh.
  cbn [indent_stack block_types do_while_pending php_lines set_do_while_pending emit
         set_php_lines].
  rewrite Hi, Hb, Hl. split; [reflexivity |]. split; [reflexivity |].
  split; [reflexivity |]. exists cond. split; [reflexivity |].
  cbn [php_lines s1' s1 set_do_while_pending push_block set_block_types set_indent_stack
         emit set_php_lines].
  rewrite <- app_assoc. reflexivity.
Qed.

Lemma while_at_do_indentation_pops_enclosing_level_witness :
  exists s2,
    _handle_while [(1%nat, "a")] 0
      (_adjust_indent 0
         (set_do_while_pending true (push_block 4 BDo (emit "do {" (reinit __init__)))))
    = Ok (true, s2)
    /\ indent_stack s2 = [].
Proof.
  exists (set_do_while_pending false
            (emit "} while (a);"
               (set_indent_stack []
                  (set_block_types [] (set_indent_stack [0]
                     (set_do_while_pending true
                        (push_block 4 BDo (emit "do {" (reinit __init__))))))))).
  split; [vm_compute; reflexivity |].
  destruct (while_at_do_indentation_pops_enclosing_level [] [(1%nat, "a")] 0 0 0 []
              (reinit __init__)
              (set_do_while_pending true (push_block 4 BDo (emit "do {" (reinit __init__))))
              (set_do_while_pending false
                 (emit "} while (a);"
                    (set_indent_stack []
                       (set_block_types [] (set_indent_stack [0]
                          (set_do_while_pending true
                             (push_block 4 BDo (emit "do {" (reinit __init__)))))))))
              true true)
    as (H1 & _).
  - vm_compute. reflexivity.
  - reflexivity.
  - reflexivity.
  - lia.
  - vm_compute. reflexivity.
  - exact H1.
Defined.

(** ** The sigil rule on known and unknown names *)

Lemma concat_cons (x : string) (l : list string) :
  String.concat "" (x :: l) = x ++ String.concat "" l.
Proof. destruct l; simpl; [now rewrite append_empty_r | reflexivity]. Qed.

Lemma tokens_aux_concat (s : string) :
  forall cur, String.concat "" (tokens_aux cur s) = cur ++ s.
Proof.
  induction s as [|c s IH]; intros cur; cbn [tokens_aux].
  - destruct cur; simpl; [reflexivity | now rewrite append_empty_r].
  - destruct (Py.is_word c).
    + rewrite IH. unfold snoc. now rewrite append_assoc.
    + destruct cur as [|a cur]; cbn [nonempty app]; rewrite !concat_cons, IH;
        cbn [append]; reflexivity.
Qed.

Lemma identifier_is_word_run (name : string) :
  is_identifier name = true -> Py.forallb_chars Py.is_word name = true.
Proof.
  destruct name as [|c r]; [discriminate |]. cbn [is_identifier Py.forallb_chars].
  intros H. apply andb_true_iff in H. destruct H as [Hc Hr].
  apply andb_true_iff. split; [now apply alnum_word, alpha_alnum |].
  induction r as [|a r IH]; [reflexivity |]. cbn [Py.forallb_chars] in *.
  apply andb_true_iff in Hr. destruct Hr as [Ha Hr].
  apply andb_true_iff. split; [now apply alnum_word | now apply IH].
Qed.

Lemma tokens_identifier (name : string) :
  is_identifier name = true -> tokens name = [name].
Proof.
  intros H. unfold tokens.
  rewrite <- (append_empty_r name) at 1.
  rewrite (tokens_aux_run name "" "" (identifier_is_word_run name H) eq_refl).
  - reflexivity.
  - destruct name; [discriminate H | reflexivity].
Qed.

(** X10: the substitution of the identifier pattern in [_replace_vars]
    changes a part of an expression only at known variables. A part in
    which every identifier that is a known variable is a known constant
    too (so every part when no variable is known) comes back unchanged,
    character for character; an identifier that is a known variable and no
    known constant comes back with the sigil; an identifier that is a known
    constant comes back bare even when it is a known variable as well. *)
Theorem sigil_exactly_on_known_variables (self : DSLConverter) :
  (forall part,
      (forall tok, In tok (tokens part) -> is_identifier tok = true ->
                   mem tok (known_vars self) = true ->
                   mem tok (known_constants self) = true) ->
      Re.sub re_identifier (sigil self) part = part)
  /\ (forall name,
         is_identifier name = true ->
         mem name (known_vars self) = true ->
         mem name (known_constants self) = false ->
         Re.sub re_identifier (sigil self) name = "$" ++ name)
  /\ (forall name,
         is_identifier name = true ->
         mem name (known_constants self) = true ->
         Re.sub re_identifier (sigil self) name = name).
Proof.
  split; [| split].
  - intros part H. rewrite sub_identifier_is_sigil_spec. unfold sigil_spec.
    rewrite (map_ext_in _ (fun tok => tok)).
    + rewrite map_id. apply tokens_aux_concat.
    + intros tok Hin. unfold sigil_token.
      destruct (is_identifier tok) eqn:Hid; [| reflexivity].
      destruct (mem tok (known_vars self)) eqn:Hv; [| reflexivity].
      now rewrite (H tok Hin Hid Hv).
  - intros name Hid Hv Hc. rewrite sub_identifier_is_sigil_spec. unfold sigil_spec.
    rewrite (tokens_identifier name Hid). cbn [map String.concat].
    unfold sigil_token. now rewrite Hid, Hv, Hc.
  - intros name Hid Hc. rewrite sub_identifier_is_sigil_spec. unfold sigil_spec.
    rewrite (tokens_identifier name Hid). cbn [map String.concat].
    unfold sigil_token. rewrite Hc. cbn [negb]. now rewrite andb_false_r.
Qed.

Lemma sigil_exactly_on_known_variables_witness :
  Re.sub re_identifier (sigil (add_var "n" __init__)) "total + 1" = "total + 1"
  /\ Re.sub re_identifier (sigil (add_var "n" __init__)) "n" = "$n"
  /\ Re.sub re_identifier (sigil (add_constant "N" (add_var "N" __init__))) "N" = "N".
Proof.
  split; [| split].
  - apply (proj1 (sigil_exactly_on_known_variables (add_var "n" __init__))).
    intros tok Hin _ Hv. vm_compute in Hin.
    repeat (destruct Hin as [<- | Hin]; [vm_compute in Hv; discriminate Hv |]).
    contradiction.
  - apply (proj1 (proj2 (sigil_exactly_on_known_variables (add_var "n" __init__))));
      reflexivity.
  - apply (proj2 (proj2 (sigil_exactly_on_known_variables
                           (add_constant "N" (add_var "N" __init__)))));
      reflexivity.
Defined.

(** ** Scalar values *)

Lemma digit_is_no_bracket_or_letter (c : ascii) :
  Py.isdigit_char c = true ->
  c <> "["%char /\ c <> "{"%char
  /\ Py.lower_char c <> "t"%char /\ Py.lower_char c <> "f"%char.
Proof.
  destruct c as [[] [] [] [] [] [] [] []]; vm_compute; intros H;
    first [discriminate H | repeat split; discriminate].
Qed.

Lemma lower_bracket (c : ascii) :
  c = "["%char \/ c = "{"%char ->
  Py.lower_char c <> "t"%char /\ Py.lower_char c <> "f"%char.
Proof. intros [-> | ->]; vm_compute; split; discriminate. Qed.

Lemma startswith_one (a c : ascii) (v : string) :
  c <> a -> Py.startswith (String a "") (String c v) = false.
Proof.
  intros H. destruct (Py.startswith (String a "") (String c v)) eqn:E; [| reflexivity].
  apply startswith_char in E. contradiction.
Qed.

(** X11: [_convert_value] returns a scalar without rewriting it, on every
    engine and without an exception: a value that, stripped, consists of
    digits only is returned as it is written (leading zeros included), and
    a value that, stripped and lowered, is [true] or [false] is returned
    as that lower-case word, whatever the case of its letters. *)
Theorem scalar_value_is_not_rewritten (self : DSLConverter) (value : string) :
  (Py.isdigit (Py.strip value) = true ->
   _convert_value self value = Ok (Py.strip value))
  /\ (Py.lower (Py.strip value) = "true" -> _convert_value self value = Ok "true")
  /\ (Py.lower (Py.strip value) = "false" -> _convert_value self value = Ok "false").
Proof.
  unfold _convert_value. set (v := Py.strip value).
  split; [| split]; intros H.
  - destruct v as [|c r]; [discriminate H |].
    cbn [Py.isdigit Py.forallb_chars] in H. apply andb_true_iff in H.
    destruct H as [Hc Hr].
    destruct (digit_is_no_bracket_or_letter c Hc) as (H1 & H2 & H3 & H4).
    rewrite (startswith_one "[" c r H1), (startswith_one "{" c r H2). cbn [andb].
    unfold Py.lower. cbn [Py.map_chars String.eqb].
    destruct (Ascii.eqb_spec (Py.lower_char c) "t"); [contradiction |].
    destruct (Ascii.eqb_spec (Py.lower_char c) "f"); [contradiction |].
    cbn [Py.isdigit Py.forallb_chars]. now rewrite Hc, Hr.
  - destruct v as [|c r]; [discriminate H |].
    assert (Hc : Py.lower_char c = "t"%char) by (cbn in H; congruence).
    assert (H1 : c <> "["%char)
      by (intros ->; destruct (lower_bracket "[" (or_introl eq_refl)); contradiction).
    assert (H2 : c <> "{"%char)
      by (intros ->; destruct (lower_bracket "{" (or_intror eq_refl)); contradiction).
    rewrite (startswith_one "[" c r H1), (startswith_one "{" c r H2). cbn [andb].
    rewrite H. reflexivity.
  - destruct v as [|c r]; [discriminate H |].
    assert (Hc : Py.lower_char c = "f"%char) by (cbn in H; congruence).
    assert (H1 : c <> "["%char)
      by (intros ->; destruct (lower_bracket "[" (or_introl eq_refl)); contradiction).
    assert (H2 : c <> "{"%char)
      by (intros ->; destruct (lower_bracket "{" (or_intror eq_refl)); contradiction).
    rewrite (startswith_one "[" c r H1), (startswith_one "{" c r H2). cbn [andb].
    rewrite H. reflexivity.
Qed.

Lemma scalar_value_is_not_rewritten_witness :
  _convert_value (add_var "x" __init__) " 007 " = Ok "007"
  /\ _convert_value (add_var "x" __init__) "TRUE" = Ok "true".
Proof.
  split.
  - apply (proj1 (scalar_value_is_not_rewritten (add_var "x" __init__) " 007 ")).
    reflexivity.
  - apply (proj1 (proj2 (scalar_value_is_not_rewritten (add_var "x" __init__) "TRUE"))).
    reflexivity.
Defined.

(** ** Lines that no rule recognizes, and lines that are no statements *)

(** X15: a line that is neither blank nor a comment, that no rule
    recognizes and that ends with a colon opens a generic block, and cannot
    make [convert] raise: after the closing lines of the blocks that its
    indentation ends, exactly one line is emitted, the indentation, the
    text without its colon and an opening brace; the text is not passed
    through [_replace_vars], so no sigil is added to it; the level
    [indent + 4] and the kind [block] are pushed and the sets of names stay
    as they were. *)
Theorem unrecognized_colon_line_opens_generic_block
  (self : DSLConverter) (line : string) :
  nonempty (Py.strip line) = true ->
  Py.startswith "#" (Py.strip line) = false ->
  rule_of (Py.strip line) = None ->
  Py.endswith ":" (Py.strip line) = true ->
  exists st,
    process_line self line = Ok st
    /\ php_lines st
       = (php_lines (_adjust_indent (indent_of line) self)
            ++ [(Py.spaces (indent_of line) ++ Py.drop_last (Py.strip line) ++ " {")%string])%list
    /\ indent_stack st
       = indent_of line + 4 :: indent_stack (_adjust_indent (indent_of line) self)
    /\ block_types st = BBlock :: block_types (_adjust_indent (indent_of line) self)
    /\ known_vars st = known_vars self
    /\ known_constants st = known_constants self.
Proof.
  intros Hne Hnc Hrule Hcolon.
  destruct (adjust_loop_names (indent_of line) (indent_stack self) self) as [Hv Hc].
  fold (_adjust_indent (indent_of line) self) in Hv, Hc.
  eexists. split.
  - unfold process_line. rewrite strip_rstrip, Hne, Hnc. cbn [negb].
    unfold rule_of in Hrule.
    rewrite (dispatch_unrecognized handlers _ _ _ 0%nat Hrule).
    cbn [bind]. rewrite Hcolon. reflexivity.
  - simpl. auto.
Qed.

Lemma unrecognized_colon_line_opens_generic_block_witness :
  exists st,
    process_line (add_var "x" (reinit __init__)) "unless x:" = Ok st
    /\ php_lines st = (banner ++ ["unless x {"])%list
    /\ indent_stack st = [4; 0].
Proof.
  destruct (unrecognized_colon_line_opens_generic_block
              (add_var "x" (reinit __init__)) "unless x:")
    as (st & H1 & H2 & H3 & _); [vm_compute; reflexivity .. |].
  exists st. split; [exact H1 |]. split.
  - rewrite H2. vm_compute. reflexivity.
  - rewrite H3. vm_compute. reflexivity.
Defined.

Lemma process_line_passthrough (s : DSLConverter) (line : string) :
  blank_or_comment line ->
  process_line s line = Ok (emit (passthrough_line line) s).
Proof.
  intros H. unfold process_line, passthrough_line. rewrite strip_rstrip.
  destruct H as [H | H].
  - rewrite H. reflexivity.
  - destruct (Py.strip line) as [|c text] eqn:E; [discriminate H |].
    cbn [nonempty negb]. rewrite H. reflexivity.
Qed.

Lemma run_lines_passthrough (lines : list string) :
  forall s,
    Forall blank_or_comment lines ->
    run_lines lines s = Ok (emit_all (map passthrough_line lines) s).
Proof.
  induction lines as [|line lines IH]; intros s H; cbn [run_lines map].
  - unfold emit_all. rewrite app_nil_r. now destruct s.
  - inversion H as [|x l Hline Hrest]; subst.
    rewrite (process_line_passthrough s line Hline). cbn [bind].
    rewrite (IH _ Hrest). unfold emit_all, emit. simpl.
    now rewrite <- app_assoc.
Qed.

(** X16: on a text whose lines are all blank lines or comment lines,
    [convert] raises nothing and returns the banner followed by one line
    per input line, in order: the empty line for a blank line, the
    indentation and the comment in PHP syntax for a comment line. No block
    is opened or closed and no name is learnt: the engine is as after the
    re-initialization, apart from the output. *)
Theorem convert_of_comments_and_blank_lines (engine : DSLConverter) (code : string) :
  Forall blank_or_comment (Py.splitlines code) ->
  convert engine code
  = Ok (text_of (banner ++ map passthrough_line (Py.splitlines code)),
        emit_all (map passthrough_line (Py.splitlines code)) (reinit engine)).
Proof.
  intros H. unfold convert. rewrite (run_lines_passthrough _ _ H). cbn [bind].
  reflexivity.
Qed.

Lemma convert_of_comments_and_blank_lines_witness :
  convert_text __init__ (text_of ["# head"; ""; "    #  note  "])
  = Ok (text_of (banner ++ ["// head"; ""; "    // note"])).
Proof.
  unfold convert_text.
  rewrite (convert_of_comments_and_blank_lines __init__
             (text_of ["# head"; ""; "    #  note  "])).
  - vm_compute. reflexivity.
  - replace (Py.splitlines (text_of ["# head"; ""; "    #  note  "]))
      with ["# head"; ""; "    #  note  "] by (vm_compute; reflexivity).
    constructor; [right; vm_compute; reflexivity |].
    constructor; [left; vm_compute; reflexivity |].
    constructor; [right; vm_compute; reflexivity | constructor].
Defined.

(** ** Which actions shorten the indentation stack *)

Ltac handler_keeps_tac h :=
  intros m indent s b s' H; unfold h, done in H; run_handler H;
  inversion H; subst; clear H; frame_rw; simpl; lia.

Lemma _handle_import_keeps : handler_keeps_levels _handle_import.
Proof. handler_keeps_tac _handle_import. Qed.
Lemma _handle_func_keeps : handler_keeps_levels _handle_func.
Proof. handler_keeps_tac _handle_func. Qed.
Lemma _handle_anon_fn_short_keeps : handler_keeps_levels _handle_anon_fn_short.
Proof. handler_keeps_tac _handle_anon_fn_short. Qed.
Lemma _handle_anon_fn_long_keeps : handler_keeps_levels _handle_anon_fn_long.
Proof. handler_keeps_tac _handle_anon_fn_long. Qed.
Lemma _handle_with_keeps : handler_keeps_levels _handle_with.
Proof. handler_keeps_tac _handle_with. Qed.
Lemma _handle_match_assignment_keeps : handler_keeps_levels _handle_match_assignment.
Proof. handler_keeps_tac _handle_match_assignment. Qed.
Lemma _handle_match_return_keeps : handler_keeps_levels _handle_match_return.
Proof. handler_keeps_tac _handle_match_return. Qed.
Lemma _handle_case_keeps : handler_keeps_levels _handle_case.
Proof. handler_keeps_tac _handle_case. Qed.
Lemma _handle_default_keeps : handler_keeps_levels _handle_default.
Proof. handler_keeps_tac _handle_default. Qed.
Lemma _handle_input_keeps : handler_keeps_levels _handle_input.
Proof. handler_keeps_tac _handle_input. Qed.
Lemma _handle_ternary_keeps : handler_keeps_levels _handle_ternary.
Proof. handler_keeps_tac _handle_ternary. Qed.
Lemma _handle_do_keeps : handler_keeps_levels _handle_do.
Proof. handler_keeps_tac _handle_do. Qed.
Lemma _handle_constant_keeps : handler_keeps_levels _handle_constant.
Proof. handler_keeps_tac _handle_constant. Qed.
Lemma _handle_assignment_keeps : handler_keeps_levels _handle_assignment.
Proof. handler_keeps_tac _handle_assignment. Qed.
Lemma _handle_return_keeps : handler_keeps_levels _handle_return.
Proof. handler_keeps_tac _handle_return. Qed.
Lemma _handle_break_keeps : handler_keeps_levels _handle_break.
Proof. handler_keeps_tac _handle_break. Qed.
Lemma _handle_continue_keeps : handler_keeps_levels _handle_continue.
Proof. handler_keeps_tac _handle_continue. Qed.
Lemma _handle_pass_keeps : handler_keeps_levels _handle_pass.
Proof. handler_keeps_tac _handle_pass. Qed.
Lemma _handle_print_keeps : handler_keeps_levels _handle_print.
Proof. handler_keeps_tac _handle_print. Qed.
Lemma _handle_if_keeps : handler_keeps_levels _handle_if.
Proof. handler_keeps_tac _handle_if. Qed.
Lemma _handle_elif_keeps : handler_keeps_levels _handle_elif.
Proof. handler_keeps_tac _handle_elif. Qed.
Lemma _handle_else_keeps : handler_keeps_levels _handle_else.
Proof. handler_keeps_tac _handle_else. Qed.
Lemma _handle_for_range_keeps : handler_keeps_levels _handle_for_range.
Proof. handler_keeps_tac _handle_for_range. Qed.
Lemma _handle_foreach_keeps : handler_keeps_levels _handle_foreach.
Proof. handler_keeps_tac _handle_foreach. Qed.
Lemma _handle_switch_keeps : handler_keeps_levels _handle_switch.
Proof. handler_keeps_tac _handle_switch. Qed.
Lemma _handle_switch_case_keeps : handler_keeps_levels _handle_switch_case.
Proof.
  intros m indent s b s' H; unfold _handle_switch_case, done in H.
  destruct (case_pending s); run_handler H; inversion H; subst; clear H;
    frame_rw; simpl; lia.
Qed.
Lemma _handle_switch_default_keeps : handler_keeps_levels _handle_switch_default.
Proof.
  intros m indent s b s' H; unfold _handle_switch_default, done in H.
  destruct (case_pending s); run_handler H; inversion H; subst; clear H;
    frame_rw; simpl; lia.
Qed.
Lemma _handle_function_call_keeps : handler_keeps_levels _handle_function_call.
Proof. handler_keeps_tac _handle_function_call. Qed.

(** The while action: it opens a while block, or it is the while clause of
    a pending do block, pops one level and one kind and emits the closing
    line of the do block at the popped level minus four. With no level to
    pop it raises. *)
Lemma handle_while_cases (m : captures) (indent : Z) (s s' : DSLConverter) (b : bool) :
  _handle_while m indent s = Ok (b, s') ->
  (do_while_pending s = false
   /\ (length (indent_stack s) <= length (indent_stack s'))%nat)
  \/ (do_while_pending s = true
      /\ exists level cond,
           indent_stack s = level :: indent_stack s'
           /\ block_types s' = tl (block_types s)
           /\ php_lines s' = (php_lines s ++ [while_closer level cond])%list).
Proof.
  intros H. destruct (do_while_pending s) eqn:Hp.
  - right. split; [reflexivity |].
    destruct (indent_stack s) as [|level levels] eqn:Hs.
    + unfold _handle_while in H. rewrite Hp, Hs in H. discriminate H.
    + rewrite (handle_while_pending m indent level levels s Hp Hs) in H.
      set (t := snd (pop_block_type (set_indent_stack levels s))) in *.
      destruct (pop_block_type_frame (set_indent_stack levels s))
        as (Hi & Hb & Hl & _). fold t in Hi, Hb, Hl.
      destruct (_replace_vars t (Py.strip (group 1 m))) as [cond|e];
        cbn [bind] in H; [| discriminate H].
      inversion H; subst s'; clear H. exists level, cond.
      cbn [indent_stack block_types php_lines set_do_while_pending emit set_php_lines].
      rewrite Hi, Hb, Hl. repeat split.
  - left. split; [reflexivity |].
    unfold _handle_while in H. rewrite Hp in H.
    destruct (_replace_vars s (Py.strip (group 1 m))) as [cond|e];
      cbn [bind] in H; [| discriminate H].
    unfold done in H. inversion H; subst s'; clear H. simpl. lia.
Qed.

Lemma handlers_keep_levels (j : nat) (p : pattern) (h : handler) :
  nth_error handlers j = Some (p, h) ->
  j <> rule_while_colon -> j <> rule_while ->
  handler_keeps_levels h.
Proof.
  intros H H1 H2. unfold rule_while_colon, rule_while in *.
  do 30 (destruct j as [|j];
         [ first [ exfalso; lia
                 | simpl in H; inversion H; subst;
                   auto using _handle_import_keeps, _handle_func_keeps,
                     _handle_anon_fn_short_keeps, _handle_anon_fn_long_keeps,
                     _handle_with_keeps, _handle_match_assignment_keeps,
                     _handle_match_return_keeps, _handle_case_keeps,
                     _handle_default_keeps, _handle_input_keeps,
                     _handle_ternary_keeps, _handle_do_keeps,
                     _handle_constant_keeps, _handle_assignment_keeps,
                     _handle_return_keeps, _handle_break_keeps,
                     _handle_continue_keeps, _handle_pass_keeps,
                     _handle_print_keeps, _handle_if_keeps, _handle_elif_keeps,
                     _handle_else_keeps, _handle_for_range_keeps,
                     _handle_foreach_keeps, _handle_switch_keeps,
                     _handle_switch_case_keeps, _handle_switch_default_keeps,
                     _handle_function_call_keeps ] |]).
  simpl in H. destruct j; discriminate H.
Qed.

Lemma while_rules_are_handle_while (j : nat) (p : pattern) (h : handler) :
  nth_error handlers j = Some (p, h) ->
  j = rule_while_colon \/ j = rule_while ->
  h = _handle_while.
Proof. intros H [-> | ->]; simpl in H; now inversion H. Qed.

(** The action of a line shortens the indentation stack only as the while
    clause of a pending do block. *)
Lemma dispatch_pops_only_at_while (text : string) (indent : Z) (s s' : DSLConverter)
  (b : bool) :
  dispatch handlers text indent s = Ok (b, s') ->
  (length (indent_stack s) <= length (indent_stack s'))%nat
  \/ (is_while_clause text = true
      /\ do_while_pending s = true
      /\ exists level cond,
           indent_stack s = level :: indent_stack s'
           /\ block_types s' = tl (block_types s)
           /\ php_lines s' = (php_lines s ++ [while_closer level cond])%list).
Proof.
  intros H. unfold is_while_clause. destruct (rule_of text) as [j|] eqn:R.
  - unfold rule_of in R.
    destruct (dispatch_rule_from handlers text indent s _ _ R)
      as (p & h & m & Hn & _ & _ & Hd).
    rewrite Nat.sub_0_r in Hn. rewrite Hd in H.
    destruct (Nat.eqb_spec j rule_while_colon) as [E1 | N1];
      [| destruct (Nat.eqb_spec j rule_while) as [E2 | N2]].
    + rewrite (while_rules_are_handle_while j p h Hn (or_introl E1)) in H.
      destruct (handle_while_cases _ _ _ _ _ H) as [[_ Hk] | [Hp Hpop]];
        [now left | right; now repeat split].
    + rewrite (while_rules_are_handle_while j p h Hn (or_intror E2)) in H.
      destruct (handle_while_cases _ _ _ _ _ H) as [[_ Hk] | [Hp Hpop]];
        [now left | right; repeat split; try assumption; apply orb_true_r].
    + left. exact (handlers_keep_levels j p h Hn N1 N2 _ _ _ _ _ H).
  - unfold rule_of in R. rewrite (dispatch_unrecognized handlers _ _ _ 0%nat R) in H.
    inversion H; subst. left. lia.
Qed.

(** One line of the input shortens the indentation stack it finds after
    [_adjust_indent] only as the while clause of a pending do block. *)
Lemma process_line_pops_only_at_while (s s' : DSLConverter) (line : string) :
  nonempty (Py.strip line) = true ->
  Py.startswith "#" (Py.strip line) = false ->
  process_line s line = Ok s' ->
  (length (indent_stack (_adjust_indent (indent_of line) s))
   <= length (indent_stack s'))%nat
  \/ (is_while_clause (Py.strip line) = true
      /\ do_while_pending (_adjust_indent (indent_of line) s) = true
      /\ exists level cond,
           indent_stack (_adjust_indent (indent_of line) s) = level :: indent_stack s'
           /\ block_types s' = tl (block_types (_adjust_indent (indent_of line) s))
           /\ php_lines s'
              = (php_lines (_adjust_indent (indent_of line) s)
                   ++ [while_closer level cond])%list).
Proof.
  intros Hne Hnc H. unfold process_line in H.
  rewrite strip_rstrip, Hne, Hnc in H. cbn [negb] in H.
  set (s1 := _adjust_indent (indent_of line) s) in *.
  destruct (dispatch handlers (Py.strip line) (indent_of line) s1)
    as [[b s2]|] eqn:Hd; cbn [bind] in H; [| discriminate H].
  destruct (dispatch_ok _ _ _ _ _ _ handlers_ok Hd) as [_ Hdecl].
  destruct b.
  - inversion H; subst. exact (dispatch_pops_only_at_while _ _ _ _ _ Hd).
  - rewrite (Hdecl eq_refl) in H. left.
    destruct (Py.endswith ":" (Py.strip line)).
    + inversion H; subst. simpl. lia.
    + destruct (_replace_vars s1 (Py.strip line)); cbn [bind] in H; [| discriminate H].
      inversion H; subst. simpl. lia.
Qed.

(** ** The root level of the indentation stack *)

Lemma root_gives_shape (s : DSLConverter) :
  stack_invariant s ->
  In 0 (indent_stack s) ->
  (exists above, indent_stack s = (above ++ [0])%list
                 /\ Forall (fun level => 0 < level) above)
  /\ length (indent_stack s) = S (length (block_types s)).
Proof.
  intros [_ [(above & Ha & Hlen & Hpos) | [_ Hpos]]] Hroot.
  - split; [exists above; now split |]. rewrite Ha, length_app. simpl. lia.
  - rewrite Forall_forall in Hpos. apply Hpos in Hroot. lia.
Qed.

Lemma adjust_indent_keeps_root (indent : Z) (s : DSLConverter) :
  0 <= indent ->
  In 0 (indent_stack s) ->
  In 0 (indent_stack (_adjust_indent indent s)).
Proof.
  intros Hind Hroot.
  destruct (adjust_loop_stack indent (indent_stack s) s eq_refl)
    as (_ & popped & Hsplit & Hpopped).
  fold (_adjust_indent indent s) in Hsplit.
  rewrite Hsplit in Hroot. apply in_app_or in Hroot. destruct Hroot as [H | H];
    [| exact H].
  rewrite Forall_forall in Hpopped. apply Hpopped in H. lia.
Qed.

(** One line keeps the root level on the indentation stack, unless it is
    the while clause that pops it. *)
Lemma process_line_keeps_root (s s' : DSLConverter) (line : string) :
  engine_invariant s ->
  In 0 (indent_stack s) ->
  process_line s line = Ok s' ->
  ~ while_pops_root s line ->
  In 0 (indent_stack s').
Proof.
  intros Hinv Hroot H Hno.
  destruct (nonempty (Py.strip line)) eqn:Hne.
  2:{ unfold process_line in H. rewrite strip_rstrip, Hne in H. cbn [negb] in H.
      inversion H; subst. exact Hroot. }
  destruct (Py.startswith "#" (Py.strip line)) eqn:Hnc.
  { unfold process_line in H. rewrite strip_rstrip, Hne, Hnc in H. cbn [negb] in H.
    inversion H; subst. exact Hroot. }
  pose proof (indent_of_nonneg line) as Hnn.
  pose proof (adjust_indent_keeps_root (indent_of line) s Hnn Hroot) as Hroot1.
  destruct (adjust_indent_invariant (indent_of line) s Hinv) as [[Hst1 _] _].
  destruct (process_line_pops_only_at_while s s' line Hne Hnc H)
    as [Hlen | (Hw & Hp & level & cond & Hs & _)].
  - unfold process_line in H. rewrite strip_rstrip, Hne, Hnc in H. cbn [negb] in H.
    set (s1 := _adjust_indent (indent_of line) s) in *.
    destruct (dispatch handlers (Py.strip line) (indent_of line) s1)
      as [[b s2]|] eqn:Hd; cbn [bind] in H; [| discriminate H].
    destruct (dispatch_ok _ _ _ _ _ _ handlers_ok Hd) as [Hstep Hdecl].
    assert (Hroot2 : b = true -> In 0 (indent_stack s2)).
    { intros ->. inversion H; subst s2.
      destruct Hstep as [Hi _ _ | k Hi _ _ _ | v Hi _ _ | lvl rest Hs1 Hi _ _].
      - now rewrite Hi.
      - rewrite Hi. now right.
      - rewrite Hi. now right.
      - rewrite Hs1, Hi in Hlen. simpl in Hlen. lia. }
    destruct b.
    + inversion H; subst. now apply Hroot2.
    + rewrite (Hdecl eq_refl) in H.
      destruct (Py.endswith ":" (Py.strip line)).
      * inversion H; subst. simpl. now right.
      * destruct (_replace_vars s1 (Py.strip line)); cbn [bind] in H;
          [| discriminate H].
        inversion H; subst. exact Hroot1.
  - destruct (root_gives_shape _ Hst1 Hroot1) as [(above & Ha & Hpos) _].
    rewrite Hs in Ha, Hroot1.
    destruct above as [|a above]; simpl in Ha.
    + exfalso. apply Hno. unfold while_pops_root. rewrite Hs, Ha. now repeat split.
    + inversion Ha; subst. destruct Hroot1 as [E | Hin]; [| exact Hin].
      inversion Hpos; subst. lia.
Qed.

Lemma run_lines_keep_root (lines : list string) :
  forall s s',
    engine_invariant s ->
    In 0 (indent_stack s) ->
    run_lines lines s = Ok s' ->
    (forall k sk, (k < length lines)%nat ->
                  run_lines (firstn k lines) s = Ok sk ->
                  ~ while_pops_root sk (nth k lines "")) ->
    In 0 (indent_stack s').
Proof.
  induction lines as [|line lines IH]; intros s s' Hinv Hroot H Hno; simpl in H.
  - inversion H; subst. exact Hroot.
  - destruct (process_line s line) as [s1|] eqn:Hp; simpl in H; [| discriminate H].
    apply (IH s1 s').
    + eapply process_line_invariant; eassumption.
    + apply (process_line_keeps_root s s1 line Hinv Hroot Hp).
      apply (Hno 0%nat s); [simpl; lia | reflexivity].
    + exact H.
    + intros k sk Hk Hrun. apply (Hno (S k) sk); [simpl; lia |].
      simpl. rewrite Hp. exact Hrun.
Qed.

Lemma forall_firstn_le {A : Type} (P : A -> Prop) (l : list A) :
  forall n k, (k <= n)%nat -> Forall P (firstn n l) -> Forall P (firstn k l).
Proof.
  induction l as [|x l IH]; intros n k Hk H.
  - rewrite firstn_nil. constructor.
  - destruct k as [|k]; [constructor |]. destruct n as [|n]; [lia |].
    simpl in *. inversion H; subst. constructor; [assumption |].
    apply (IH n k); [lia | assumption].
Qed.

Lemma run_lines_without_do (lines : list string) :
  Forall (fun line => Py.startswith "do:" (Py.strip line) = false) lines ->
  forall s s',
    do_while_pending s = false ->
    run_lines lines s = Ok s' ->
    do_while_pending s' = false.
Proof.
  induction 1 as [|line lines Hline Hlines IH]; intros s s' Hp H; simpl in H.
  - inversion H; subst. exact Hp.
  - destruct (process_line_calm s line Hline Hp) as [_ Hok].
    destruct (process_line s line) as [s1|]; simpl in H; [| discriminate H].
    eapply IH; [| exact H]. now apply Hok.
Qed.

(** C2, as the engine keeps it: after any prefix of the input lines has
    been processed by [convert], the indentation stack is strictly
    increasing from its bottom to its top. As long as no while clause of a
    pending do block has found the root level alone on the stack and
    popped it (the defect of the while action), the stack holds the root
    level 0, at its bottom and below positive levels only, and it is
    exactly one element longer than the stack of block kinds. In a text
    without a [do:] line the defect cannot strike, so there the root level
    is always on the stack and the two lengths always differ by one. *)
Theorem C2_stack_invariant_after_any_prefix
  (engine : DSLConverter) (code : string) (n : nat) (s : DSLConverter) :
  run_lines (firstn n (Py.splitlines code)) (reinit engine) = Ok s ->
  strictly_increasing (indent_stack s)
  /\ ((forall k sk,
          (k < n)%nat ->
          run_lines (firstn k (Py.splitlines code)) (reinit engine) = Ok sk ->
          ~ while_pops_root sk (nth k (Py.splitlines code) "")) ->
      In 0 (indent_stack s)
      /\ (exists above, indent_stack s = (above ++ [0])%list
                        /\ Forall (fun level => 0 < level) above)
      /\ length (indent_stack s) = S (length (block_types s)))
  /\ (Forall (fun line => Py.startswith "do:" (Py.strip line) = false)
        (firstn n (Py.splitlines code)) ->
      In 0 (indent_stack s)
      /\ (exists above, indent_stack s = (above ++ [0])%list
                        /\ Forall (fun level => 0 < level) above)
      /\ length (indent_stack s) = S (length (block_types s))).
Proof.
  intros H.
  pose proof (run_lines_invariant _ _ _ (reinit_invariant engine) H) as [Hst _].
  assert (Hkept : (forall k sk,
                      (k < n)%nat ->
                      run_lines (firstn k (Py.splitlines code)) (reinit engine) = Ok sk ->
                      ~ while_pops_root sk (nth k (Py.splitlines code) "")) ->
                  In 0 (indent_stack s)
                  /\ (exists above, indent_stack s = (above ++ [0])%list
                                    /\ Forall (fun level => 0 < level) above)
                  /\ length (indent_stack s) = S (length (block_types s))).
  { intros Hno.
    assert (Hroot : In 0 (indent_stack s)).
    { apply (run_lines_keep_root (firstn n (Py.splitlines code)) (reinit engine) s
               (reinit_invariant engine)); [now left | exact H |].
      intros k sk Hk Hrun.
      pose proof (firstn_le_length n (Py.splitlines code)) as Hle.
      rewrite firstn_firstn, Nat.min_l in Hrun by lia.
      rewrite nth_firstn. destruct (Nat.ltb_spec k n); [| lia].
      apply Hno; [lia | exact Hrun]. }
    split; [exact Hroot |]. exact (root_gives_shape s Hst Hroot). }
  split; [exact (proj1 Hst) |]. split; [exact Hkept |].
  intros Hdo. apply Hkept. intros k sk Hk Hrun (_ & Hp & _).
  assert (Hsk : do_while_pending sk = false).
  { apply (run_lines_without_do (firstn k (Py.splitlines code))
             (forall_firstn_le _ _ n k (Nat.lt_le_incl _ _ Hk) Hdo)
             (reinit engine) sk eq_refl Hrun). }
  unfold _adjust_indent in Hp. rewrite adjust_loop_do_while_pending, Hsk in Hp.
  discriminate Hp.
Qed.

Lemma C2_stack_invariant_after_any_prefix_witness :
  (strictly_increasing [4; 0] /\ In 0 [4; 0] /\ length [4; 0] = S (length [BIf]))
  /\ (In 0 [0] /\ length [0] = S (length (@nil block_kind))).
Proof.
  split.
  - destruct (C2_stack_invariant_after_any_prefix __init__
                (text_of ["if a:"; "    x = 1"; "y = 2"]) 2
                (set_php_lines (banner ++ ["if (a) {"; "    $x = 1;"])
                   (add_var "x" (push_block 4 BIf (reinit __init__)))))
      as (H1 & _ & H3).
    + vm_compute. reflexivity.
    + split; [exact H1 |].
      destruct H3 as (Hroot & _ & Hlen).
      * replace (Py.splitlines (text_of ["if a:"; "    x = 1"; "y = 2"]))
          with ["if a:"; "    x = 1"; "y = 2"] by (vm_compute; reflexivity).
        cbn [firstn]. repeat constructor.
      * split; [exact Hroot | exact Hlen].
  - destruct (C2_stack_invariant_after_any_prefix __init__
                (text_of ["do:"; "    x = 1"; "    while x"]) 3
                (set_do_while_pending false
                   (set_block_types []
                      (set_indent_stack [0]
                         (set_php_lines (banner ++ ["do {"; "    $x = 1;"; "} while ($x);"])
                            (add_var "x" (reinit __init__)))))))
      as (_ & H2 & _).
    + vm_compute. reflexivity.
    + destruct H2 as (Hroot & _ & Hlen); [| split; [exact Hroot | exact Hlen]].
      replace (Py.splitlines (text_of ["do:"; "    x = 1"; "    while x"]))
        with ["do:"; "    x = 1"; "    while x"] by (vm_compute; reflexivity).
      intros k sk Hk Hrun (Hwhile & _ & Hstack).
      destruct k as [|[|[|k]]]; [| | | lia];
        vm_compute in Hrun; inversion Hrun; subst sk; clear Hrun;
        first [ vm_compute in Hwhile; discriminate Hwhile
              | vm_compute in Hstack; discriminate Hstack ].
Defined.

(** ** Every block that is popped is closed *)











